(** * The AMP video manager: docking, dragging and visibility

    A shallow embedding of [src/service/video-manager-impl.js] (the variant
    with [DockingStates], i.e. the second [VideoManager]/[VideoEntry] pair of
    the file) and the properties its specification states about it.

    Conventions of the embedding.
    - JavaScript numbers are exact rationals ([Q]); the non-finite values are
      present only where the code tests for them ([JsNumber]).  Comparisons
      [==], [<=], ... on numbers are [Qeq_bool], [Qle_bool], ...
    - A method of [VideoEntry] is a computation over the entry it is called
      on; a method that also reaches the manager ([this.manager_]) or other
      entries is a computation over the [VideoManager], with the index of
      [this] in [entries_] as the reference to the entry (entries are only
      ever appended, so the index is the identity of the object).
    - A computation may throw; the state reached when it throws is kept,
      since a JavaScript exception does not roll assignments back.
    - Host callbacks (DOM listeners, vsync tasks, observer callbacks, promise
      continuations) are the [Event]s of a step function; the host decides
      their order.  Session bookkeeping and the dispatch of analytics events
      are left out.

    The file goes on with parts that take no part in the event machine: the
    detection of autoplay support and the analytics snapshot at the end of
    the same file, the listener helpers of [src/event-helper-listen.js], and
    the earlier [VideoManager]/[VideoEntry] pair of the file (module [V1]). *)

From Stdlib Require Import QArith Qabs Qround Lqa.
From stdpp Require Import base list strings.

Set Default Proof Using "Type".

(** ** Exceptions and stateful computations *)

Inductive Error :=
| TypeError
| AssertionError (msg : string).

Inductive Exec (S A : Type) :=
| Done (s : S) (a : A)
| Thrown (s : S) (err : Error).
Arguments Done {S A} s a.
Arguments Thrown {S A} s err.

Definition M (S A : Type) : Type := S → Exec S A.

Definition ret {S A} (a : A) : M S A := λ s, Done s a.

Definition bind {S A B} (c : M S A) (k : A → M S B) : M S B :=
  λ s, match c s with
       | Done s' a => k a s'
       | Thrown s' err => Thrown s' err
       end.

Definition throw {S A} (err : Error) : M S A := λ s, Thrown s err.
Definition get {S} : M S S := λ s, Done s s.
Definition gets {S A} (f : S → A) : M S A := λ s, Done s (f s).
Definition modify {S} (f : S → S) : M S unit := λ s, Done (f s) tt.

Declare Scope exec_scope.
Delimit Scope exec_scope with exec.
Notation "x ← y ; z" := (bind y (λ x, z))
  (at level 20, y at level 100, z at level 200, only parsing) : exec_scope.
Notation "x ;; z" := (bind x (λ _, z))
  (at level 100, z at level 200, only parsing, right associativity)
  : exec_scope.
Open Scope exec_scope.

(** [when b c]: the statement [if (b) { c }]. *)
Definition when {S} (b : bool) (c : M S unit) : M S unit :=
  if b then c else ret tt.

Definition final_state {S A} (r : Exec S A) : S :=
  match r with Done s _ => s | Thrown s _ => s end.

Definition thrown {S A} (r : Exec S A) : option Error :=
  match r with Done _ _ => None | Thrown _ err => Some err end.

Definition isNull {A} (o : option A) : bool :=
  match o with None => true | Some _ => false end.

(** Dereferencing a possibly null reference: [o.f] throws a [TypeError]
    when [o] is null. *)
Definition deref {S A} (o : option A) : M S A :=
  match o with Some a => ret a | None => throw TypeError end.

(** Modelled from the spec: [dev().assert] and [dev().assertElement] of
    [src/log.js], which is not part of the sources.  The specification calls
    a failed developer assertion fatal and not recoverable: it throws. *)
Definition dev_assert {S} (b : bool) (msg : string) : M S unit :=
  if b then ret tt else throw (AssertionError msg).

Definition dev_assertElement {S A} (o : option A) : M S A :=
  match o with
  | Some a => ret a
  | None => throw (AssertionError "Element expected")
  end.

(** ** Numbers *)

Open Scope Q_scope.

Inductive JsNumber :=
| Finite (q : Q)
| NaN
| PosInfinity
| NegInfinity.

(** Modelled from the spec: [isFiniteNumber] of [src/types.js], which is not
    part of the sources; a value that is not a finite number ("not-a-number")
    is the one the caller replaces by 0. *)
Definition isFiniteNumber (n : JsNumber) : bool :=
  match n with Finite _ => true | _ => false end.

(** Modelled from the spec: [mapRange] of [src/utils/math.js], which is not
    part of the sources: the linear map that sends the interval
    [min1, max1] onto [min2, max2]. *)
Definition mapRange (val min1 max1 min2 max2 : Q) : Q :=
  (val - min1) * (max2 - min2) / (max1 - min1) + min2.

Definition Qlt_bool (a b : Q) : bool := negb (Qle_bool b a).

(** ** Constants *)

Definition VISIBILITY_PERCENT : Q := 75.
Definition DOCK_SCALE : Q := 6 # 10.
Definition DOCK_CLASS : string := "i-amphtml-dockable-video-minimizing".
Definition DOCK_MARGIN : Q := 20.
Definition FRICTION_COEFF : Q := 55 # 100.
Definition STOP_THRESHOLD : Q := 3.

Inductive PlayingStates := PLAYING_MANUAL | PLAYING_AUTO | PAUSED.

Inductive MinimizePositions :=
| MP_INLINE | TOP_LEFT | BOTTOM_LEFT | TOP_RIGHT | BOTTOM_RIGHT.

Inductive DockingStates := INLINE | DOCKING | DOCKED.

Inductive ActionTrust := LOW | MEDIUM | HIGH.

#[global] Instance PlayingStates_eq_dec : EqDecision PlayingStates.
Proof. solve_decision. Defined.
#[global] Instance MinimizePositions_eq_dec : EqDecision MinimizePositions.
Proof. solve_decision. Defined.
#[global] Instance DockingStates_eq_dec : EqDecision DockingStates.
Proof. solve_decision. Defined.

(** ** Geometry *)

Record Point := mkPoint { x : Q; y : Q }.

(** A [ClientRect] / [LayoutRectDef]. *)
Record Rect := mkRect {
  left : Q; top : Q; width : Q; height : Q; bottom : Q; right : Q
}.

(** [layoutRectLtwh] of [src/layout-rect.js] (not part of the sources):
    the rectangle with the given left, top, width and height. *)
Definition layoutRectLtwh (l t w h : Q) : Rect :=
  mkRect l t w h (t + h) (l + w).

(** [RelativePositions] of [src/layout-rect.js]. *)
Inductive RelativePositions := RP_INSIDE | RP_TOP | RP_BOTTOM.

#[global] Instance RelativePositions_eq_dec : EqDecision RelativePositions.
Proof. solve_decision. Defined.

(** [PositionInViewportEntryDef] of the position observer. *)
Record PositionInViewportEntryDef := mkPos {
  positionRect : option Rect;
  viewportRect : Rect;
  relativePos : RelativePositions
}.

(** What the handlers read from the viewport service and from layout while
    they run: [viewport_.getWidth()], [getHeight()], [getScrollHeight()],
    [video.element.offsetTop], [offsetHeight],
    [video.element.getBoundingClientRect()] and
    [internalElement_.getBoundingClientRect()]. *)
Record Env := mkEnv {
  viewportWidth : Q;
  viewportHeight : Q;
  viewportScrollHeight : Q;
  offsetTop : Q;
  offsetHeight : Q;
  inlineRect : Rect;
  minimizedRect : Rect
}.

(** ** The DOM state the manager reads and writes *)

(** Style values as [src/style.js] builds them: [px(n)], a keyword, and the
    docking transform [translate(x, y) + ' ' + scale(s)]; [translate] stays
    undefined when no corner is selected. *)
Inductive CssValue :=
| Px (n : Q)
| Keyword (s : string)
| Transform (translate : option (Q * Q)) (scale : Q).

Definition Style := list (string * CssValue).

Fixpoint setStyle (k : string) (v : CssValue) (st : Style) : Style :=
  match st with
  | [] => [(k, v)]
  | (k', v') :: st' =>
      if String.eqb k k' then (k, v) :: st' else (k', v') :: setStyle k v st'
  end.

Definition setStyles (kvs : list (string * CssValue)) (st : Style) : Style :=
  foldl (λ acc kv, setStyle kv.1 kv.2 acc) st kvs.

Fixpoint getStyle (k : string) (st : Style) : option CssValue :=
  match st with
  | [] => None
  | (k', v) :: st' => if String.eqb k k' then Some v else getStyle k st'
  end.

Record Element := mkElement {
  classList : list string;
  style : Style
}.

Definition classList_contains (c : string) (el : Element) : bool :=
  existsb (String.eqb c) (classList el).

Definition classList_add (c : string) (el : Element) : Element :=
  if classList_contains c el then el
  else mkElement (classList el ++ [c]) (style el).

Definition classList_remove (c : string) (el : Element) : Element :=
  mkElement (filter (λ c', c' ≠ c) (classList el)) (style el).

Definition el_setStyles (kvs : list (string * CssValue)) (el : Element)
  : Element :=
  mkElement (classList el) (setStyles kvs (style el)).

(** [element.setAttribute('style', '')]. *)
Definition clearStyleAttribute (el : Element) : Element :=
  mkElement (classList el) [].

(** ** The video component ([VideoInterface]) *)

Inductive VideoCall :=
| CallPlay (isAutoplay : bool)
| CallPause
| CallMute
| CallUnmute
| CallHideControls
| CallShowControls.

(** A video component as the manager sees it.  [vid] is the identity of the
    object ([===]).  [supportsAnalytics] is what [assertTrackingVideo]
    tests.  [playerStyle] is the inline style the component built
    its player node ([<video>] or [<iframe>]) with, when it has one; the
    class list of that node starts without the manager's docking class.
    [actions] and [calls] record, oldest first, what the manager registered
    and invoked on the component. *)
Record Video := mkVideo {
  vid : nat;
  supportsPlatform : bool;
  isInteractive : bool;
  dockAttribute : bool;
  autoplayAttribute : bool;
  supportsAnalytics : bool;
  playerStyle : option Style;
  elementClasses : list string;
  actions : list (string * VideoCall * ActionTrust);
  calls : list VideoCall
}.

Definition registerAction (name : string) (c : VideoCall) (t : ActionTrust)
    (v : Video) : Video :=
  mkVideo (vid v) (supportsPlatform v) (isInteractive v) (dockAttribute v)
    (autoplayAttribute v) (supportsAnalytics v) (playerStyle v)
    (elementClasses v) (actions v ++ [(name, c, t)]) (calls v).

Definition call (c : VideoCall) (v : Video) : Video :=
  mkVideo (vid v) (supportsPlatform v) (isInteractive v) (dockAttribute v)
    (autoplayAttribute v) (supportsAnalytics v) (playerStyle v)
    (elementClasses v) (actions v) (calls v ++ [c]).

Definition addElementClass (c : string) (v : Video) : Video :=
  mkVideo (vid v) (supportsPlatform v) (isInteractive v) (dockAttribute v)
    (autoplayAttribute v) (supportsAnalytics v) (playerStyle v)
    (elementClasses v ++ [c]) (actions v) (calls v).

(** Whether the controls are hidden: the latest of the [hideControls] and
    [showControls] calls is [hideControls]. *)
Definition isControlsCall (c : VideoCall) : bool :=
  match c with CallHideControls | CallShowControls => true | _ => false end.

Definition controlsHidden (v : Video) : bool :=
  match last (List.filter isControlsCall (calls v)) with
  | Some CallHideControls => true
  | _ => false
  end.

(** ** Video entries *)

Record DragCoordinates := mkDragCoordinates {
  mouse : Point;
  displacement : Point;
  initial : Point;
  position : Point;
  previous : Point;
  velocity : Point
}.

(** The element a snap animation runs on. *)
Inductive SnapTarget := OnMask | OnInternalElement.

(** The fields of [VideoEntry], under their names in the source.  The last
    two are the host's state for this entry: the number of [drag_] callbacks
    queued with [vsync_.mutate] and not run yet, and the snap animations
    started by [animateSnap_] that have not completed, with the position each
    one ends at. *)
Record VideoEntry := mkVideoEntry {
  video : Video;
  loaded_ : bool;
  isPlaying_ : bool;
  isVisible_ : bool;
  userInteractedWithAutoPlay_ : bool;
  playCalledByAutoplay_ : bool;
  pauseCalledByAutoplay_ : bool;
  initialRect_ : option Rect;
  minimizePosition_ : MinimizePositions;
  dockingState_ : DockingStates;
  visibleHeight_ : Q;
  internalElement_ : option Element;
  muted_ : bool;
  draggingMask_ : option Element;
  pageDir_ : string;
  lastPosition_ : option PositionInViewportEntryDef;
  dragListenerInstalled_ : bool;
  isTouched_ : bool;
  isDragging_ : bool;
  isSnapping_ : bool;
  isDismissed_ : bool;
  dragCoordinates_ : DragCoordinates;
  hasBeenInViewBefore : bool;
  hasDocking : bool;
  hasAutoplay : bool;
  scheduledDrag : nat;
  snapAnimations : list (SnapTarget * Point)
}.

(** Assignments to one field. *)
Definition set_video (v : Video) (e : VideoEntry) : VideoEntry :=
  mkVideoEntry v (loaded_ e) (isPlaying_ e) (isVisible_ e)
    (userInteractedWithAutoPlay_ e) (playCalledByAutoplay_ e)
    (pauseCalledByAutoplay_ e) (initialRect_ e) (minimizePosition_ e)
    (dockingState_ e) (visibleHeight_ e) (internalElement_ e) (muted_ e)
    (draggingMask_ e) (pageDir_ e) (lastPosition_ e) (dragListenerInstalled_
    e) (isTouched_ e) (isDragging_ e) (isSnapping_ e) (isDismissed_ e)
    (dragCoordinates_ e) (hasBeenInViewBefore e) (hasDocking e) (hasAutoplay
    e) (scheduledDrag e) (snapAnimations e).
Definition set_loaded_ (v : bool) (e : VideoEntry) : VideoEntry :=
  mkVideoEntry (video e) v (isPlaying_ e) (isVisible_ e)
    (userInteractedWithAutoPlay_ e) (playCalledByAutoplay_ e)
    (pauseCalledByAutoplay_ e) (initialRect_ e) (minimizePosition_ e)
    (dockingState_ e) (visibleHeight_ e) (internalElement_ e) (muted_ e)
    (draggingMask_ e) (pageDir_ e) (lastPosition_ e) (dragListenerInstalled_
    e) (isTouched_ e) (isDragging_ e) (isSnapping_ e) (isDismissed_ e)
    (dragCoordinates_ e) (hasBeenInViewBefore e) (hasDocking e) (hasAutoplay
    e) (scheduledDrag e) (snapAnimations e).
Definition set_isPlaying_ (v : bool) (e : VideoEntry) : VideoEntry :=
  mkVideoEntry (video e) (loaded_ e) v (isVisible_ e)
    (userInteractedWithAutoPlay_ e) (playCalledByAutoplay_ e)
    (pauseCalledByAutoplay_ e) (initialRect_ e) (minimizePosition_ e)
    (dockingState_ e) (visibleHeight_ e) (internalElement_ e) (muted_ e)
    (draggingMask_ e) (pageDir_ e) (lastPosition_ e) (dragListenerInstalled_
    e) (isTouched_ e) (isDragging_ e) (isSnapping_ e) (isDismissed_ e)
    (dragCoordinates_ e) (hasBeenInViewBefore e) (hasDocking e) (hasAutoplay
    e) (scheduledDrag e) (snapAnimations e).
Definition set_isVisible_ (v : bool) (e : VideoEntry) : VideoEntry :=
  mkVideoEntry (video e) (loaded_ e) (isPlaying_ e) v
    (userInteractedWithAutoPlay_ e) (playCalledByAutoplay_ e)
    (pauseCalledByAutoplay_ e) (initialRect_ e) (minimizePosition_ e)
    (dockingState_ e) (visibleHeight_ e) (internalElement_ e) (muted_ e)
    (draggingMask_ e) (pageDir_ e) (lastPosition_ e) (dragListenerInstalled_
    e) (isTouched_ e) (isDragging_ e) (isSnapping_ e) (isDismissed_ e)
    (dragCoordinates_ e) (hasBeenInViewBefore e) (hasDocking e) (hasAutoplay
    e) (scheduledDrag e) (snapAnimations e).
Definition set_userInteractedWithAutoPlay_ (v : bool) (e : VideoEntry) : VideoEntry :=
  mkVideoEntry (video e) (loaded_ e) (isPlaying_ e) (isVisible_ e) v
    (playCalledByAutoplay_ e) (pauseCalledByAutoplay_ e) (initialRect_ e)
    (minimizePosition_ e) (dockingState_ e) (visibleHeight_ e)
    (internalElement_ e) (muted_ e) (draggingMask_ e) (pageDir_ e)
    (lastPosition_ e) (dragListenerInstalled_ e) (isTouched_ e) (isDragging_
    e) (isSnapping_ e) (isDismissed_ e) (dragCoordinates_ e)
    (hasBeenInViewBefore e) (hasDocking e) (hasAutoplay e) (scheduledDrag e)
    (snapAnimations e).
Definition set_playCalledByAutoplay_ (v : bool) (e : VideoEntry) : VideoEntry :=
  mkVideoEntry (video e) (loaded_ e) (isPlaying_ e) (isVisible_ e)
    (userInteractedWithAutoPlay_ e) v (pauseCalledByAutoplay_ e)
    (initialRect_ e) (minimizePosition_ e) (dockingState_ e) (visibleHeight_
    e) (internalElement_ e) (muted_ e) (draggingMask_ e) (pageDir_ e)
    (lastPosition_ e) (dragListenerInstalled_ e) (isTouched_ e) (isDragging_
    e) (isSnapping_ e) (isDismissed_ e) (dragCoordinates_ e)
    (hasBeenInViewBefore e) (hasDocking e) (hasAutoplay e) (scheduledDrag e)
    (snapAnimations e).
Definition set_pauseCalledByAutoplay_ (v : bool) (e : VideoEntry) : VideoEntry :=
  mkVideoEntry (video e) (loaded_ e) (isPlaying_ e) (isVisible_ e)
    (userInteractedWithAutoPlay_ e) (playCalledByAutoplay_ e) v
    (initialRect_ e) (minimizePosition_ e) (dockingState_ e) (visibleHeight_
    e) (internalElement_ e) (muted_ e) (draggingMask_ e) (pageDir_ e)
    (lastPosition_ e) (dragListenerInstalled_ e) (isTouched_ e) (isDragging_
    e) (isSnapping_ e) (isDismissed_ e) (dragCoordinates_ e)
    (hasBeenInViewBefore e) (hasDocking e) (hasAutoplay e) (scheduledDrag e)
    (snapAnimations e).
Definition set_initialRect_ (v : option Rect) (e : VideoEntry) : VideoEntry :=
  mkVideoEntry (video e) (loaded_ e) (isPlaying_ e) (isVisible_ e)
    (userInteractedWithAutoPlay_ e) (playCalledByAutoplay_ e)
    (pauseCalledByAutoplay_ e) v (minimizePosition_ e) (dockingState_ e)
    (visibleHeight_ e) (internalElement_ e) (muted_ e) (draggingMask_ e)
    (pageDir_ e) (lastPosition_ e) (dragListenerInstalled_ e) (isTouched_ e)
    (isDragging_ e) (isSnapping_ e) (isDismissed_ e) (dragCoordinates_ e)
    (hasBeenInViewBefore e) (hasDocking e) (hasAutoplay e) (scheduledDrag e)
    (snapAnimations e).
Definition set_minimizePosition_ (v : MinimizePositions) (e : VideoEntry) : VideoEntry :=
  mkVideoEntry (video e) (loaded_ e) (isPlaying_ e) (isVisible_ e)
    (userInteractedWithAutoPlay_ e) (playCalledByAutoplay_ e)
    (pauseCalledByAutoplay_ e) (initialRect_ e) v (dockingState_ e)
    (visibleHeight_ e) (internalElement_ e) (muted_ e) (draggingMask_ e)
    (pageDir_ e) (lastPosition_ e) (dragListenerInstalled_ e) (isTouched_ e)
    (isDragging_ e) (isSnapping_ e) (isDismissed_ e) (dragCoordinates_ e)
    (hasBeenInViewBefore e) (hasDocking e) (hasAutoplay e) (scheduledDrag e)
    (snapAnimations e).
Definition set_dockingState_ (v : DockingStates) (e : VideoEntry) : VideoEntry :=
  mkVideoEntry (video e) (loaded_ e) (isPlaying_ e) (isVisible_ e)
    (userInteractedWithAutoPlay_ e) (playCalledByAutoplay_ e)
    (pauseCalledByAutoplay_ e) (initialRect_ e) (minimizePosition_ e) v
    (visibleHeight_ e) (internalElement_ e) (muted_ e) (draggingMask_ e)
    (pageDir_ e) (lastPosition_ e) (dragListenerInstalled_ e) (isTouched_ e)
    (isDragging_ e) (isSnapping_ e) (isDismissed_ e) (dragCoordinates_ e)
    (hasBeenInViewBefore e) (hasDocking e) (hasAutoplay e) (scheduledDrag e)
    (snapAnimations e).
Definition set_visibleHeight_ (v : Q) (e : VideoEntry) : VideoEntry :=
  mkVideoEntry (video e) (loaded_ e) (isPlaying_ e) (isVisible_ e)
    (userInteractedWithAutoPlay_ e) (playCalledByAutoplay_ e)
    (pauseCalledByAutoplay_ e) (initialRect_ e) (minimizePosition_ e)
    (dockingState_ e) v (internalElement_ e) (muted_ e) (draggingMask_ e)
    (pageDir_ e) (lastPosition_ e) (dragListenerInstalled_ e) (isTouched_ e)
    (isDragging_ e) (isSnapping_ e) (isDismissed_ e) (dragCoordinates_ e)
    (hasBeenInViewBefore e) (hasDocking e) (hasAutoplay e) (scheduledDrag e)
    (snapAnimations e).
Definition set_internalElement_ (v : option Element) (e : VideoEntry) : VideoEntry :=
  mkVideoEntry (video e) (loaded_ e) (isPlaying_ e) (isVisible_ e)
    (userInteractedWithAutoPlay_ e) (playCalledByAutoplay_ e)
    (pauseCalledByAutoplay_ e) (initialRect_ e) (minimizePosition_ e)
    (dockingState_ e) (visibleHeight_ e) v (muted_ e) (draggingMask_ e)
    (pageDir_ e) (lastPosition_ e) (dragListenerInstalled_ e) (isTouched_ e)
    (isDragging_ e) (isSnapping_ e) (isDismissed_ e) (dragCoordinates_ e)
    (hasBeenInViewBefore e) (hasDocking e) (hasAutoplay e) (scheduledDrag e)
    (snapAnimations e).
Definition set_muted_ (v : bool) (e : VideoEntry) : VideoEntry :=
  mkVideoEntry (video e) (loaded_ e) (isPlaying_ e) (isVisible_ e)
    (userInteractedWithAutoPlay_ e) (playCalledByAutoplay_ e)
    (pauseCalledByAutoplay_ e) (initialRect_ e) (minimizePosition_ e)
    (dockingState_ e) (visibleHeight_ e) (internalElement_ e) v
    (draggingMask_ e) (pageDir_ e) (lastPosition_ e) (dragListenerInstalled_
    e) (isTouched_ e) (isDragging_ e) (isSnapping_ e) (isDismissed_ e)
    (dragCoordinates_ e) (hasBeenInViewBefore e) (hasDocking e) (hasAutoplay
    e) (scheduledDrag e) (snapAnimations e).
Definition set_draggingMask_ (v : option Element) (e : VideoEntry) : VideoEntry :=
  mkVideoEntry (video e) (loaded_ e) (isPlaying_ e) (isVisible_ e)
    (userInteractedWithAutoPlay_ e) (playCalledByAutoplay_ e)
    (pauseCalledByAutoplay_ e) (initialRect_ e) (minimizePosition_ e)
    (dockingState_ e) (visibleHeight_ e) (internalElement_ e) (muted_ e) v
    (pageDir_ e) (lastPosition_ e) (dragListenerInstalled_ e) (isTouched_ e)
    (isDragging_ e) (isSnapping_ e) (isDismissed_ e) (dragCoordinates_ e)
    (hasBeenInViewBefore e) (hasDocking e) (hasAutoplay e) (scheduledDrag e)
    (snapAnimations e).
Definition set_pageDir_ (v : string) (e : VideoEntry) : VideoEntry :=
  mkVideoEntry (video e) (loaded_ e) (isPlaying_ e) (isVisible_ e)
    (userInteractedWithAutoPlay_ e) (playCalledByAutoplay_ e)
    (pauseCalledByAutoplay_ e) (initialRect_ e) (minimizePosition_ e)
    (dockingState_ e) (visibleHeight_ e) (internalElement_ e) (muted_ e)
    (draggingMask_ e) v (lastPosition_ e) (dragListenerInstalled_ e)
    (isTouched_ e) (isDragging_ e) (isSnapping_ e) (isDismissed_ e)
    (dragCoordinates_ e) (hasBeenInViewBefore e) (hasDocking e) (hasAutoplay
    e) (scheduledDrag e) (snapAnimations e).
Definition set_lastPosition_ (v : option PositionInViewportEntryDef) (e : VideoEntry) : VideoEntry :=
  mkVideoEntry (video e) (loaded_ e) (isPlaying_ e) (isVisible_ e)
    (userInteractedWithAutoPlay_ e) (playCalledByAutoplay_ e)
    (pauseCalledByAutoplay_ e) (initialRect_ e) (minimizePosition_ e)
    (dockingState_ e) (visibleHeight_ e) (internalElement_ e) (muted_ e)
    (draggingMask_ e) (pageDir_ e) v (dragListenerInstalled_ e) (isTouched_
    e) (isDragging_ e) (isSnapping_ e) (isDismissed_ e) (dragCoordinates_ e)
    (hasBeenInViewBefore e) (hasDocking e) (hasAutoplay e) (scheduledDrag e)
    (snapAnimations e).
Definition set_dragListenerInstalled_ (v : bool) (e : VideoEntry) : VideoEntry :=
  mkVideoEntry (video e) (loaded_ e) (isPlaying_ e) (isVisible_ e)
    (userInteractedWithAutoPlay_ e) (playCalledByAutoplay_ e)
    (pauseCalledByAutoplay_ e) (initialRect_ e) (minimizePosition_ e)
    (dockingState_ e) (visibleHeight_ e) (internalElement_ e) (muted_ e)
    (draggingMask_ e) (pageDir_ e) (lastPosition_ e) v (isTouched_ e)
    (isDragging_ e) (isSnapping_ e) (isDismissed_ e) (dragCoordinates_ e)
    (hasBeenInViewBefore e) (hasDocking e) (hasAutoplay e) (scheduledDrag e)
    (snapAnimations e).
Definition set_isTouched_ (v : bool) (e : VideoEntry) : VideoEntry :=
  mkVideoEntry (video e) (loaded_ e) (isPlaying_ e) (isVisible_ e)
    (userInteractedWithAutoPlay_ e) (playCalledByAutoplay_ e)
    (pauseCalledByAutoplay_ e) (initialRect_ e) (minimizePosition_ e)
    (dockingState_ e) (visibleHeight_ e) (internalElement_ e) (muted_ e)
    (draggingMask_ e) (pageDir_ e) (lastPosition_ e) (dragListenerInstalled_
    e) v (isDragging_ e) (isSnapping_ e) (isDismissed_ e) (dragCoordinates_
    e) (hasBeenInViewBefore e) (hasDocking e) (hasAutoplay e) (scheduledDrag
    e) (snapAnimations e).
Definition set_isDragging_ (v : bool) (e : VideoEntry) : VideoEntry :=
  mkVideoEntry (video e) (loaded_ e) (isPlaying_ e) (isVisible_ e)
    (userInteractedWithAutoPlay_ e) (playCalledByAutoplay_ e)
    (pauseCalledByAutoplay_ e) (initialRect_ e) (minimizePosition_ e)
    (dockingState_ e) (visibleHeight_ e) (internalElement_ e) (muted_ e)
    (draggingMask_ e) (pageDir_ e) (lastPosition_ e) (dragListenerInstalled_
    e) (isTouched_ e) v (isSnapping_ e) (isDismissed_ e) (dragCoordinates_
    e) (hasBeenInViewBefore e) (hasDocking e) (hasAutoplay e) (scheduledDrag
    e) (snapAnimations e).
Definition set_isSnapping_ (v : bool) (e : VideoEntry) : VideoEntry :=
  mkVideoEntry (video e) (loaded_ e) (isPlaying_ e) (isVisible_ e)
    (userInteractedWithAutoPlay_ e) (playCalledByAutoplay_ e)
    (pauseCalledByAutoplay_ e) (initialRect_ e) (minimizePosition_ e)
    (dockingState_ e) (visibleHeight_ e) (internalElement_ e) (muted_ e)
    (draggingMask_ e) (pageDir_ e) (lastPosition_ e) (dragListenerInstalled_
    e) (isTouched_ e) (isDragging_ e) v (isDismissed_ e) (dragCoordinates_
    e) (hasBeenInViewBefore e) (hasDocking e) (hasAutoplay e) (scheduledDrag
    e) (snapAnimations e).
Definition set_isDismissed_ (v : bool) (e : VideoEntry) : VideoEntry :=
  mkVideoEntry (video e) (loaded_ e) (isPlaying_ e) (isVisible_ e)
    (userInteractedWithAutoPlay_ e) (playCalledByAutoplay_ e)
    (pauseCalledByAutoplay_ e) (initialRect_ e) (minimizePosition_ e)
    (dockingState_ e) (visibleHeight_ e) (internalElement_ e) (muted_ e)
    (draggingMask_ e) (pageDir_ e) (lastPosition_ e) (dragListenerInstalled_
    e) (isTouched_ e) (isDragging_ e) (isSnapping_ e) v (dragCoordinates_ e)
    (hasBeenInViewBefore e) (hasDocking e) (hasAutoplay e) (scheduledDrag e)
    (snapAnimations e).
Definition set_dragCoordinates_ (v : DragCoordinates) (e : VideoEntry) : VideoEntry :=
  mkVideoEntry (video e) (loaded_ e) (isPlaying_ e) (isVisible_ e)
    (userInteractedWithAutoPlay_ e) (playCalledByAutoplay_ e)
    (pauseCalledByAutoplay_ e) (initialRect_ e) (minimizePosition_ e)
    (dockingState_ e) (visibleHeight_ e) (internalElement_ e) (muted_ e)
    (draggingMask_ e) (pageDir_ e) (lastPosition_ e) (dragListenerInstalled_
    e) (isTouched_ e) (isDragging_ e) (isSnapping_ e) (isDismissed_ e) v
    (hasBeenInViewBefore e) (hasDocking e) (hasAutoplay e) (scheduledDrag e)
    (snapAnimations e).
Definition set_hasBeenInViewBefore (v : bool) (e : VideoEntry) : VideoEntry :=
  mkVideoEntry (video e) (loaded_ e) (isPlaying_ e) (isVisible_ e)
    (userInteractedWithAutoPlay_ e) (playCalledByAutoplay_ e)
    (pauseCalledByAutoplay_ e) (initialRect_ e) (minimizePosition_ e)
    (dockingState_ e) (visibleHeight_ e) (internalElement_ e) (muted_ e)
    (draggingMask_ e) (pageDir_ e) (lastPosition_ e) (dragListenerInstalled_
    e) (isTouched_ e) (isDragging_ e) (isSnapping_ e) (isDismissed_ e)
    (dragCoordinates_ e) v (hasDocking e) (hasAutoplay e) (scheduledDrag e)
    (snapAnimations e).
Definition set_hasDocking (v : bool) (e : VideoEntry) : VideoEntry :=
  mkVideoEntry (video e) (loaded_ e) (isPlaying_ e) (isVisible_ e)
    (userInteractedWithAutoPlay_ e) (playCalledByAutoplay_ e)
    (pauseCalledByAutoplay_ e) (initialRect_ e) (minimizePosition_ e)
    (dockingState_ e) (visibleHeight_ e) (internalElement_ e) (muted_ e)
    (draggingMask_ e) (pageDir_ e) (lastPosition_ e) (dragListenerInstalled_
    e) (isTouched_ e) (isDragging_ e) (isSnapping_ e) (isDismissed_ e)
    (dragCoordinates_ e) (hasBeenInViewBefore e) v (hasAutoplay e)
    (scheduledDrag e) (snapAnimations e).
Definition set_hasAutoplay (v : bool) (e : VideoEntry) : VideoEntry :=
  mkVideoEntry (video e) (loaded_ e) (isPlaying_ e) (isVisible_ e)
    (userInteractedWithAutoPlay_ e) (playCalledByAutoplay_ e)
    (pauseCalledByAutoplay_ e) (initialRect_ e) (minimizePosition_ e)
    (dockingState_ e) (visibleHeight_ e) (internalElement_ e) (muted_ e)
    (draggingMask_ e) (pageDir_ e) (lastPosition_ e) (dragListenerInstalled_
    e) (isTouched_ e) (isDragging_ e) (isSnapping_ e) (isDismissed_ e)
    (dragCoordinates_ e) (hasBeenInViewBefore e) (hasDocking e) v
    (scheduledDrag e) (snapAnimations e).
Definition set_scheduledDrag (v : nat) (e : VideoEntry) : VideoEntry :=
  mkVideoEntry (video e) (loaded_ e) (isPlaying_ e) (isVisible_ e)
    (userInteractedWithAutoPlay_ e) (playCalledByAutoplay_ e)
    (pauseCalledByAutoplay_ e) (initialRect_ e) (minimizePosition_ e)
    (dockingState_ e) (visibleHeight_ e) (internalElement_ e) (muted_ e)
    (draggingMask_ e) (pageDir_ e) (lastPosition_ e) (dragListenerInstalled_
    e) (isTouched_ e) (isDragging_ e) (isSnapping_ e) (isDismissed_ e)
    (dragCoordinates_ e) (hasBeenInViewBefore e) (hasDocking e) (hasAutoplay
    e) v (snapAnimations e).
Definition set_snapAnimations (v : list (SnapTarget * Point)) (e : VideoEntry) : VideoEntry :=
  mkVideoEntry (video e) (loaded_ e) (isPlaying_ e) (isVisible_ e)
    (userInteractedWithAutoPlay_ e) (playCalledByAutoplay_ e)
    (pauseCalledByAutoplay_ e) (initialRect_ e) (minimizePosition_ e)
    (dockingState_ e) (visibleHeight_ e) (internalElement_ e) (muted_ e)
    (draggingMask_ e) (pageDir_ e) (lastPosition_ e) (dragListenerInstalled_
    e) (isTouched_ e) (isDragging_ e) (isSnapping_ e) (isDismissed_ e)
    (dragCoordinates_ e) (hasBeenInViewBefore e) (hasDocking e) (hasAutoplay
    e) (scheduledDrag e) v.

Definition set_mouse (v : Point) (c : DragCoordinates) : DragCoordinates :=
  mkDragCoordinates v (displacement c) (initial c) (position c) (previous c)
    (velocity c).
Definition set_displacement (v : Point) (c : DragCoordinates) : DragCoordinates :=
  mkDragCoordinates (mouse c) v (initial c) (position c) (previous c)
    (velocity c).
Definition set_initial (v : Point) (c : DragCoordinates) : DragCoordinates :=
  mkDragCoordinates (mouse c) (displacement c) v (position c) (previous c)
    (velocity c).
Definition set_position (v : Point) (c : DragCoordinates) : DragCoordinates :=
  mkDragCoordinates (mouse c) (displacement c) (initial c) v (previous c)
    (velocity c).
Definition set_previous (v : Point) (c : DragCoordinates) : DragCoordinates :=
  mkDragCoordinates (mouse c) (displacement c) (initial c) (position c) v
    (velocity c).
Definition set_velocity (v : Point) (c : DragCoordinates) : DragCoordinates :=
  mkDragCoordinates (mouse c) (displacement c) (initial c) (position c)
    (previous c) v.

(** ** Methods of [VideoEntry] that stay within the entry *)

Definition assign {A} (set : A → VideoEntry → VideoEntry) (v : A)
  : M VideoEntry unit :=
  modify (set v).

(** [this.video.m()] for a method [m] of the video interface. *)
Definition callVideo (c : VideoCall) : M VideoEntry unit :=
  modify (λ e, set_video (call c (video e)) e).

Definition assignCoord (set : Point → DragCoordinates → DragCoordinates)
    (v : Point) : M VideoEntry unit :=
  modify (λ e, set_dragCoordinates_ (set v (dragCoordinates_ e)) e).

(** [VideoEntry.getPlayingState]. *)
Definition entry_getPlayingState (e : VideoEntry) : PlayingStates :=
  if negb (isPlaying_ e) then PAUSED
  else if isPlaying_ e && playCalledByAutoplay_ e
          && negb (userInteractedWithAutoPlay_ e)
       then PLAYING_AUTO
       else PLAYING_MANUAL.

(** [VideoEntry.userInteractedWithAutoPlay]. *)
Definition entry_userInteractedWithAutoPlay (e : VideoEntry) : bool :=
  userInteractedWithAutoPlay_ e.

(** [this.internalElement_.classList.contains(DOCK_CLASS)], where the source
    has checked [this.internalElement_] first. *)
Definition hasDockClass (e : VideoEntry) : bool :=
  match internalElement_ e with
  | Some el => classList_contains DOCK_CLASS el
  | None => false
  end.

Definition videoPlayed_ : M VideoEntry unit :=
  assign set_isPlaying_ true.

Definition videoPaused_ : M VideoEntry unit :=
  assign set_isPlaying_ false;;
  byAutoplay ← gets pauseCalledByAutoplay_;
  when byAutoplay (assign set_pauseCalledByAutoplay_ false).

Definition videoEnded_ : M VideoEntry unit :=
  assign set_isPlaying_ false.

Definition autoplayLoadedVideoVisibilityChanged_ : M VideoEntry unit :=
  visible ← gets isVisible_;
  if visible then
    callVideo (CallPlay true);;
    assign set_playCalledByAutoplay_ true
  else
    callVideo CallPause;;
    assign set_pauseCalledByAutoplay_ true.

(** Only the session manager is touched: nothing of the model changes. *)
Definition nonAutoplayLoadedVideoVisibilityChanged_ : M VideoEntry unit :=
  ret tt.

(** [loadedVideoVisibilityChanged_], with the continuation of the
    [supportsAutoplay] promise run in place; [viewerVisible] is
    [viewerForDoc(..).isVisible()] and [supportsAutoplay] the value the
    promise resolves to. *)
Definition loadedVideoVisibilityChanged_ (viewerVisible supportsAutoplay : bool)
  : M VideoEntry unit :=
  if negb viewerVisible then ret tt
  else
    e ← get;
    let canAutoplay := hasAutoplay e && negb (userInteractedWithAutoPlay_ e) in
    if canAutoplay && supportsAutoplay
    then autoplayLoadedVideoVisibilityChanged_
    else nonAutoplayLoadedVideoVisibilityChanged_.

Definition videoVisibilityChanged_ (viewerVisible supportsAutoplay : bool)
  : M VideoEntry unit :=
  loaded ← gets loaded_;
  when loaded (loadedVideoVisibilityChanged_ viewerVisible supportsAutoplay).

(** Arithmetic and comparison of numbers that may be non-finite. *)
Definition js_mul (a b : JsNumber) : JsNumber :=
  let inf (positive : bool) := if positive then PosInfinity else NegInfinity in
  let scaled (positive : bool) (q : Q) :=
    if Qeq_bool q 0 then NaN
    else inf (if Qlt_bool 0 q then positive else negb positive) in
  match a, b with
  | Finite p, Finite q => Finite (p * q)
  | NaN, _ | _, NaN => NaN
  | PosInfinity, Finite q | Finite q, PosInfinity => scaled true q
  | NegInfinity, Finite q | Finite q, NegInfinity => scaled false q
  | PosInfinity, PosInfinity | NegInfinity, NegInfinity => PosInfinity
  | PosInfinity, NegInfinity | NegInfinity, PosInfinity => NegInfinity
  end.

Definition js_ge (a b : JsNumber) : bool :=
  match a, b with
  | NaN, _ | _, NaN => false
  | Finite p, Finite q => Qle_bool q p
  | PosInfinity, _ => true
  | _, NegInfinity => true
  | _, PosInfinity => false
  | NegInfinity, Finite _ => false
  end.

(** The measure step of [updateVisibility]; [ratio] is
    [getIntersectionChangeEntry().intersectionRatio]. *)
Definition visiblePercent (ratio : JsNumber) : JsNumber :=
  if negb (isFiniteNumber ratio) then Finite 0
  else js_mul ratio (Finite 100).

Definition updateVisibility_measure (ratio : JsNumber) : M VideoEntry unit :=
  assign set_isVisible_ (js_ge (visiblePercent ratio) (Finite VISIBILITY_PERCENT)).

(** [updateVisibility]: the measure step, then the mutate step. *)
Definition updateVisibility (ratio : JsNumber)
    (viewerVisible supportsAutoplay : bool) : M VideoEntry unit :=
  wasVisible ← gets isVisible_;
  updateVisibility_measure ratio;;
  visible ← gets isVisible_;
  when (negb (eqb visible wasVisible))
       (videoVisibilityChanged_ viewerVisible supportsAutoplay).

(** [scopedQuerySelector(this.video.element, 'video, iframe')]: the player
    node of the component.  The subtree of a component is fixed: the query
    finds the node the entry holds already or, the first time, the node the
    component was built with. *)
Definition queryPlayerNode (e : VideoEntry) : option Element :=
  match internalElement_ e with
  | Some el => Some el
  | None => mkElement [] <$> playerStyle (video e)
  end.

(** [videoLoaded]; the [updateVisibility] call it makes is scheduled with
    vsync and arrives as an event of its own. *)
Definition videoLoaded (viewerVisible supportsAutoplay : bool)
  : M VideoEntry unit :=
  assign set_loaded_ true;;
  modify (λ e, set_internalElement_ (queryPlayerNode e) e);;
  visible ← gets isVisible_;
  when visible (loadedVideoVisibilityChanged_ viewerVisible supportsAutoplay).

(** The continuation of the [supportsAutoplay] promise in
    [autoplayVideoBuilt_], with [autoplayInteractiveVideoBuilt_]. *)
Definition autoplayInteractiveVideoBuilt_ : M VideoEntry unit :=
  callVideo CallHideControls.

Definition autoplayVideoBuilt_then (supportsAutoplay : bool)
  : M VideoEntry unit :=
  interactive ← gets (λ e, isInteractive (video e));
  if negb supportsAutoplay && interactive then callVideo CallShowControls
  else
    callVideo CallMute;;
    when interactive autoplayInteractiveVideoBuilt_.

(** [onInteraction], the click listener of the autoplay mask. *)
Definition onInteraction : M VideoEntry unit :=
  assign set_userInteractedWithAutoPlay_ true;;
  callVideo CallShowControls;;
  callVideo CallUnmute.

(** [scrollMap_]. *)
Definition scrollMap_ (min max : Q) (reverse : bool) : M VideoEntry Q :=
  e ← get;
  r ← deref (initialRect_ e);
  if reverse
  then ret (mapRange (visibleHeight_ e) (height r) 0 min max)
  else ret (mapRange (visibleHeight_ e) 0 (height r) min max).

(** [updateDockableVideoPosition_].  [newPos] is the object the observer
    passes: [lastPosition_] refers to that same object, so the rectangle
    written into [newPos.positionRect] is seen through [lastPosition_]. *)
Definition updateDockableVideoPosition_ (env : Env)
    (newPos : PositionInViewportEntryDef) : M VideoEntry unit :=
  isLtr ← gets (λ e, String.eqb (pageDir_ e) "ltr");
  let isBottom := bool_decide (relativePos newPos = RP_BOTTOM) in
  let isTop := bool_decide (relativePos newPos = RP_TOP) in
  let isInside := bool_decide (relativePos newPos = RP_INSIDE) in
  assign set_lastPosition_ (Some newPos);;
  rect ← match positionRect newPos with
         | Some r => ret r
         | None =>
             ir ← gets initialRect_;
             ir ← deref ir;
             let fake :=
               if isBottom
               then layoutRectLtwh (left ir) (viewportHeight env)
                                   (width ir) (height ir)
               else layoutRectLtwh (left ir) (- height ir)
                                   (width ir) (height ir) in
             assign set_lastPosition_
               (Some (mkPos (Some fake) (viewportRect newPos)
                            (relativePos newPos)));;
             ret fake
         end;
  let docViewTop := top (viewportRect newPos) in
  let docViewBottom := bottom (viewportRect newPos) in
  let elemTop := top rect in
  let elemBottom := bottom rect in
  assign set_visibleHeight_
    (if Qle_bool elemTop docViewTop then elemBottom - docViewTop
     else if Qle_bool docViewBottom elemBottom then docViewBottom - elemTop
     else elemBottom - elemTop);;
  e ← get;
  seen ← (if hasBeenInViewBefore e then ret true
          else ir ← deref (initialRect_ e);
               ret (Qeq_bool (visibleHeight_ e) (height ir)));
  assign set_hasBeenInViewBefore seen;;
  let spaceOnTop := offsetTop env in
  let spaceOnBottom :=
    viewportScrollHeight env - spaceOnTop - offsetHeight env in
  if (isBottom && Qlt_bool spaceOnTop (viewportHeight env))
     || (isTop && Qlt_bool spaceOnBottom (viewportHeight env))
     || Qlt_bool (viewportHeight env) (offsetHeight env)
  then assign set_minimizePosition_ MP_INLINE
  else
    mp ← gets minimizePosition_;
    if bool_decide (mp = MP_INLINE) && negb isInside then
      if isTop then
        assign set_minimizePosition_ (if isLtr then TOP_RIGHT else TOP_LEFT)
      else if isBottom then
        assign set_minimizePosition_
          (if isLtr then BOTTOM_RIGHT else BOTTOM_LEFT)
      else ret tt
    else if isInside then assign set_minimizePosition_ MP_INLINE
    else ret tt.

(** The offsets of the docked position, in pixels ([st.px] of the value). *)
Definition calcDockOffsetXLeft : M VideoEntry Q :=
  ir ← gets initialRect_;
  ir ← deref ir;
  scrollMap_ (left ir) DOCK_MARGIN true.

Definition calcDockOffsetXRight (env : Env) : M VideoEntry Q :=
  ir ← gets initialRect_;
  ir ← deref ir;
  let initialRight := viewportWidth env - left ir - width ir in
  let scaledWidth := DOCK_SCALE * width ir in
  scrollMap_ (viewportWidth env - width ir - initialRight)
             (viewportWidth env - scaledWidth - DOCK_MARGIN) true.

Definition calcDockOffsetYTop (env : Env) : M VideoEntry Q :=
  let inlineRect := inlineRect env in
  let inlineTop := if Qlt_bool (top inlineRect) 0 then 0 else top inlineRect in
  scrollMap_ inlineTop DOCK_MARGIN true.

Definition calcDockOffsetYBottom (env : Env) : M VideoEntry Q :=
  let inlineRect := inlineRect env in
  ir ← gets initialRect_;
  ir ← deref ir;
  let maxTop := viewportHeight env - height ir in
  let inlineTop :=
    if Qlt_bool maxTop (top inlineRect) then maxTop else top inlineRect in
  let scaledHeight := DOCK_SCALE * height ir in
  scrollMap_ inlineTop (viewportHeight env - scaledHeight - DOCK_MARGIN) true.

(** *** Dragging *)

Definition elementOf (target : SnapTarget) (e : VideoEntry) : option Element :=
  match target with
  | OnMask => draggingMask_ e
  | OnInternalElement => internalElement_ e
  end.

Definition withElementOf (target : SnapTarget) (el : Element)
    (e : VideoEntry) : VideoEntry :=
  match target with
  | OnMask => set_draggingMask_ (Some el) e
  | OnInternalElement => set_internalElement_ (Some el) e
  end.

Definition setElementOf (target : SnapTarget) (el : Element)
  : M VideoEntry unit :=
  modify (withElementOf target el).

(** [st.setStyles(dev().assertElement(element), styles)] for one of the two
    elements the entry refers to. *)
Definition setStylesOf (target : SnapTarget)
    (kvs : list (string * CssValue)) : M VideoEntry unit :=
  o ← gets (elementOf target);
  el ← dev_assertElement o;
  setElementOf target (el_setStyles kvs el).

(** The style properties every docking transform comes with. *)
Definition transformStyles (t : CssValue) : list (string * CssValue) :=
  [("transform", t); ("transformOrigin", Keyword "top left");
   ("bottom", Keyword "auto"); ("top", Px 0);
   ("right", Keyword "auto"); ("left", Px 0)].

Definition createDraggingMask_ : M VideoEntry Element :=
  o ← gets internalElement_;
  el ← deref o;
  let copy (prop from : string) : list (string * CssValue) :=
    match getStyle from (style el) with
    | Some v => [(prop, v)]
    | None => []
    end in
  ret (mkElement []
         (setStyles
            (copy "top" "top" ++ copy "left" "left" ++ copy "bottom" "bottom"
             ++ copy "right" "right" ++ copy "transform" "transform"
             ++ copy "transformOrigin" "transform"
             ++ copy "borderRadius" "borderRadius"
             ++ copy "width" "width" ++ copy "height" "height"
             ++ [("position", Keyword "fixed"); ("z-index", Keyword "3");
                 ("background", Keyword "transparent")])
            [])).

Definition removeDraggingMask_ : M VideoEntry unit :=
  assign set_draggingMask_ None.

Definition finishDragging_ : M VideoEntry unit :=
  removeDraggingMask_.

(** [initializeDragging_]; the listeners it installs are the events
    [MouseDown], [MouseUp] and [MouseMove] below. *)
Definition initializeDragging_ (env : Env) : M VideoEntry unit :=
  installed ← gets dragListenerInstalled_;
  if installed then ret tt
  else
    o ← gets internalElement_;
    _ ← deref o;
    let minimizedRect := minimizedRect env in
    let corner := mkPoint (left minimizedRect) (top minimizedRect) in
    assignCoord set_initial corner;;
    assignCoord set_position corner;;
    assignCoord set_previous corner;;
    mask ← createDraggingMask_;
    assign set_draggingMask_ (Some mask);;
    assign set_dragListenerInstalled_ true.

(** A mouse event carries [x] and [y]; a touch event has no [x] and carries
    [touches]. *)
Record Touch := mkTouch { clientX : Q; clientY : Q }.

Inductive PointerEvent :=
| MouseEvent (ex ey : Q)
| TouchEvent (touches : list Touch).

(** [mouse_]; [if (e.x)] is false for a touch event and for a mouse event
    whose [x] is 0. *)
Definition mouse_ (e : PointerEvent) (updateDisplacement : bool)
  : M VideoEntry unit :=
  match e with
  | MouseEvent ex ey =>
      when (negb (Qeq_bool ex 0)) (assignCoord set_mouse (mkPoint ex ey))
  | TouchEvent touches =>
      t ← deref (head touches);
      assignCoord set_mouse (mkPoint (clientX t) (clientY t))
  end;;
  when updateDisplacement
    (c ← gets dragCoordinates_;
     assignCoord set_displacement
       (mkPoint (Qabs (x (position c) - x (mouse c)))
                (Qabs (y (position c) - y (mouse c))))).

(** [calcSnapCorner_]. *)
Definition calcSnapCorner_ (env : Env) (minimizedRect : Rect)
  : M VideoEntry unit :=
  let viewportCenterX := viewportWidth env / 2 in
  let viewportCenterY := viewportHeight env / 2 in
  c ← gets dragCoordinates_;
  let centerX := x (position c) + width minimizedRect / 2 in
  let centerY := y (position c) + height minimizedRect / 2 in
  if Qle_bool viewportCenterX centerX then
    if Qle_bool viewportCenterY centerY then
      assign set_minimizePosition_ BOTTOM_RIGHT
    else if Qlt_bool centerY viewportCenterY then
      assign set_minimizePosition_ TOP_RIGHT
    else ret tt
  else if Qlt_bool centerX viewportCenterX then
    if Qle_bool viewportCenterY centerY then
      assign set_minimizePosition_ BOTTOM_LEFT
    else if Qlt_bool centerY viewportCenterY then
      assign set_minimizePosition_ TOP_LEFT
    else ret tt
  else ret tt.

(** [animateSnap_]: the animation is started; it completes later, as the
    event [SnapDone]. *)
Definition animateSnap_ (target : SnapTarget) (newPosX newPosY : Q)
  : M VideoEntry unit :=
  o ← gets (elementOf target);
  _ ← dev_assertElement o;
  modify (λ e, set_snapAnimations
                 (snapAnimations e ++ [(target, mkPoint newPosX newPosY)]) e).

(** What [thenAlways] runs when the oldest running snap animation ends, after
    the animation has written its final transform. *)
Definition snapDone : M VideoEntry unit :=
  anims ← gets snapAnimations;
  match anims with
  | [] => ret tt
  | (target, newPos) :: rest =>
      assign set_snapAnimations rest;;
      modify (λ e, match elementOf target e with
                   | Some el =>
                       withElementOf target
                         (el_setStyles
                            [("transform",
                              Transform (Some (x newPos, y newPos))
                                        DOCK_SCALE)] el) e
                   | None => e
                   end);;
      assignCoord set_position newPos;;
      assign set_isSnapping_ false
  end.

(** [dragMove_]. *)
Definition dragMove_ (target : SnapTarget) : M VideoEntry unit :=
  c ← gets dragCoordinates_;
  setStylesOf target
    (transformStyles
       (Transform (Some (x (position c), y (position c))) DOCK_SCALE)).

(** ** The manager *)

(** The [dir] attributes of [document.body] and [document.documentElement]. *)
Record AmpDoc := mkAmpDoc {
  bodyDir : option string;
  documentElementDir : option string
}.

(** The fields of [VideoManager].  [positionObserver_] tells whether the
    service has been fetched; [dockedVideo_] refers to an entry by its index
    in [entries_]. *)
Record VideoManager := mkVideoManager {
  ampdoc_ : AmpDoc;
  entries_ : option (list VideoEntry);
  scrollListenerInstalled_ : bool;
  positionObserver_ : bool;
  dockedVideo_ : option nat
}.

Definition set_entries_ (v : option (list VideoEntry)) (m : VideoManager)
  : VideoManager :=
  mkVideoManager (ampdoc_ m) v (scrollListenerInstalled_ m)
    (positionObserver_ m) (dockedVideo_ m).
Definition set_scrollListenerInstalled_ (v : bool) (m : VideoManager)
  : VideoManager :=
  mkVideoManager (ampdoc_ m) (entries_ m) v (positionObserver_ m)
    (dockedVideo_ m).
Definition set_positionObserver_ (v : bool) (m : VideoManager)
  : VideoManager :=
  mkVideoManager (ampdoc_ m) (entries_ m) (scrollListenerInstalled_ m) v
    (dockedVideo_ m).
Definition set_dockedVideo_ (v : option nat) (m : VideoManager)
  : VideoManager :=
  mkVideoManager (ampdoc_ m) (entries_ m) (scrollListenerInstalled_ m)
    (positionObserver_ m) v.

(** [new VideoManager(ampdoc)]. *)
Definition newVideoManager (ampdoc : AmpDoc) : VideoManager :=
  mkVideoManager ampdoc None false false None.

(** The registered entries, for statements; the code reads [entries_]. *)
Definition entries (m : VideoManager) : list VideoEntry :=
  default [] (entries_ m).

(** Running a method on the entry [this.entries_[i]]. *)
Definition this {A} (i : nat) (c : M VideoEntry A) : M VideoManager A :=
  λ m, match entries_ m with
       | None => Thrown m TypeError
       | Some l =>
           match l !! i with
           | None => Thrown m TypeError
           | Some e =>
               match c e with
               | Done e' a => Done (set_entries_ (Some (<[i:=e']> l)) m) a
               | Thrown e' err =>
                   Thrown (set_entries_ (Some (<[i:=e']> l)) m) err
               end
           end
       end.

(** *** Construction of an entry *)

Definition truthy (s : option string) : option string :=
  match s with
  | Some s => if String.eqb s "" then None else Some s
  | None => None
  end.

(** [autoplayVideoBuilt_], up to the promise. *)
Definition autoplayVideoBuilt_ : M VideoEntry unit :=
  interactive ← gets (λ e, isInteractive (video e));
  when interactive (callVideo CallHideControls).

(** [videoBuilt_]: [updateVisibility] and [dockableVideoBuilt_] only schedule
    work with vsync here. *)
Definition videoBuilt_ (doc : AmpDoc) : M VideoEntry unit :=
  e ← get;
  when (hasAutoplay e) autoplayVideoBuilt_;;
  when (hasDocking e)
    (assign set_pageDir_
       (match truthy (bodyDir doc) with
        | Some d => d
        | None => default "ltr" (truthy (documentElementDir doc))
        end)).

(** [new VideoEntry(manager, video)]. *)
Definition newVideoEntry (doc : AmpDoc) (video : Video) : VideoEntry :=
  let zero := mkPoint 0 0 in
  final_state
    (videoBuilt_ doc
       (mkVideoEntry video false false false false false false None MP_INLINE
          INLINE 0 None false None "ltr" None false false false false false
          (mkDragCoordinates zero zero zero zero zero zero) false
          (dockAttribute video) (autoplayAttribute video) 0%nat [])).

(** The two phases [dockableVideoBuilt_] hands to vsync. *)
Definition dockableVideoBuilt_run (rect : Rect) : M VideoEntry unit :=
  assign set_initialRect_ (Some rect);;
  modify (λ e, set_video (addElementClass "i-amphtml-dockable-video" (video e)) e).

(** *** Registration and lookup *)

Definition registerCommonActions_ (video : Video) : Video :=
  registerAction "unmute" CallUnmute MEDIUM
    (registerAction "mute" CallMute MEDIUM
       (registerAction "pause" CallPause MEDIUM
          (registerAction "play" (CallPlay false) MEDIUM video))).

Definition maybeInstallVisibilityObserver_ (entry : VideoEntry)
  : M VideoManager unit :=
  if negb (hasAutoplay entry) && negb (supportsAnalytics (video entry))
  then ret tt
  else
    installed ← gets scrollListenerInstalled_;
    when (negb installed) (modify (set_scrollListenerInstalled_ true)).

Definition maybeInstallPositionObserver_ (entry : VideoEntry)
  : M VideoManager unit :=
  if negb (hasDocking entry) then ret tt
  else
    observer ← gets positionObserver_;
    when (negb observer) (modify (set_positionObserver_ true)).

(** [register].  The result is the video object as the call leaves it. *)
Definition register (v : Video) : M VideoManager Video :=
  let v := registerCommonActions_ v in
  if negb (supportsPlatform v) then ret v
  else
    modify (λ m, set_entries_ (Some (default [] (entries_ m))) m);;
    doc ← gets ampdoc_;
    let entry := newVideoEntry doc v in
    maybeInstallVisibilityObserver_ entry;;
    maybeInstallPositionObserver_ entry;;
    modify (λ m, set_entries_ ((λ l, l ++ [entry]) <$> entries_ m) m);;
    ret (video entry).

(** [getEntryForVideo_]: the first entry whose video is the given one. *)
Definition getEntryForVideo_ (v : Video) : M VideoManager (option VideoEntry) :=
  l ← gets entries_;
  l ← deref l;
  match List.find (λ e, bool_decide (vid (video e) = vid v)) l with
  | Some e => ret (Some e)
  | None =>
      dev_assert false "video is not registered to this video manager";;
      ret None
  end.

Definition getPlayingState (v : Video) : M VideoManager PlayingStates :=
  o ← getEntryForVideo_ v;
  e ← deref o;
  ret (entry_getPlayingState e).

Definition userInteractedWithAutoPlay (v : Video) : M VideoManager bool :=
  o ← getEntryForVideo_ v;
  e ← deref o;
  ret (entry_userInteractedWithAutoPlay e).

(** *** The docked slot *)

Definition canDock (entry : nat) (m : VideoManager) : bool :=
  match dockedVideo_ m with
  | None => true
  | Some d => bool_decide (d = entry)
  end.

Definition registerDocked (entry : nat) : M VideoManager unit :=
  modify (set_dockedVideo_ (Some entry)).

Definition unregisterDocked : M VideoManager unit :=
  modify (set_dockedVideo_ None);;
  l ← gets entries_;
  l ← deref l;
  modify (set_entries_ (Some (set_hasBeenInViewBefore false <$> l))).

(** ** Docking *)

(** A write to [this.internalElement_]'s class list or attributes. *)
Definition updateInternalElement (f : Element → Element) : M VideoEntry unit :=
  o ← gets internalElement_;
  el ← deref o;
  assign set_internalElement_ (Some (f el)).

(** [initializeDocking_]. *)
Definition initializeDocking_ (i : nat) : M VideoManager unit :=
  this i
    (updateInternalElement (classList_add DOCK_CLASS);;
     callVideo CallHideControls;;
     o ← gets internalElement_;
     _ ← dev_assertElement o;
     ir ← gets initialRect_;
     ir ← deref ir;
     setStylesOf OnInternalElement
       [("height", Px (height ir)); ("width", Px (width ir));
        ("maxWidth", Px (width ir))];;
     assign set_dockingState_ DOCKING);;
  registerDocked i.

(** [finishDocking_]. *)
Definition finishDocking_ (i : nat) : M VideoManager unit :=
  this i
    (updateInternalElement (classList_remove DOCK_CLASS);;
     updateInternalElement clearStyleAttribute;;
     assign set_dockingState_ INLINE;;
     callVideo CallShowControls);;
  unregisterDocked;;
  this i (assign set_dragListenerInstalled_ false).

(** *** The drag loop *)

(** The guard of [drag_].  [MinimizePositions] has no [DEFAULT] and no
    [INVIEW]: the two comparisons with them are against [undefined] and are
    false. *)
Definition drag_stopped (e : VideoEntry) : bool :=
  negb (loaded_ e)
  || isNull (internalElement_ e)
  || false
  || false
  || negb (Qeq_bool (visibleHeight_ e) 0)
  || negb (hasDockClass e)
  || negb (bool_decide (dockingState_ e = DOCKED)).

(** The branch of [drag_] taken while dragging. *)
Definition drag_dragging (env : Env) (minimizedRect : Rect)
  : M VideoEntry unit :=
  c ← gets dragCoordinates_;
  assignCoord set_previous (mkPoint (x (position c)) (y (position c)));;
  c ← gets dragCoordinates_;
  assignCoord set_position
    (mkPoint (x (mouse c) - x (displacement c))
             (y (mouse c) - y (displacement c)));;
  c ← gets dragCoordinates_;
  assignCoord set_velocity
    (mkPoint (x (position c) - x (previous c))
             (y (position c) - y (previous c)));;
  c ← gets dragCoordinates_;
  let vidCenterX := x (position c) + width minimizedRect / 2 in
  let vidCenterY := y (position c) + height minimizedRect / 2 in
  when (Qlt_bool (viewportWidth env) vidCenterX
        || Qlt_bool vidCenterX 0
        || Qlt_bool (viewportHeight env) vidCenterY
        || Qlt_bool vidCenterY 0)
       (assign set_isDismissed_ true).

(** The first statements of the other branch: motion under friction. *)
Definition drag_freeMotion : M VideoEntry unit :=
  c ← gets dragCoordinates_;
  assignCoord set_position
    (mkPoint (x (position c) + x (velocity c))
             (y (position c) + y (velocity c)));;
  c ← gets dragCoordinates_;
  assignCoord set_velocity
    (mkPoint (x (velocity c) * FRICTION_COEFF)
             (y (velocity c) * FRICTION_COEFF)).

(** The block "Snap to corners" of [drag_]. *)
Definition drag_snap (env : Env) (minimizedRect : Rect) : M VideoEntry unit :=
  e ← get;
  let v := velocity (dragCoordinates_ e) in
  when (negb (isDragging_ e) && negb (isSnapping_ e)
        && Qle_bool (Qabs (x v)) STOP_THRESHOLD
        && Qle_bool (Qabs (y v)) STOP_THRESHOLD)
    (let snapTop := DOCK_MARGIN in
     let snapLeft := DOCK_MARGIN in
     let snapRight := viewportWidth env - width minimizedRect - DOCK_MARGIN in
     let snapBottom :=
       viewportHeight env - height minimizedRect - DOCK_MARGIN in
     calcSnapCorner_ env minimizedRect;;
     e ← get;
     let pos := position (dragCoordinates_ e) in
     let newPos :=
       match minimizePosition_ e with
       | BOTTOM_RIGHT => mkPoint snapRight snapBottom
       | TOP_RIGHT => mkPoint snapRight snapTop
       | BOTTOM_LEFT => mkPoint snapLeft snapBottom
       | TOP_LEFT => mkPoint snapLeft snapTop
       | MP_INLINE => mkPoint (x pos) (y pos)
       end in
     when (negb (Qeq_bool (x pos) (x newPos))
           || negb (Qeq_bool (y pos) (y newPos)))
       (assign set_isSnapping_ true;;
        animateSnap_ OnMask (x newPos) (y newPos);;
        animateSnap_ OnInternalElement (x newPos) (y newPos))).

(** The end of [drag_]: the elements follow the position, and the next run
    is queued with [vsync_.mutate]. *)
Definition drag_move : M VideoEntry unit :=
  snapping ← gets isSnapping_;
  when (negb snapping) (dragMove_ OnMask;; dragMove_ OnInternalElement);;
  modify (λ e, set_scheduledDrag (S (scheduledDrag e)) e).

(** [drag_]. *)
Definition drag_ (env : Env) (i : nat) : M VideoManager unit :=
  e ← this i get;
  if drag_stopped e then ret tt
  else
    let minimizedRect := minimizedRect env in
    if isDragging_ e then
      this i (drag_dragging env minimizedRect;;
              drag_snap env minimizedRect;;
              drag_move)
    else
      this i drag_freeMotion;;
      if isDismissed_ e then
        this i (callVideo CallPause);;
        finishDocking_ i;;
        this i (assign set_isDismissed_ false)
      else
        this i (drag_snap env minimizedRect;;
                drag_move).

(** [animateDocking_]. *)
Definition animateDocking_ (env : Env) (i : nat) : M VideoManager unit :=
  this i
    (offsetXLeft ← calcDockOffsetXLeft;
     offsetXRight ← calcDockOffsetXRight env;
     offsetYTop ← calcDockOffsetYTop env;
     offsetYBottom ← calcDockOffsetYBottom env;
     mp ← gets minimizePosition_;
     let translate :=
       match mp with
       | TOP_LEFT => Some (offsetXLeft, offsetYTop)
       | TOP_RIGHT => Some (offsetXRight, offsetYTop)
       | BOTTOM_LEFT => Some (offsetXLeft, offsetYBottom)
       | BOTTOM_RIGHT => Some (offsetXRight, offsetYBottom)
       | MP_INLINE => None
       end in
     scale ← scrollMap_ DOCK_SCALE 1 false;
     setStylesOf OnInternalElement
       (transformStyles (Transform translate scale)));;
  scale ← this i (scrollMap_ DOCK_SCALE 1 false);
  if Qeq_bool scale DOCK_SCALE then
    this i (assign set_dockingState_ DOCKED;;
            initializeDragging_ env);;
    drag_ env i
  else
    this i (finishDragging_;;
            assign set_dockingState_ DOCKING).

(** [onDockableVideoPositionChanged]. *)
Definition onDockableVideoPositionChanged (env : Env) (i : nat)
    (newPos : PositionInViewportEntryDef) : M VideoManager unit :=
  this i (updateDockableVideoPosition_ env newPos);;
  e ← this i get;
  if negb (loaded_ e)
     || isNull (initialRect_ e)
     || isNull (internalElement_ e)
     || (negb (bool_decide (entry_getPlayingState e = PLAYING_MANUAL))
         && negb (hasDockClass e))
  then ret tt
  else
    let outOfView :=
      negb (bool_decide (minimizePosition_ e = MP_INLINE))
      && hasBeenInViewBefore e in
    let manPlaying := bool_decide (entry_getPlayingState e = PLAYING_MANUAL) in
    let paused := bool_decide (entry_getPlayingState e = PAUSED) in
    let docked := hasDockClass e in
    if outOfView && (manPlaying || (paused && docked)) then
      m ← get;
      when (bool_decide (dockingState_ e = INLINE) && canDock i m)
           (initializeDocking_ i);;
      e ← this i get;
      when (negb (bool_decide (dockingState_ e = INLINE)))
           (animateDocking_ env i)
    else if hasDockClass e then finishDocking_ i
    else ret tt.

(** The resize listener of [dockableVideoBuilt_]: its measure phase, with
    the rectangle it reads, then its mutate phase. *)
Definition onResize (env : Env) (i : nat) (rect : Rect) : M VideoManager unit :=
  this i (assign set_initialRect_ (Some rect));;
  this i (assign set_dockingState_ INLINE);;
  e ← this i get;
  match lastPosition_ e with
  | Some lastPosition => onDockableVideoPositionChanged env i lastPosition
  | None => ret tt
  end.

(** The listeners of [initializeDragging_]: [mousedown] and [touchstart] on
    the mask, [mouseup] and [touchend], [mousemove] and [touchmove] on the
    document. *)
Definition onTouchStart (ev : PointerEvent) : M VideoEntry unit :=
  assign set_isTouched_ true;;
  assign set_isDragging_ false;;
  mouse_ ev true.

Definition onTouchEnd : M VideoEntry unit :=
  assign set_isTouched_ false;;
  assign set_isDragging_ false.

Definition onTouchMove (ev : PointerEvent) : M VideoEntry unit :=
  touched ← gets isTouched_;
  assign set_isDragging_ touched;;
  mouse_ ev false.

(** ** The host: events and runs *)

Inductive Event :=
| Register (v : Video)
| DockableBuilt (i : nat) (rect : Rect)
| AutoplayProbed (i : nat) (supportsAutoplay : bool)
| Interaction (i : nat)
| Loaded (i : nat) (viewerVisible supportsAutoplay : bool)
| Playing (i : nat)
| Paused (i : nat)
| Ended (i : nat)
| Muted (i : nat)
| Unmuted (i : nat)
| Visibility (i : nat) (ratio : JsNumber) (viewerVisible supportsAutoplay : bool)
| PositionChanged (i : nat) (env : Env) (newPos : PositionInViewportEntryDef)
| Resize (i : nat) (env : Env) (rect : Rect)
| TouchStart (i : nat) (ev : PointerEvent)
| TouchEnd (i : nat)
| TouchMove (i : nat) (ev : PointerEvent)
| DragTick (i : nat) (env : Env)
| SnapDone (i : nat).

(** The callback an event stands for.  An event addressed to an entry that
    does not exist, a callback of the position observer or of the resize
    listener for a video without docking, a click on the autoplay mask of a
    video that has none, and a drag tick that was not queued, do not occur:
    they leave the state as it is.  The pointer listeners are taken to be
    there from the start, which only adds runs. *)
Definition handler (ev : Event) : M VideoManager unit :=
  let dockable (i : nat) (c : M VideoManager unit) : M VideoManager unit :=
    e ← this i get;
    when (hasDocking e) c in
  match ev with
  | Register v => _ ← register v; ret tt
  | DockableBuilt i rect => dockable i (this i (dockableVideoBuilt_run rect))
  | AutoplayProbed i supportsAutoplay =>
      e ← this i get;
      when (hasAutoplay e) (this i (autoplayVideoBuilt_then supportsAutoplay))
  | Interaction i =>
      e ← this i get;
      when (hasAutoplay e && isInteractive (video e)) (this i onInteraction)
  | Loaded i viewerVisible supportsAutoplay =>
      this i (videoLoaded viewerVisible supportsAutoplay)
  | Playing i => this i videoPlayed_
  | Paused i => this i videoPaused_
  | Ended i => this i videoEnded_
  | Muted i => this i (assign set_muted_ true)
  | Unmuted i => this i (assign set_muted_ false)
  | Visibility i ratio viewerVisible supportsAutoplay =>
      this i (updateVisibility ratio viewerVisible supportsAutoplay)
  | PositionChanged i env newPos =>
      dockable i (onDockableVideoPositionChanged env i newPos)
  | Resize i env rect => dockable i (onResize env i rect)
  | TouchStart i ev => this i (onTouchStart ev)
  | TouchEnd i => this i onTouchEnd
  | TouchMove i ev => this i (onTouchMove ev)
  | DragTick i env =>
      e ← this i get;
      match scheduledDrag e with
      | O => ret tt
      | S n => this i (assign set_scheduledDrag n);; drag_ env i
      end
  | SnapDone i => this i snapDone
  end.

Definition eventTarget (ev : Event) : option nat :=
  match ev with
  | Register _ => None
  | DockableBuilt i _ | AutoplayProbed i _ | Interaction i | Loaded i _ _
  | Playing i | Paused i | Ended i | Muted i | Unmuted i
  | Visibility i _ _ _ | PositionChanged i _ _ | Resize i _ _
  | TouchStart i _ | TouchEnd i | TouchMove i _ | DragTick i _
  | SnapDone i => Some i
  end.

Definition occurs (ev : Event) (m : VideoManager) : bool :=
  match eventTarget ev with
  | None => true
  | Some i => bool_decide (is_Some (entries m !! i))
  end.

(** One event: an exception thrown by the callback ends the callback, and the
    state stays as the callback left it. *)
Definition step (m : VideoManager) (ev : Event) : VideoManager :=
  if occurs ev m then final_state (handler ev m) else m.

Definition run (evs : list Event) (m : VideoManager) : VideoManager :=
  foldl step m evs.

(** * Further parts of the code

    The parts below share the data of the manager above, but not its event
    machine. *)

(** ** Control flow *)

(** [try { c } catch (err) { h err }]. *)
Definition try_catch {S A} (c : M S A) (h : Error → M S A) : M S A :=
  λ s, match c s with
       | Done s' a => Done s' a
       | Thrown s' err => h err s'
       end.

(** [for (let i = 0; i < n; i++) { body i }], over the indices given. *)
Fixpoint for_each {S} (indices : list nat) (body : nat → M S unit)
  : M S unit :=
  match indices with
  | [] => ret tt
  | i :: rest => body i;; for_each rest body
  end.

(** ** Detection of autoplay support

    [supportsAutoplay] and its cache, at the end of
    [src/service/video-manager-impl.js]. *)

Module Autoplay.
(** What [supportsAutoplay] observes of the window: whether the muted,
    inline detection element it creates is still paused right after
    [play()] was called on it.  An exception of [play()] and a rejection of
    the promise it returns are suppressed by the code. *)
Record Window := mkWindow { pausedAfterPlay : bool }.

(** The module variable [supportsAutoplayCache_]: null, or the promise,
    which is resolved with a boolean. *)
Definition Cache := option bool.

(** [supportsAutoplay(win, isLiteViewer)]; the result is the value the
    returned promise resolves to. *)
Definition supportsAutoplay (win : Window) (isLiteViewer : bool)
  : M Cache bool :=
  cache ← get;
  match cache with
  | Some cached => ret cached
  | None =>
      if isLiteViewer then
        modify (λ _, Some false);; ret false
      else
        let supportsAutoplay := negb (pausedAfterPlay win) in
        modify (λ _, Some supportsAutoplay);; ret supportsAutoplay
  end.

(** [clearSupportsAutoplayCacheForTesting]. *)
Definition clearSupportsAutoplayCacheForTesting : M Cache unit :=
  modify (λ _, None).
End Autoplay.

(** ** Analytics details

    The snapshot [getAnalyticsDetails_] takes of a video. *)

Module Analytics.




End Analytics.

(** ** Event listeners

    [src/event-helper-listen.js]: the detection of listener options and
    [internalListenImplementation] with the unlistener it returns. *)

Module EventHelper.
(** [optTest]. *)
Inductive OptTest := NOT_RUN | NOT_SUPPORTED | SUPPORTED.

#[global] Instance OptTest_eq_dec : EqDecision OptTest.
Proof. solve_decision. Defined.

(** What [addEventListener] of the browser does with an object as its third
    argument: it reads the properties of the object, it takes the argument
    for the boolean [useCapture] without reading them, or it throws. *)
Inductive Browser := ReadsOptions | TakesBoolean | ThrowsOnOptions.

(** [opt_evtListenerOpts]. *)
Record Options := mkOptions { capture : bool; passive : bool }.

(** The third argument of [addEventListener] and [removeEventListener]:
    the options object as it was given (possibly undefined), or the boolean
    [capture]. *)
Inductive ThirdArg :=
| WithOptions (opts : option Options)
| WithCapture (capture : bool).

(** The calls made on event targets.  An event target and a listener
    function are named by a number; [wrapped] is the number of the closure
    [internalListenImplementation] created. *)
Inductive DomCall :=
| AddEventListener (target : nat) (eventType : string)
    (wrapped : option nat) (arg : ThirdArg)
| RemoveEventListener (target : nat) (eventType : string)
    (wrapped : option nat) (arg : ThirdArg).

(** The variables one call of [internalListenImplementation] closes over. *)
Record Closure := mkClosure {
  localElement : option nat;
  localListener : option nat;
  wrappedFn : option nat;
  eventType : string;
  thirdArg : ThirdArg
}.

(** The window ([self.optsSupported], the errors given to
    [self.reportError]), the calls made on event targets, and the closures
    created so far. *)
Record World := mkWorld {
  optsSupported : option OptTest;
  reported : list Error;
  domCalls : list DomCall;
  closures : list Closure
}.

Definition set_optsSupported (v : option OptTest) (w : World) : World :=
  mkWorld v (reported w) (domCalls w) (closures w).
Definition report (err : Error) (w : World) : World :=
  mkWorld (optsSupported w) (reported w ++ [err]) (domCalls w) (closures w).
Definition domCall (c : DomCall) (w : World) : World :=
  mkWorld (optsSupported w) (reported w) (domCalls w ++ [c]) (closures w).
Definition set_closures (v : list Closure) (w : World) : World :=
  mkWorld (optsSupported w) (reported w) (domCalls w) v.

(** [self.addEventListener('test-opts', null, options)], where reading
    [options.capture] assigns [SUPPORTED] to the local variable
    [optsSupported]; the result is the value of the variable after the
    call. *)
Definition testAddEventListener (browser : Browser) (local : option OptTest)
  : M World (option OptTest) :=
  match browser with
  | ReadsOptions => ret (Some SUPPORTED)
  | TakesBoolean => ret local
  | ThrowsOnOptions => throw TypeError
  end.

(** [detectEvtListenerOptsSupport]. *)
Definition detectEvtListenerOptsSupport (browser : Browser) : M World bool :=
  s ← gets optsSupported;
  when (isNull s) (modify (set_optsSupported (Some NOT_RUN)));;
  s ← gets optsSupported;
  if negb (bool_decide (s = Some NOT_RUN))
  then ret (bool_decide (s = Some SUPPORTED))
  else
    modify (set_optsSupported (Some NOT_SUPPORTED));;
    r ← try_catch
          (local ← gets optsSupported;
           local ← testAddEventListener browser local;
           modify (set_optsSupported local);;
           s ← gets optsSupported;
           ret (Some (bool_decide (s = Some SUPPORTED))))
          (λ _, ret None);
    match r with
    | Some result => ret result
    | None => ret false
    end.

(** [resetEvtListenerOptsSupport]. *)
Definition resetEvtListenerOptsSupport : M World unit :=
  modify (set_optsSupported (Some NOT_RUN)).

(** [internalListenImplementation]; the result names the unlistener it
    returns, by the closure the unlistener belongs to. *)
Definition internalListenImplementation (browser : Browser) (element : nat)
    (type : string) (listener : nat) (opt_evtListenerOpts : option Options)
  : M World nat :=
  wrapped ← gets (λ w, length (closures w));
  supported ← detectEvtListenerOptsSupport browser;
  let capture :=
    match opt_evtListenerOpts with
    | Some opts => if capture opts then capture opts else false
    | None => false
    end in
  let arg :=
    if supported then WithOptions opt_evtListenerOpts
    else WithCapture capture in
  modify (domCall (AddEventListener element type (Some wrapped) arg));;
  modify (λ w, set_closures
                 (closures w
                  ++ [mkClosure (Some element) (Some listener) (Some wrapped)
                        type arg]) w);;
  ret wrapped.

(** The unlistener of the closure [id].  A number that names no closure
    names no function: calling it throws. *)
Definition unlisten (id : nat) : M World unit :=
  cs ← gets closures;
  c ← deref (cs !! id);
  match localElement c with
  | Some element =>
      modify (domCall (RemoveEventListener element (eventType c)
                         (wrappedFn c) (thirdArg c)))
  | None => ret tt
  end;;
  modify (λ w, set_closures
                 (<[id := mkClosure None None None (eventType c)
                            (thirdArg c)]> (closures w)) w).

(** The function [wrapped] of the closure [id], called with an event on
    which the listener either returns or throws [outcome]. *)
Definition wrapped (id : nat) (outcome : option Error) : M World unit :=
  cs ← gets closures;
  c ← deref (cs !! id);
  try_catch
    (_ ← deref (localListener c);
     match outcome with
     | None => ret tt
     | Some err => throw err
     end)
    (λ err, modify (report err);; throw err).
End EventHelper.

(** ** The earlier variant of the manager *)

(** The first [VideoManager]/[VideoEntry] pair of
    [src/service/video-manager-impl.js]: the manager keeps the docked entry
    in [curDocked_] and undocks every other dockable entry when an entry is
    registered as docked; the drag loop is [handleDockingDrag_]. *)
Module V1.
Inductive MinimizePositions := DEFAULT | INVIEW | TOP | BOTTOM.

#[global] Instance MinimizePositions_eq_dec : EqDecision MinimizePositions.
Proof. solve_decision. Defined.

Definition FRICTION_COEFF : Q := 65 # 100.
Definition STOP_THRESHOLD : Q := 10.

(** The fields of [VideoEntry] the methods below use; [scheduledDrag] counts
    the runs of [handleDockingDrag_] queued with [vsync_.mutate]. *)
Record VideoEntry := mkVideoEntry {
  video : Video;
  loaded_ : bool;
  isPlaying_ : bool;
  isVisible_ : bool;
  userInteractedWithAutoPlay_ : bool;
  playCalledByAutoplay_ : bool;
  initialRect_ : option Rect;
  minimizePosition_ : MinimizePositions;
  visibleHeight_ : Q;
  internalElement_ : option Element;
  pageDir_ : string;
  hasBeenInViewBefore : bool;
  dragListenerInstalled_ : bool;
  isTouched_ : bool;
  isDragging_ : bool;
  dismissed : bool;
  dragCoordinates_ : DragCoordinates;
  hasDocking : bool;
  hasAutoplay : bool;
  scheduledDrag : nat
}.

Definition set_video (v : Video) (e : VideoEntry) : VideoEntry :=
  mkVideoEntry v (loaded_ e) (isPlaying_ e) (isVisible_ e)
    (userInteractedWithAutoPlay_ e) (playCalledByAutoplay_ e)
    (initialRect_ e) (minimizePosition_ e) (visibleHeight_ e)
    (internalElement_ e) (pageDir_ e) (hasBeenInViewBefore e)
    (dragListenerInstalled_ e) (isTouched_ e) (isDragging_ e) (dismissed e)
    (dragCoordinates_ e) (hasDocking e) (hasAutoplay e) (scheduledDrag e).
Definition set_minimizePosition_ (v : MinimizePositions) (e : VideoEntry)
  : VideoEntry :=
  mkVideoEntry (video e) (loaded_ e) (isPlaying_ e) (isVisible_ e)
    (userInteractedWithAutoPlay_ e) (playCalledByAutoplay_ e)
    (initialRect_ e) v (visibleHeight_ e)
    (internalElement_ e) (pageDir_ e) (hasBeenInViewBefore e)
    (dragListenerInstalled_ e) (isTouched_ e) (isDragging_ e) (dismissed e)
    (dragCoordinates_ e) (hasDocking e) (hasAutoplay e) (scheduledDrag e).
Definition set_visibleHeight_ (v : Q) (e : VideoEntry) : VideoEntry :=
  mkVideoEntry (video e) (loaded_ e) (isPlaying_ e) (isVisible_ e)
    (userInteractedWithAutoPlay_ e) (playCalledByAutoplay_ e)
    (initialRect_ e) (minimizePosition_ e) v
    (internalElement_ e) (pageDir_ e) (hasBeenInViewBefore e)
    (dragListenerInstalled_ e) (isTouched_ e) (isDragging_ e) (dismissed e)
    (dragCoordinates_ e) (hasDocking e) (hasAutoplay e) (scheduledDrag e).
Definition set_internalElement_ (v : option Element) (e : VideoEntry)
  : VideoEntry :=
  mkVideoEntry (video e) (loaded_ e) (isPlaying_ e) (isVisible_ e)
    (userInteractedWithAutoPlay_ e) (playCalledByAutoplay_ e)
    (initialRect_ e) (minimizePosition_ e) (visibleHeight_ e)
    v (pageDir_ e) (hasBeenInViewBefore e)
    (dragListenerInstalled_ e) (isTouched_ e) (isDragging_ e) (dismissed e)
    (dragCoordinates_ e) (hasDocking e) (hasAutoplay e) (scheduledDrag e).
Definition set_hasBeenInViewBefore (v : bool) (e : VideoEntry) : VideoEntry :=
  mkVideoEntry (video e) (loaded_ e) (isPlaying_ e) (isVisible_ e)
    (userInteractedWithAutoPlay_ e) (playCalledByAutoplay_ e)
    (initialRect_ e) (minimizePosition_ e) (visibleHeight_ e)
    (internalElement_ e) (pageDir_ e) v
    (dragListenerInstalled_ e) (isTouched_ e) (isDragging_ e) (dismissed e)
    (dragCoordinates_ e) (hasDocking e) (hasAutoplay e) (scheduledDrag e).
Definition set_dragListenerInstalled_ (v : bool) (e : VideoEntry)
  : VideoEntry :=
  mkVideoEntry (video e) (loaded_ e) (isPlaying_ e) (isVisible_ e)
    (userInteractedWithAutoPlay_ e) (playCalledByAutoplay_ e)
    (initialRect_ e) (minimizePosition_ e) (visibleHeight_ e)
    (internalElement_ e) (pageDir_ e) (hasBeenInViewBefore e)
    v (isTouched_ e) (isDragging_ e) (dismissed e)
    (dragCoordinates_ e) (hasDocking e) (hasAutoplay e) (scheduledDrag e).
Definition set_dismissed (v : bool) (e : VideoEntry) : VideoEntry :=
  mkVideoEntry (video e) (loaded_ e) (isPlaying_ e) (isVisible_ e)
    (userInteractedWithAutoPlay_ e) (playCalledByAutoplay_ e)
    (initialRect_ e) (minimizePosition_ e) (visibleHeight_ e)
    (internalElement_ e) (pageDir_ e) (hasBeenInViewBefore e)
    (dragListenerInstalled_ e) (isTouched_ e) (isDragging_ e) v
    (dragCoordinates_ e) (hasDocking e) (hasAutoplay e) (scheduledDrag e).
Definition set_dragCoordinates_ (v : DragCoordinates) (e : VideoEntry)
  : VideoEntry :=
  mkVideoEntry (video e) (loaded_ e) (isPlaying_ e) (isVisible_ e)
    (userInteractedWithAutoPlay_ e) (playCalledByAutoplay_ e)
    (initialRect_ e) (minimizePosition_ e) (visibleHeight_ e)
    (internalElement_ e) (pageDir_ e) (hasBeenInViewBefore e)
    (dragListenerInstalled_ e) (isTouched_ e) (isDragging_ e) (dismissed e)
    v (hasDocking e) (hasAutoplay e) (scheduledDrag e).
Definition set_scheduledDrag (v : nat) (e : VideoEntry) : VideoEntry :=
  mkVideoEntry (video e) (loaded_ e) (isPlaying_ e) (isVisible_ e)
    (userInteractedWithAutoPlay_ e) (playCalledByAutoplay_ e)
    (initialRect_ e) (minimizePosition_ e) (visibleHeight_ e)
    (internalElement_ e) (pageDir_ e) (hasBeenInViewBefore e)
    (dragListenerInstalled_ e) (isTouched_ e) (isDragging_ e) (dismissed e)
    (dragCoordinates_ e) (hasDocking e) (hasAutoplay e) v.

Definition assign {A} (set : A → VideoEntry → VideoEntry) (v : A)
  : M VideoEntry unit :=
  modify (set v).

Definition assignCoord (set : Point → DragCoordinates → DragCoordinates)
    (v : Point) : M VideoEntry unit :=
  modify (λ e, set_dragCoordinates_ (set v (dragCoordinates_ e)) e).

(** A write to [this.internalElement_]; it throws when the entry has no
    player node yet. *)
Definition updateInternalElement (f : Element → Element)
  : M VideoEntry unit :=
  o ← gets internalElement_;
  el ← deref o;
  assign set_internalElement_ (Some (f el)).

(** [this.internalElement_.classList.contains(DOCK_CLASS)], where the source
    has checked [this.internalElement_] first. *)
Definition hasDockClass (e : VideoEntry) : bool :=
  match internalElement_ e with
  | Some el => classList_contains DOCK_CLASS el
  | None => false
  end.

(** [getPlayingState] and [userInteractedWithAutoPlay] of the entry. *)
Definition getPlayingState (e : VideoEntry) : PlayingStates :=
  if negb (isPlaying_ e) then PAUSED
  else if isPlaying_ e && playCalledByAutoplay_ e
          && negb (userInteractedWithAutoPlay_ e)
       then PLAYING_AUTO
       else PLAYING_MANUAL.

(** [unDockVideo_]. *)
Definition unDockVideo_ : M VideoEntry unit :=
  assign set_minimizePosition_ DEFAULT;;
  updateInternalElement (classList_remove DOCK_CLASS);;
  updateInternalElement clearStyleAttribute;;
  modify (λ e, set_video (call CallShowControls (video e)) e);;
  assign set_dragListenerInstalled_ false.

(** [updateDockableVideoPosition_]. *)
Definition updateDockableVideoPosition_ (newPos : PositionInViewportEntryDef)
  : M VideoEntry unit :=
  match positionRect newPos with
  | Some rect =>
      let docViewTop := top (viewportRect newPos) in
      let docViewBottom := bottom (viewportRect newPos) in
      let elemTop := top rect in
      let elemBottom := bottom rect in
      if Qle_bool elemTop docViewTop then
        assign set_visibleHeight_ (elemBottom - docViewTop);;
        assign set_minimizePosition_ TOP
      else if Qle_bool docViewBottom elemBottom then
        assign set_visibleHeight_ (docViewBottom - elemTop);;
        assign set_minimizePosition_ BOTTOM
      else
        assign set_visibleHeight_ (elemBottom - elemTop);;
        assign set_minimizePosition_ INVIEW
  | None =>
      mp ← gets minimizePosition_;
      if bool_decide (mp = INVIEW) || bool_decide (mp = DEFAULT) then
        assign set_minimizePosition_ TOP;;
        assign set_visibleHeight_ 0
      else assign set_visibleHeight_ 0
  end.

(** [this.internalElement_.style.transition = value]. *)
Definition setTransition (value : string) : M VideoEntry unit :=
  updateInternalElement (el_setStyles [("transition", Keyword value)]).

(** The fields of [VideoManager] the docking methods use; [curDocked_]
    refers to an entry by its index in [entries_]. *)
Record VideoManager := mkVideoManager {
  entries_ : option (list VideoEntry);
  curDocked_ : option nat
}.

Definition set_entries_ (v : option (list VideoEntry)) (m : VideoManager)
  : VideoManager :=
  mkVideoManager v (curDocked_ m).
Definition set_curDocked_ (v : option nat) (m : VideoManager)
  : VideoManager :=
  mkVideoManager (entries_ m) v.

Definition entries (m : VideoManager) : list VideoEntry :=
  default [] (entries_ m).

(** Running a method on the entry [this.entries_[i]]. *)
Definition this {A} (i : nat) (c : M VideoEntry A) : M VideoManager A :=
  λ m, match entries_ m with
       | None => Thrown m TypeError
       | Some l =>
           match l !! i with
           | None => Thrown m TypeError
           | Some e =>
               match c e with
               | Done e' a => Done (set_entries_ (Some (<[i:=e']> l)) m) a
               | Thrown e' err =>
                   Thrown (set_entries_ (Some (<[i:=e']> l)) m) err
               end
           end
       end.

(** [undockAllExceptCurrent]. *)
Definition undockAllExceptCurrent : M VideoManager unit :=
  l ← gets entries_;
  l ← deref l;
  for_each (seq 0 (length l))
    (λ i,
       e ← this i get;
       cur ← gets curDocked_;
       when (negb (bool_decide (Some i = cur)) && hasDocking e)
         (this i unDockVideo_;;
          this i (assign set_hasBeenInViewBefore false))).

(** [registerDocked], [unregisterDocked], [noDockedVid], [curDockedVid]. *)
Definition registerDocked (entry : nat) : M VideoManager unit :=
  modify (set_curDocked_ (Some entry));;
  undockAllExceptCurrent.

Definition unregisterDocked : M VideoManager unit :=
  modify (set_curDocked_ None);;
  undockAllExceptCurrent.

Definition noDockedVid (m : VideoManager) : bool := isNull (curDocked_ m).

Definition curDockedVid (m : VideoManager) : option nat := curDocked_ m.

(** What [onDockableVideoPositionChanged] hands to [vsync_.mutate]. *)
Inductive Task :=
| RegisterAndInitialize (i : nat)
| EndDocking (i : nat)
| AnimateDocking (i : nat)
| UnregisterAndUndock (i : nat).

(** [onDockableVideoPositionChanged]; the result lists the tasks it has
    queued, in order. *)
Definition onDockableVideoPositionChanged (i : nat)
    (newPos : PositionInViewportEntryDef) : M VideoManager (list Task) :=
  this i (updateDockableVideoPosition_ newPos);;
  e ← this i get;
  m ← get;
  if negb (loaded_ e)
     || isNull (initialRect_ e)
     || isNull (internalElement_ e)
     || ((negb (bool_decide (getPlayingState e = PLAYING_MANUAL))
          && negb (hasDockClass e))
         || (negb (noDockedVid m)
             && negb (bool_decide (curDockedVid m = Some i))))
  then ret []
  else
    let initialize :=
      if negb (bool_decide (minimizePosition_ e = INVIEW))
         && hasBeenInViewBefore e
      then [RegisterAndInitialize i] else [] in
    if isNull (positionRect newPos)
       && userInteractedWithAutoPlay_ e
       && negb (bool_decide (minimizePosition_ e = DEFAULT))
    then ret (initialize ++ [EndDocking i])
    else
      let inView := bool_decide (minimizePosition_ e = INVIEW) in
      let outOfView :=
        negb inView
        && negb (bool_decide (minimizePosition_ e = DEFAULT))
        && hasBeenInViewBefore e in
      let manPlaying := bool_decide (getPlayingState e = PLAYING_MANUAL) in
      let paused := bool_decide (getPlayingState e = PAUSED) in
      let docked := hasDockClass e in
      if outOfView && (manPlaying || (paused && docked))
      then ret (initialize ++ [AnimateDocking i])
      else if inView && hasDockClass e
      then ret (initialize ++ [UnregisterAndUndock i])
      else ret initialize.

(** The guard of [handleDockingDrag_]. *)
Definition drag_stopped (e : VideoEntry) : bool :=
  negb (loaded_ e)
  || isNull (internalElement_ e)
  || bool_decide (minimizePosition_ e = DEFAULT)
  || bool_decide (minimizePosition_ e = INVIEW)
  || negb (Qeq_bool (visibleHeight_ e) 0)
  || negb (hasDockClass e).

(** The block "Snap to corners" of [handleDockingDrag_]: the horizontal
    and the vertical part, and the block. *)
Definition snap_x (env : Env) (minimizedRect : Rect) : M VideoEntry unit :=
  c ← gets dragCoordinates_;
  if Qlt_bool (viewportWidth env / 2)
              (x (position c) + width minimizedRect / 2)
  then
    setTransition "all .2s";;
    assignCoord set_position
      (mkPoint (viewportWidth env - width minimizedRect - DOCK_MARGIN)
               (y (position c)))
  else if Qlt_bool (x (position c)) (viewportWidth env / 2)
  then
    setTransition "all .2s";;
    assignCoord set_position (mkPoint DOCK_MARGIN (y (position c)))
  else ret tt.

Definition snap_y (env : Env) (minimizedRect : Rect) : M VideoEntry unit :=
  c ← gets dragCoordinates_;
  if Qlt_bool (viewportHeight env / 2)
              (y (position c) + height minimizedRect / 2)
  then
    setTransition "all .2s";;
    assignCoord set_position
      (mkPoint (x (position c))
               (viewportHeight env - height minimizedRect - DOCK_MARGIN))
  else if Qlt_bool (y (position c)) (viewportHeight env / 2)
  then
    setTransition "all .2s";;
    assignCoord set_position (mkPoint (x (position c)) DOCK_MARGIN)
  else ret tt.

Definition drag_snap (env : Env) (minimizedRect : Rect) : M VideoEntry unit :=
  c ← gets dragCoordinates_;
  if Qle_bool (Qabs (x (velocity c))) STOP_THRESHOLD
     && Qle_bool (Qabs (y (velocity c))) STOP_THRESHOLD
  then snap_x env minimizedRect;; snap_y env minimizedRect
  else setTransition "".

(** The end of [handleDockingDrag_]: the element follows the position, and
    the next run is queued. *)
Definition drag_move : M VideoEntry unit :=
  c ← gets dragCoordinates_;
  o ← gets internalElement_;
  el ← dev_assertElement o;
  assign set_internalElement_
    (Some (el_setStyles
             (transformStyles
                (Transform (Some (x (position c), y (position c)))
                           DOCK_SCALE)) el));;
  modify (λ e, set_scheduledDrag (S (scheduledDrag e)) e).

(** [handleDockingDrag_]. *)
Definition handleDockingDrag_ (env : Env) (i : nat) : M VideoManager unit :=
  e ← this i get;
  if drag_stopped e then this i (setTransition "")
  else
    let minimizedRect := minimizedRect env in
    if isDragging_ e then
      this i
        (c ← gets dragCoordinates_;
         assignCoord set_previous (mkPoint (x (position c)) (y (position c)));;
         c ← gets dragCoordinates_;
         assignCoord set_position
           (mkPoint (x (mouse c) - x (displacement c))
                    (y (mouse c) - y (displacement c)));;
         c ← gets dragCoordinates_;
         assignCoord set_velocity
           (mkPoint (x (position c) - x (previous c))
                    (y (position c) - y (previous c)));;
         c ← gets dragCoordinates_;
         let vidCenterX := x (position c) + width minimizedRect / 2 in
         let vidCenterY := y (position c) + height minimizedRect / 2 in
         when (Qlt_bool (viewportWidth env) vidCenterX
               || Qlt_bool vidCenterX 0
               || Qlt_bool (viewportHeight env) vidCenterY
               || Qlt_bool vidCenterY 0)
              (assign set_dismissed true);;
         drag_snap env minimizedRect;;
         drag_move)
    else
      this i
        (c ← gets dragCoordinates_;
         assignCoord set_position
           (mkPoint (x (position c) + x (velocity c))
                    (y (position c) + y (velocity c)));;
         c ← gets dragCoordinates_;
         assignCoord set_velocity
           (mkPoint (x (velocity c) * FRICTION_COEFF)
                    (y (velocity c) * FRICTION_COEFF)));;
      if dismissed e then
        unregisterDocked;;
        this i unDockVideo_;;
        this i (assign set_dismissed false)
      else
        this i (drag_snap env minimizedRect;; drag_move).
End V1.

(** * Definitions for the statements *)

(** [stable P c]: [c] keeps [P], whether it returns or throws. *)
Definition stable {S A} (P : S → Prop) (c : M S A) : Prop :=
  ∀ s, P s → P (final_state (c s)).

(** The manager after [this.entries_[i]] has become [e]. *)
Definition setEntry (i : nat) (e : VideoEntry) (m : VideoManager)
  : VideoManager :=
  set_entries_ (Some (<[i:=e]> (entries m))) m.

(** [at_entry i P]: the entry [i] exists and satisfies [P]. *)
Definition at_entry (i : nat) (P : VideoEntry → Prop) (m : VideoManager)
  : Prop :=
  ∃ e, entries m !! i = Some e ∧ P e.


(** [velocity *= FRICTION_COEFF], on one axis. *)
Definition friction (v : Q) : Q := v * FRICTION_COEFF.

(** ** A page with one docked video

    A 300 by 200 video, docked at the top right corner of an 800 by 600
    viewport and released while moving by (4, -8) pixels per frame. *)
Module Scenario.
Definition doc : AmpDoc := mkAmpDoc None None.

Definition player : Video :=
  mkVideo 0 true true true false false (Some []) [] [] [].

Definition env : Env :=
  mkEnv 800 600 3000 1000 200
    (layoutRectLtwh 0 (-200) 300 200) (layoutRectLtwh 600 20 180 120).

Definition viewport : Rect := layoutRectLtwh 0 0 800 600.

Definition released : DragCoordinates :=
  mkDragCoordinates (mkPoint 650 60) (mkPoint 50 40) (mkPoint 600 20)
    (mkPoint 600 20) (mkPoint 596 28) (mkPoint 4 (-8)).

Definition dockedEntry : VideoEntry :=
  set_dragCoordinates_ released
    (set_dragListenerInstalled_ true
       (set_draggingMask_ (Some (mkElement [] []))
          (set_internalElement_ (Some (mkElement [DOCK_CLASS] []))
             (set_dockingState_ DOCKED
                (set_minimizePosition_ TOP_RIGHT
                   (set_hasBeenInViewBefore true
                      (set_initialRect_ (Some (layoutRectLtwh 0 100 300 200))
                         (set_isPlaying_ true
                            (set_loaded_ true
                               (newVideoEntry doc player)))))))))).

Definition docked : VideoManager :=
  mkVideoManager doc (Some [dockedEntry]) false true (Some 0%nat).

(** The same video when its player node carries an inline style of its
    own. *)
Definition styledPlayer : Video :=
  mkVideo 0 true true true false false (Some [("opacity", Keyword "0.5")])
    [] [] [].

(** What the position observer reports: the video fully in view, out of
    view above the viewport, and half in view at the top. *)
Definition inView : PositionInViewportEntryDef :=
  mkPos (Some (layoutRectLtwh 0 100 300 200)) viewport RP_INSIDE.

Definition above : PositionInViewportEntryDef := mkPos None viewport RP_TOP.

Definition halfAbove : PositionInViewportEntryDef :=
  mkPos (Some (layoutRectLtwh 0 (-100) 300 200)) viewport RP_TOP.

(** The video [v] is registered, measured, loaded, played by the user and
    seen fully in view. *)
Definition playing (v : Video) : list Event :=
  [Register v; DockableBuilt 0 (layoutRectLtwh 0 100 300 200);
   Loaded 0 true false; Playing 0; PositionChanged 0 env inView].

(** The state in which [onDockableVideoPositionChanged] starts docking: the
    video [v] plays inline, and the position observer has just reported it
    out of view. *)
Definition scrolledOut (v : Video) : VideoManager :=
  final_state
    (this 0 (updateDockableVideoPosition_ env above)
       (run (playing v) (newVideoManager doc))).

(** The user scrolls the video out of view, halfway back, and the drag tick
    queued while it was docked runs. *)
Definition scrolledBack : list Event :=
  playing player
  ++ [PositionChanged 0 env above; PositionChanged 0 env halfAbove;
      DragTick 0 env].

(** A video of a kind the platform does not support. *)
Definition unsupported : Video :=
  mkVideo 1 false true true false false (Some []) [] [] [].



(** The same video, dragged: the pointer went down at (650, 60) on the
    element at (600, 20) and is now at (700, 90). *)
Definition draggedEntry : VideoEntry :=
  set_isTouched_ true
    (set_isDragging_ true
       (set_dragCoordinates_ (set_mouse (mkPoint 700 90) released)
          dockedEntry)).

End Scenario.





(** The actions [registerCommonActions_] registers, in order. *)
Definition commonActions : list (string * VideoCall * ActionTrust) :=
  [("play", CallPlay false, MEDIUM); ("pause", CallPause, MEDIUM);
   ("mute", CallMute, MEDIUM); ("unmute", CallUnmute, MEDIUM)].

(** The docking state of entry [i], and the inline style of its player
    node. *)
Definition dockingStateOf (m : VideoManager) (i : nat) : option DockingStates :=
  dockingState_ <$> entries m !! i.

Definition playerStyleOf (m : VideoManager) (i : nat) : option Style :=
  style <$> (entries m !! i ≫= internalElement_).

(** The entry [finishDocking_] leaves, for an entry [e] whose player node
    is [el]. *)
Definition undocked (e : VideoEntry) (el : Element) : VideoEntry :=
  set_dragListenerInstalled_ false
    (set_hasBeenInViewBefore false
       (set_video (call CallShowControls (video e))
          (set_dockingState_ INLINE
             (set_internalElement_
                (Some (clearStyleAttribute (classList_remove DOCK_CLASS el)))
                e)))).

(** What can be observed of the docking of entry [i]: its docking state,
    whether the player node carries the docking class, whether the controls
    are hidden, whether the drag listeners count as installed, whether the
    dragging mask is in place, and how many runs of [drag_] are queued. *)
Record DockingReport := mkDockingReport {
  reportState : DockingStates;
  reportDockClass : bool;
  reportControlsHidden : bool;
  reportListenersInstalled : bool;
  reportMask : bool;
  reportQueuedTicks : nat
}.

Definition reportOf (m : VideoManager) (i : nat) : option DockingReport :=
  (λ e, mkDockingReport (dockingState_ e) (hasDockClass e)
          (controlsHidden (video e)) (dragListenerInstalled_ e)
          (negb (isNull (draggingMask_ e))) (scheduledDrag e))
  <$> entries m !! i.

(** ** The docked slot *)

(** An entry is clean when it is INLINE and its player node does not carry
    the docking class. *)
Definition clean (e : VideoEntry) : bool :=
  bool_decide (dockingState_ e = INLINE) && negb (hasDockClass e).






(** [hoare P c Q]: from a state in [P], [c] ends in a state in [Q], whether
    it returns or throws. *)
Definition hoare {S A} (P : S → Prop) (c : M S A) (Q : S → Prop) : Prop :=
  ∀ s, P s → Q (final_state (c s)).

(** ** Invariants of the entries *)

(** [all_entries P]: every entry of the manager satisfies [P]. *)
Definition all_entries (P : VideoEntry → Prop) (m : VideoManager) : Prop :=
  ∀ i e, entries m !! i = Some e → P e.

(** The drag flag of an entry is set only while the pointer is down on it. *)
Definition dragging_touched (e : VideoEntry) : Prop :=
  isDragging_ e = true → isTouched_ e = true.

(** An entry that autoplay has started is a loaded entry with the autoplay
    attribute. *)
Definition autoplay_started_ok (e : VideoEntry) : Prop :=
  hasAutoplay e = autoplayAttribute (video e)
  ∧ (playCalledByAutoplay_ e = true → hasAutoplay e = true ∧ loaded_ e = true).

(** A loaded entry with the autoplay attribute. *)
Definition autoplay_ready (e : VideoEntry) : Prop :=
  hasAutoplay e = autoplayAttribute (video e)
  ∧ hasAutoplay e = true ∧ loaded_ e = true.

(** An entry that autoplay has not started. *)
Definition autoplay_idle (e : VideoEntry) : Prop :=
  hasAutoplay e = autoplayAttribute (video e)
  ∧ playCalledByAutoplay_ e = false.

(** An entry that carries what docking needs: the dock attribute, the
    loaded player node with the docking class, and the measured rectangle. *)
Definition docking_ready (e : VideoEntry) : Prop :=
  hasDocking e = dockAttribute (video e)
  ∧ hasDocking e = true ∧ loaded_ e = true
  ∧ isNull (initialRect_ e) = false ∧ hasDockClass e = true.

(** An entry is INLINE unless it carries what docking needs. *)
Definition docked_ok (e : VideoEntry) : Prop :=
  hasDocking e = dockAttribute (video e)
  ∧ (dockingState_ e = INLINE
     ∨ (hasDocking e = true ∧ loaded_ e = true
        ∧ isNull (initialRect_ e) = false ∧ hasDockClass e = true)).



(** The calls [play(/*autoplay*/ true)] made on a video. *)
Definition autoplayCalls (v : Video) : list VideoCall :=
  List.filter (λ c, match c with CallPlay true => true | _ => false end)
    (calls v).

(** The user has interacted with the entry, and autoplay has started the
    video as often as [n] times. *)
Definition interacted (n : nat) (e : VideoEntry) : Prop :=
  userInteractedWithAutoPlay_ e = true
  ∧ length (autoplayCalls (video e)) = n.


(** A docking entry: it is not INLINE, its player node carries the docking
    class, and the controls of the video are hidden. *)
Definition docking_now (e : VideoEntry) : Prop :=
  dockingState_ e ≠ INLINE ∧ hasDockClass e = true
  ∧ controlsHidden (video e) = true.

(** The entry [i] is docking and holds the slot; [dismissed] tells whether
    it may be marked as dismissed. *)
Definition docking_in_slot (dismissed : bool) (i : nat) (m : VideoManager)
  : Prop :=
  at_entry i (λ e, docking_now e ∧ (isDismissed_ e = true → dismissed = true))
    m
  ∧ dockedVideo_ m = Some i.

(** ** Position updates and the drag loop *)

(** What [updateDockableVideoPosition_] does not write to. *)
Definition same_video_state (e e' : VideoEntry) : Prop :=
  loaded_ e' = loaded_ e ∧ initialRect_ e' = initialRect_ e
  ∧ internalElement_ e' = internalElement_ e
  ∧ dockingState_ e' = dockingState_ e
  ∧ entry_getPlayingState e' = entry_getPlayingState e
  ∧ video e' = video e ∧ pageDir_ e' = pageDir_ e
  ∧ hasDocking e' = hasDocking e.



(** ** Analytics, listeners and the earlier variant *)


(** The third argument [internalListenImplementation] passes, given what
    the detection answers. *)
Definition listenerArg (supported : bool) (opts : option EventHelper.Options)
  : EventHelper.ThirdArg :=
  if supported then EventHelper.WithOptions opts
  else EventHelper.WithCapture match opts with
                               | Some o => EventHelper.capture o
                               | None => false
                               end.

(** The entry [unDockVideo_] leaves, for an entry [e] whose player node is
    [el]. *)
Definition V1_undocked (e : V1.VideoEntry) (el : Element) : V1.VideoEntry :=
  V1.set_dragListenerInstalled_ false
    (V1.set_video (call CallShowControls (V1.video e))
       (V1.set_internalElement_
          (Some (clearStyleAttribute (classList_remove DOCK_CLASS el)))
          (V1.set_minimizePosition_ V1.DEFAULT e))).

(** What one round of the loop of [undockAllExceptCurrent] makes of the
    entry [e] at index [j], while [cur] is the docked entry. *)
Definition V1_undockOne (cur : option nat) (j : nat) (e : V1.VideoEntry)
  : V1.VideoEntry :=
  if negb (bool_decide (Some j = cur)) && V1.hasDocking e then
    match V1.internalElement_ e with
    | Some el => V1.set_hasBeenInViewBefore false (V1_undocked e el)
    | None => V1.set_minimizePosition_ V1.DEFAULT e
    end
  else e.

(** The entries after the rounds [a], ..., [a + n - 1] of the loop. *)
Definition V1_undockRange (cur : option nat) (a n : nat)
    (l : list V1.VideoEntry) : list V1.VideoEntry :=
  imap (λ j e, if bool_decide (a ≤ j < a + n)%nat then V1_undockOne cur j e
               else e) l.
(** ** Further concrete states

    An autoplay video, the video of the scenario while it plays inline,
    while it docks and while it is dragged, a playback report, and a page of
    the earlier variant. *)
Module Sample.
(** A video with the autoplay attribute. *)
Definition autoplayer : Video :=
  mkVideo 2 true true false true false (Some []) [] [] [].

(** The video is registered, probed for autoplay support, loaded, seen in
    full and reported as playing. *)
Definition autoplaying : list Event :=
  [Register autoplayer; AutoplayProbed 0 true; Loaded 0 true true;
   Visibility 0 (Finite 1) true true; Playing 0].

(** The manager after the user has then clicked on the autoplay mask. *)
Definition interactedWith : VideoManager :=
  run (autoplaying ++ [Interaction 0]) (newVideoManager Scenario.doc).

(** The video scrolls out of view and back in. *)
Definition scrolling : list Event :=
  [Visibility 0 (Finite 0) true true; Visibility 0 (Finite 1) true true].

(** The entry of the autoplay video once it is loaded, not yet visible. *)
Definition loadedAutoplayer : VideoEntry :=
  set_loaded_ true (newVideoEntry Scenario.doc autoplayer).

(** The video of the scenario plays inline. *)
Definition inline : VideoManager :=
  run (Scenario.playing Scenario.player) (newVideoManager Scenario.doc).

(** It is scrolled out of view and docks; the pointer then goes down on it
    and moves. *)
Definition docking : list Event :=
  Scenario.playing Scenario.player
  ++ [PositionChanged 0 Scenario.env Scenario.above].

Definition grabbed : list Event :=
  docking ++ [TouchStart 0 (MouseEvent 650 60); TouchMove 0 (MouseEvent 700 90)].

(** The docked video of the scenario, dragged until its centre is to the
    right of the viewport, and the same video marked as dismissed. *)
Definition draggedOutEntry : VideoEntry :=
  set_dragCoordinates_
    (set_mouse (mkPoint 900 90) (dragCoordinates_ Scenario.draggedEntry))
    Scenario.draggedEntry.

Definition draggedOut : VideoManager :=
  mkVideoManager Scenario.doc (Some [draggedOutEntry]) false true
    (Some 0%nat).

Definition dismissedEntry : VideoEntry :=
  set_isDismissed_ true Scenario.dockedEntry.

Definition dismissed : VideoManager :=
  mkVideoManager Scenario.doc (Some [dismissedEntry]) false true (Some 0%nat).


(** Entries of the earlier variant: a docked video, and a dockable video
    that is not loaded yet. *)
Definition v1Docked : V1.VideoEntry :=
  V1.mkVideoEntry Scenario.player true true false false false
    (Some (layoutRectLtwh 0 100 300 200)) V1.TOP 0
    (Some (mkElement [DOCK_CLASS] [])) "ltr" true true false false false
    Scenario.released true false 0.

Definition v1Unloaded : V1.VideoEntry :=
  V1.mkVideoEntry Scenario.player false false false false false None
    V1.DEFAULT 0 None "ltr" false false false false false
    (mkDragCoordinates (mkPoint 0 0) (mkPoint 0 0) (mkPoint 0 0)
       (mkPoint 0 0) (mkPoint 0 0) (mkPoint 0 0))
    true false 0.

Definition v1Page (l : list V1.VideoEntry) (cur : option nat)
  : V1.VideoManager :=
  V1.mkVideoManager (Some l) cur.
End Sample.

(** * Properties *)

(** ** Reasoning about computations *)

Section Computations.
Context {S : Type}.
Implicit Types (P : S → Prop) (s : S).

Lemma final_state_bind {A B} (c : M S A) (k : A → M S B) s :
  final_state (bind c k s)
  = match c s with
    | Done s' a => final_state (k a s')
    | Thrown s' _ => s'
    end.
Proof. unfold bind. by destruct (c s). Qed.

Lemma stable_ret {A} P (a : A) : stable P (ret a).
Proof. intros s Hs. exact Hs. Qed.

Lemma stable_throw {A} P err : stable P (throw (A:=A) err).
Proof. intros s Hs. exact Hs. Qed.

Lemma stable_get P : stable P get.
Proof. intros s Hs. exact Hs. Qed.

Lemma stable_gets {A} P (f : S → A) : stable P (gets f).
Proof. intros s Hs. exact Hs. Qed.

Lemma stable_deref {A} P (o : option A) : stable P (deref o).
Proof. destruct o; intros s Hs; exact Hs. Qed.

Lemma stable_dev_assert P b msg : stable P (dev_assert b msg).
Proof. destruct b; intros s Hs; exact Hs. Qed.

Lemma stable_dev_assertElement {A} P (o : option A) :
  stable P (dev_assertElement o).
Proof. destruct o; intros s Hs; exact Hs. Qed.

Lemma stable_modify P (f : S → S) :
  (∀ s, P s → P (f s)) → stable P (modify f).
Proof. intros Hf s. apply Hf. Qed.

Lemma stable_bind {A B} P (c : M S A) (k : A → M S B) :
  stable P c → (∀ a, stable P (k a)) → stable P (bind c k).
Proof.
  intros Hc Hk s Hs. rewrite final_state_bind.
  specialize (Hc s Hs). destruct (c s); [by apply Hk | done].
Qed.

Lemma stable_when P b (c : M S unit) : stable P c → stable P (when b c).
Proof. destruct b; [done | intros _; apply stable_ret]. Qed.

Lemma stable_impl {A} P (c : M S A) s :
  stable P c → P s → P (final_state (c s)).
Proof. intros H. apply H. Qed.


(** Running a computation one statement at a time. *)
Lemma bind_ret {A B} (a : A) (k : A → M S B) s : bind (ret a) k s = k a s.
Proof. reflexivity. Qed.

Lemma bind_get {B} (k : S → M S B) s : bind get k s = k s s.
Proof. reflexivity. Qed.

Lemma bind_gets {A B} (f : S → A) (k : A → M S B) s :
  bind (gets f) k s = k (f s) s.
Proof. reflexivity. Qed.

Lemma bind_modify {B} (f : S → S) (k : unit → M S B) s :
  bind (modify f) k s = k tt (f s).
Proof. reflexivity. Qed.

Lemma bind_assoc {A B C} (c : M S A) (k : A → M S B) (k' : B → M S C) s :
  bind (bind c k) k' s = bind c (λ a, bind (k a) k') s.
Proof. unfold bind. by destruct (c s). Qed.

Lemma bind_done {A B} (c : M S A) (k : A → M S B) s s' a :
  c s = Done s' a → bind c k s = k a s'.
Proof. unfold bind. by intros ->. Qed.

Lemma bind_thrown {A B} (c : M S A) (k : A → M S B) s s' err :
  c s = Thrown s' err → bind c k s = Thrown s' err.
Proof. unfold bind. by intros ->. Qed.
End Computations.

(** The two writers of element state keep what every single write to the
    element the entry holds keeps. *)
Lemma stable_setStylesOf (P : VideoEntry → Prop) target kvs :
  (∀ e el, elementOf target e = Some el → P e →
           P (withElementOf target (el_setStyles kvs el) e)) →
  stable P (setStylesOf target kvs).
Proof.
  intros H e He. unfold setStylesOf, setElementOf.
  rewrite bind_gets. destruct (elementOf target e) as [el|] eqn:Hel; [| done].
  by apply H.
Qed.

Lemma stable_updateInternalElement (P : VideoEntry → Prop) f :
  (∀ e el, internalElement_ e = Some el → P e →
           P (set_internalElement_ (Some (f el)) e)) →
  stable P (updateInternalElement f).
Proof.
  intros H e He. unfold updateInternalElement.
  rewrite bind_gets. destruct (internalElement_ e) as [el|] eqn:Hel; [| done].
  by apply H.
Qed.

(** One step of a proof of [stable P c], by the shape of [c]. *)
Ltac stable_step :=
  lazymatch goal with
  | |- stable _ (bind _ _) => apply stable_bind; [| intros ?]
  | |- stable _ (ret _) => apply stable_ret
  | |- stable _ (throw _) => apply stable_throw
  | |- stable _ get => apply stable_get
  | |- stable _ (gets _) => apply stable_gets
  | |- stable _ (deref _) => apply stable_deref
  | |- stable _ (dev_assert _ _) => apply stable_dev_assert
  | |- stable _ (dev_assertElement _) => apply stable_dev_assertElement
  | |- stable _ (when false _) => apply stable_ret
  | |- stable _ (when _ _) => apply stable_when
  | |- stable _ (modify _) => apply stable_modify; intros ? ?
  | |- stable _ (setStylesOf _ _) => apply stable_setStylesOf; intros ? ? ? ?
  | |- stable _ (updateInternalElement _) =>
      apply stable_updateInternalElement; intros ? ? ? ?
  | |- stable _ (if ?b then _ else _) => destruct b
  | |- stable _ (match ?o with _ => _ end) => destruct o
  | |- stable _ (let _ := _ in _) => cbv zeta
  end.

(** The methods that stay within an entry, for unfolding. *)
Create HintDb entry_methods.
#[global] Hint Unfold assign callVideo assignCoord videoPlayed_ videoPaused_
  videoEnded_ autoplayLoadedVideoVisibilityChanged_
  nonAutoplayLoadedVideoVisibilityChanged_ loadedVideoVisibilityChanged_
  videoVisibilityChanged_ updateVisibility_measure updateVisibility
  videoLoaded autoplayInteractiveVideoBuilt_ autoplayVideoBuilt_then
  onInteraction scrollMap_ updateDockableVideoPosition_ calcDockOffsetXLeft
  calcDockOffsetXRight calcDockOffsetYTop calcDockOffsetYBottom setElementOf
  createDraggingMask_ removeDraggingMask_ finishDragging_
  initializeDragging_ mouse_ calcSnapCorner_ animateSnap_ snapDone dragMove_
  autoplayVideoBuilt_ videoBuilt_ dockableVideoBuilt_run
  drag_dragging drag_freeMotion drag_snap drag_move onTouchStart onTouchEnd
  onTouchMove : entry_methods.

(** [stable P c] for a method [c] of an entry: the goals left are those of
    the assignments. *)
Ltac stable_entry := autounfold with entry_methods; repeat stable_step.

(** Closing the goal of an assignment by computation and case analysis. *)
Ltac stable_leaf :=
  repeat first
    [ done
    | progress cbn in *
    | case_match
    | match goal with t : SnapTarget |- _ => destruct t end ].

(** * Visibility *)

Lemma updateVisibility_isVisible ratio viewerVisible supportsAutoplay e :
  isVisible_ (final_state (updateVisibility ratio viewerVisible supportsAutoplay e))
  = js_ge (visiblePercent ratio) (Finite VISIBILITY_PERCENT).
Proof.
  autounfold with entry_methods. unfold when, bind, gets, get, modify, ret.
  cbn. repeat case_match; reflexivity.
Qed.

(** C2.  Whatever intersection ratio the element reports when
    [updateVisibility] runs, the entry is visible afterwards exactly when
    the ratio times 100 is at least 75, a ratio that is not a finite number
    counting as 0 (so the entry is then not visible); a ratio of exactly
    0.75 makes it visible. *)
Theorem C2_visibility_threshold :
  ∀ (e : VideoEntry) (viewerVisible supportsAutoplay : bool) (ratio : JsNumber),
    let isVisible r :=
      isVisible_
        (final_state (updateVisibility r viewerVisible supportsAutoplay e)) in
    match ratio with
    | Finite r =>
        isVisible ratio = Qle_bool 75 (r * 100)
        ∧ (isVisible ratio = true ↔ 75 <= r * 100)
    | _ =>
        visiblePercent ratio = Finite 0
        ∧ isVisible ratio = Qle_bool 75 0
        ∧ isVisible ratio = false
    end
    ∧ isVisible (Finite 0.75) = true.
Proof.
  intros e vv sa ratio isVisible. subst isVisible. cbv beta.
  rewrite !updateVisibility_isVisible. split; [| reflexivity].
  destruct ratio as [r| | |]; cbn; try done.
  split; [done |]. unfold VISIBILITY_PERCENT. apply Qle_bool_iff.
Qed.

(** * The docking scale *)





(** * Entries inside the manager *)

Lemma entries_Some m l : entries_ m = Some l → entries m = l.
Proof. unfold entries. by intros ->. Qed.

Lemma entries_lookup_Some m i e :
  entries m !! i = Some e → ∃ l, entries_ m = Some l ∧ l !! i = Some e.
Proof.
  unfold entries. destruct (entries_ m) as [l|]; [by exists l | done].
Qed.

Lemma this_run {A} i (c : M VideoEntry A) m e :
  entries m !! i = Some e →
  this i c m
  = match c e with
    | Done e' a => Done (setEntry i e' m) a
    | Thrown e' err => Thrown (setEntry i e' m) err
    end.
Proof.
  intros (l & Hl & He)%entries_lookup_Some. unfold this, setEntry.
  by rewrite (entries_Some _ _ Hl), Hl, He.
Qed.

Lemma this_missing {A} i (c : M VideoEntry A) m :
  entries m !! i = None → this i c m = Thrown m TypeError.
Proof.
  unfold this, entries. destruct (entries_ m) as [l|]; [| done].
  cbn. by intros ->.
Qed.

Lemma setEntry_same i e m : entries m !! i = Some e → setEntry i e m = m.
Proof.
  intros (l & Hl & He)%entries_lookup_Some. unfold setEntry.
  rewrite (entries_Some _ _ Hl), list_insert_id by done.
  destruct m as [a1 a2 a3 a4 a5]. cbn in *. by subst.
Qed.

Lemma this_get i m :
  this i get m
  = match entries m !! i with
    | Some e => Done m e
    | None => Thrown m TypeError
    end.
Proof.
  destruct (entries m !! i) as [e|] eqn:He.
  - rewrite (this_run _ _ _ _ He). cbn. by rewrite setEntry_same.
  - by apply this_missing.
Qed.

Lemma entries_setEntry i e m : entries (setEntry i e m) = <[i:=e]> (entries m).
Proof. reflexivity. Qed.


Lemma final_state_this {A} i (c : M VideoEntry A) m e :
  entries m !! i = Some e →
  final_state (this i c m) = setEntry i (final_state (c e)) m.
Proof. intros He. rewrite (this_run _ _ _ _ He). by destruct (c e). Qed.

Lemma stable_this_at {A} i P (c : M VideoEntry A) :
  stable P c → stable (at_entry i P) (this i c).
Proof.
  intros Hc m (e & He & HP). rewrite (final_state_this _ _ _ _ He).
  exists (final_state (c e)). split; [| by apply Hc].
  rewrite entries_setEntry. apply list_lookup_insert_eq.
  by eapply lookup_lt_Some.
Qed.

Lemma stable_this_other {A} i k P (c : M VideoEntry A) :
  i ≠ k → stable (at_entry i P) (this k c).
Proof.
  intros Hik m (e & He & HP).
  destruct (entries m !! k) as [ek|] eqn:Hk.
  - rewrite (final_state_this _ _ _ _ Hk). exists e. split; [| done].
    rewrite entries_setEntry. by rewrite list_lookup_insert_ne.
  - rewrite this_missing by done. by exists e.
Qed.

Lemma stable_set_dockedVideo_at i P d :
  stable (at_entry i P) (modify (set_dockedVideo_ d)).
Proof. intros m H. exact H. Qed.

Lemma stable_registerDocked_at i P k :
  stable (at_entry i P) (registerDocked k).
Proof. apply stable_set_dockedVideo_at. Qed.

Lemma stable_unregisterDocked_at i P :
  (∀ e, P e → P (set_hasBeenInViewBefore false e)) →
  stable (at_entry i P) unregisterDocked.
Proof.
  intros HP m (e & (l & Hl & He)%entries_lookup_Some & HPe).
  unfold unregisterDocked, bind, modify, gets, deref. cbn. rewrite Hl. cbn.
  exists (set_hasBeenInViewBefore false e). split; [| by apply HP].
  unfold entries. cbn. by rewrite list_lookup_fmap, He.
Qed.

(** One step of a proof of [stable (at_entry i P) c] for a method [c] that
    works on the entry [i] and on the manager. *)
Ltac stable_at_step :=
  first
    [ stable_step
    | apply stable_this_at; stable_entry
    | apply stable_registerDocked_at
    | apply stable_unregisterDocked_at; intros ? ? ].

Create HintDb manager_methods.
#[global] Hint Unfold initializeDocking_ finishDocking_ drag_ animateDocking_
  onDockableVideoPositionChanged onResize : manager_methods.

Ltac stable_at :=
  autounfold with manager_methods; repeat stable_at_step.

(** * The drag loop *)

(** What [drag_] leaves of the coordinates once the motion of the tick is
    done: the rest of the tick does not write to them. *)
Lemma drag_snap_move_coordinates env r (c : DragCoordinates) :
  stable (λ e, dragCoordinates_ e = c) (drag_snap env r;; drag_move).
Proof. stable_entry; by cbn. Qed.

Lemma finishDocking_coordinates i (c : DragCoordinates) :
  stable (at_entry i (λ e, dragCoordinates_ e = c)) (finishDocking_ i).
Proof. stable_at; by cbn. Qed.

Lemma lookup_setEntry i e m :
  is_Some (entries m !! i) → entries (setEntry i e m) !! i = Some e.
Proof.
  intros [e0 He]. rewrite entries_setEntry. apply list_lookup_insert_eq.
  by eapply lookup_lt_Some.
Qed.

Lemma friction_shrinks (v : Q) : ¬ v == 0 → Qabs (friction v) < Qabs v.
Proof.
  intros Hv. unfold friction. rewrite Qabs_Qmult. unfold FRICTION_COEFF.
  assert (0 < Qabs v).
  { destruct (Q_dec v 0) as [[Hlt|Hgt]|Heq]; [| | done].
    - rewrite Qabs_neg by lra. lra.
    - rewrite Qabs_pos by lra. lra. }
  rewrite (Qabs_pos (55 # 100)) by done. lra.
Qed.

Lemma friction_iter_bound (v : Q) (n : nat) :
  Qabs (Nat.iter n friction v) * (1 + (9 # 11) * inject_Z (Z.of_nat n))
  <= Qabs v.
Proof.
  induction n as [|n IH].
  - change (Nat.iter 0 friction v) with v.
    change (inject_Z (Z.of_nat 0)) with 0.
    set (a := Qabs v). lra.
  - rewrite Nat.iter_succ. unfold friction at 1. rewrite Qabs_Qmult.
    unfold FRICTION_COEFF. rewrite (Qabs_pos (55 # 100)) by done.
    rewrite Nat2Z.inj_succ. unfold Z.succ. rewrite inject_Z_plus.
    change (inject_Z 1) with 1.
    pose proof (Qabs_nonneg (Nat.iter n friction v)) as Hb.
    assert (Ht : 0 <= inject_Z (Z.of_nat n)).
    { change 0 with (inject_Z 0). rewrite <- Zle_Qle. lia. }
    set (b := Qabs (Nat.iter n friction v)) in *.
    set (t := inject_Z (Z.of_nat n)) in *.
    pose proof (Qmult_le_0_compat _ _ Hb Ht). nra.
Qed.

(** Friction brings any velocity to the stop threshold in finitely many
    ticks. *)
Lemma friction_stops (v : Q) :
  ∃ n, Qabs (Nat.iter n friction v) <= STOP_THRESHOLD.
Proof.
  exists (Z.to_nat (Qceiling (Qabs v))).
  pose proof (friction_iter_bound v (Z.to_nat (Qceiling (Qabs v)))) as H.
  pose proof (Qabs_nonneg v) as Hv.
  pose proof (Qle_ceiling (Qabs v)) as Hc.
  assert (Hz : (0 <= Qceiling (Qabs v))%Z).
  { rewrite Zle_Qle. change (inject_Z 0) with 0. lra. }
  rewrite Z2Nat.id in H by done.
  pose proof (Qabs_nonneg
                (Nat.iter (Z.to_nat (Qceiling (Qabs v))) friction v)) as Hb.
  set (b := Qabs (Nat.iter _ friction v)) in *.
  set (t := inject_Z (Qceiling (Qabs v))) in *.
  unfold STOP_THRESHOLD.
  assert (Ht : 0 <= t) by lra.
  pose proof (Qmult_le_0_compat _ _ Hb Ht). nra.
Qed.

(** A tick of [drag_] that passes the guard while the video is not dragged
    leaves the coordinates as [drag_freeMotion] computes them. *)
Lemma drag_free_coordinates env i m e :
  entries m !! i = Some e →
  drag_stopped e = false →
  isDragging_ e = false →
  at_entry i
    (λ e', dragCoordinates_ e'
           = dragCoordinates_ (final_state (drag_freeMotion e)))
    (final_state (drag_ env i m)).
Proof.
  intros He Hs Hd. unfold drag_.
  rewrite final_state_bind, this_get, He, Hs, Hd.
  rewrite final_state_bind, (this_run _ _ _ _ He).
  destruct (drag_freeMotion e) as [e1 []|] eqn:H1; [| done].
  cbn [final_state].
  assert (H0 : at_entry i (λ e', dragCoordinates_ e' = dragCoordinates_ e1)
                 (setEntry i e1 m)).
  { exists e1. split; [| done]. apply lookup_setEntry. by exists e. }
  revert H0. generalize (setEntry i e1 m). destruct (isDismissed_ e).
  - change (stable (at_entry i (λ e', dragCoordinates_ e' = dragCoordinates_ e1))
              (this i (callVideo CallPause);; finishDocking_ i;;
               this i (assign set_isDismissed_ false))).
    stable_at; by cbn.
  - change (stable (at_entry i (λ e', dragCoordinates_ e' = dragCoordinates_ e1))
              (this i (drag_snap env (minimizedRect env);; drag_move))).
    stable_at; by cbn.
Qed.

(** C4.  On a tick of the drag loop that passes the guard of [drag_] while
    the video is not being dragged, the position is incremented by the
    velocity and each component of the velocity is multiplied by
    [FRICTION_COEFF], which is strictly between 0 and 1; so on each axis the
    magnitude of a velocity that is not zero, and in particular of one above
    [STOP_THRESHOLD], strictly decreases, and the repeated multiplication
    brings it to the threshold after finitely many ticks. *)
Theorem C4_free_motion_friction (env : Env) (i : nat) (m : VideoManager)
    (e : VideoEntry) :
  entries m !! i = Some e →
  drag_stopped e = false →
  isDragging_ e = false →
  ∃ e', entries (final_state (drag_ env i m)) !! i = Some e'
    ∧ (let c := dragCoordinates_ e in
       let c' := dragCoordinates_ e' in
       x (position c') = x (position c) + x (velocity c)
       ∧ y (position c') = y (position c) + y (velocity c)
       ∧ x (velocity c') = friction (x (velocity c))
       ∧ y (velocity c') = friction (y (velocity c))
       ∧ (¬ x (velocity c) == 0 →
          Qabs (x (velocity c')) < Qabs (x (velocity c)))
       ∧ (¬ y (velocity c) == 0 →
          Qabs (y (velocity c')) < Qabs (y (velocity c)))
       ∧ (STOP_THRESHOLD < Qabs (x (velocity c)) →
          Qabs (x (velocity c')) < Qabs (x (velocity c)))
       ∧ (STOP_THRESHOLD < Qabs (y (velocity c)) →
          Qabs (y (velocity c')) < Qabs (y (velocity c))))
    ∧ 0 < FRICTION_COEFF ∧ FRICTION_COEFF < 1
    ∧ (∀ v, friction v = v * FRICTION_COEFF)
    ∧ (∀ v, ∃ n, Qabs (Nat.iter n friction v) <= STOP_THRESHOLD).
Proof.
  intros He Hs Hd.
  destruct (drag_free_coordinates env i m e He Hs Hd) as (e' & He' & Hc).
  exists e'. split; [done |]. split.
  - cbv zeta. rewrite Hc. cbn.
    assert (Hnz : ∀ v, STOP_THRESHOLD < Qabs v → ¬ v == 0).
    { intros v Hv Hz. rewrite Hz in Hv. by vm_compute in Hv. }
    repeat split; try reflexivity; intros H; apply friction_shrinks; auto.
  - repeat split; try reflexivity. apply friction_stops.
Qed.

(** The theorem on the released video of the scenario: the velocity goes
    from (4, -8) to (4, -8) times 0.55. *)
Lemma C4_free_motion_friction_witness :
  ∃ e', entries (final_state (drag_ Scenario.env 0 Scenario.docked)) !! 0%nat
        = Some e'
    ∧ x (velocity (dragCoordinates_ e')) = friction 4
    ∧ y (velocity (dragCoordinates_ e')) = friction (-8)
    ∧ x (position (dragCoordinates_ e')) = 600 + 4
    ∧ y (position (dragCoordinates_ e')) = 20 + -8.
Proof.
  destruct (C4_free_motion_friction Scenario.env 0 Scenario.docked
              Scenario.dockedEntry)
    as (e' & He' & (Hpx & Hpy & Hvx & Hvy & _) & _).
  - reflexivity.
  - reflexivity.
  - reflexivity.
  - exists e'. repeat split; assumption.
Defined.

(** ** Snapping to a corner *)







Lemma Qle_bool_false (a b : Q) : Qle_bool a b = false → b < a.
Proof.
  intros H. destruct (Qlt_le_dec b a) as [|Hle]; [done |].
  apply Qle_bool_iff in Hle. congruence.
Qed.





(** ** Dragging *)










(** ** Registration and lookup *)

Lemma registerCommonActions_actions v :
  actions (registerCommonActions_ v) = actions v ++ commonActions.
Proof.
  unfold registerCommonActions_, registerAction, commonActions. cbn.
  by rewrite <- !app_assoc.
Qed.

Lemma newVideoEntry_actions doc v :
  actions (video (newVideoEntry doc v)) = actions v.
Proof.
  unfold newVideoEntry.
  apply (stable_impl (λ e, actions (video e) = actions v)); [| done].
  stable_entry; by cbn.
Qed.

Lemma register_returns v m :
  ∃ m' v', register v m = Done m' v' ∧ actions v' = actions v ++ commonActions.
Proof.
  unfold register. destruct (supportsPlatform _).
  - unfold maybeInstallVisibilityObserver_, maybeInstallPositionObserver_,
      when, bind, modify, gets, ret. cbn.
    repeat case_match; simplify_eq; eexists _, _; (split; [reflexivity |]);
      by rewrite newVideoEntry_actions, registerCommonActions_actions.
  - cbn. eexists _, _. split; [reflexivity |].
    apply registerCommonActions_actions.
Qed.

(** C10.  [register] wires the common actions [play], [pause], [mute] and
    [unmute] on every video, before it asks [supportsPlatform]: for a video
    the platform does not support the call returns with the four actions
    registered on the video and with the manager, the list of entries
    included, as it was. *)
Theorem C10_actions_before_platform_check (m : VideoManager) (v : Video) :
  supportsPlatform v = false →
  register v m = Done m (registerCommonActions_ v)
  ∧ actions (registerCommonActions_ v) = actions v ++ commonActions
  ∧ entries_ (final_state (register v m)) = entries_ m
  ∧ (∀ v0 m0, ∃ m' v',
       register v0 m0 = Done m' v'
       ∧ actions v' = actions v0 ++ commonActions).
Proof.
  intros Hv.
  assert (Hr : register v m = Done m (registerCommonActions_ v)).
  { unfold register.
    change (supportsPlatform (registerCommonActions_ v))
      with (supportsPlatform v).
    by rewrite Hv. }
  split; [exact Hr |]. split; [apply registerCommonActions_actions |].
  split; [by rewrite Hr |]. apply register_returns.
Qed.

(** The theorem on the unsupported video of the scenario, registered with a
    manager that holds a docked video. *)
Lemma C10_actions_before_platform_check_witness :
  register Scenario.unsupported Scenario.docked
  = Done Scenario.docked (registerCommonActions_ Scenario.unsupported)
  ∧ actions (registerCommonActions_ Scenario.unsupported) = commonActions.
Proof.
  destruct (C10_actions_before_platform_check Scenario.docked
              Scenario.unsupported) as (H1 & H2 & _).
  - reflexivity.
  - split; [exact H1 | exact H2].
Defined.

(** A lookup in a manager whose list of entries exists fails with the
    developer assertion when no entry holds the video. *)
Lemma getEntryForVideo_unregistered v m l :
  entries_ m = Some l →
  Forall (λ e, vid (video e) ≠ vid v) l →
  getEntryForVideo_ v m
  = Thrown m (AssertionError "video is not registered to this video manager")
  ∧ getPlayingState v m
    = Thrown m (AssertionError "video is not registered to this video manager")
  ∧ userInteractedWithAutoPlay v m
    = Thrown m (AssertionError "video is not registered to this video manager").
Proof.
  intros Hl Hnot.
  assert (Hfind : List.find (λ e, bool_decide (vid (video e) = vid v)) l
                  = None).
  { clear Hl. induction Hnot as [|e l He _ IH]; [done |]. cbn.
    rewrite bool_decide_eq_false_2 by done. exact IH. }
  assert (H : getEntryForVideo_ v m
              = Thrown m (AssertionError
                  "video is not registered to this video manager")).
  { unfold getEntryForVideo_. rewrite bind_gets, Hl. cbn. by rewrite Hfind. }
  split; [exact H |].
  unfold getPlayingState, userInteractedWithAutoPlay.
  split; by rewrite (bind_thrown _ _ _ _ _ H).
Qed.

(** C9 at a manager that has registered nothing but a video the platform
    does not support: [entries_] is still null, and the lookup of that video
    ends in the [TypeError] of reading [this.entries_.length], before the
    developer assertion is reached. *)
Theorem C9_lookup_without_entries :
  let m := final_state (register Scenario.unsupported
                          (newVideoManager Scenario.doc)) in
  entries_ m = None
  ∧ getPlayingState Scenario.unsupported m = Thrown m TypeError
  ∧ userInteractedWithAutoPlay Scenario.unsupported m = Thrown m TypeError.
Proof. by repeat split. Qed.

(** ** Undocking *)

Lemma classList_remove_contains c el :
  classList_contains c (classList_remove c el) = false.
Proof.
  unfold classList_contains, classList_remove. cbn [classList].
  induction (classList el) as [|c' l IH]; [done |].
  rewrite filter_cons. destruct (decide (c' ≠ c)) as [Hc|Hc]; [| exact IH].
  cbn. rewrite IH, orb_false_r. apply String.eqb_neq. congruence.
Qed.

Lemma controlsHidden_showControls v :
  controlsHidden (call CallShowControls v) = false.
Proof.
  unfold controlsHidden, call. cbn.
  rewrite List.filter_app. cbn. by rewrite last_snoc.
Qed.

Lemma unregisterDocked_run m l :
  entries_ m = Some l →
  unregisterDocked m
  = Done (set_entries_ (Some (set_hasBeenInViewBefore false <$> l))
            (set_dockedVideo_ None m)) tt.
Proof.
  intros Hl. unfold unregisterDocked, bind, modify, gets. cbn. by rewrite Hl.
Qed.

Lemma finishDocking_entries i m e el :
  entries m !! i = Some e →
  internalElement_ e = Some el →
  ∃ m', finishDocking_ i m = Done m' tt
        ∧ dockedVideo_ m' = None
        ∧ entries m'
          = <[i:=undocked e el]> (set_hasBeenInViewBefore false <$> entries m).
Proof.
  intros He Hel. unfold finishDocking_.
  set (e1 := set_video (call CallShowControls (video e))
               (set_dockingState_ INLINE
                  (set_internalElement_
                     (Some (clearStyleAttribute
                              (classList_remove DOCK_CLASS el))) e))).
  assert (H1 : this i
                 (updateInternalElement (classList_remove DOCK_CLASS);;
                  updateInternalElement clearStyleAttribute;;
                  assign set_dockingState_ INLINE;;
                  callVideo CallShowControls) m
               = Done (setEntry i e1 m) tt).
  { rewrite (this_run _ _ _ _ He).
    unfold updateInternalElement, assign, callVideo.
    rewrite bind_assoc, bind_gets, Hel. reflexivity. }
  rewrite (bind_done _ _ _ _ _ H1).
  rewrite (bind_done _ _ _ _ _
             (unregisterDocked_run (setEntry i e1 m) _ eq_refl)).
  set (m2 := set_entries_ _ _).
  assert (H2 : entries m2 !! i = Some (set_hasBeenInViewBefore false e1)).
  { change (entries m2)
      with (set_hasBeenInViewBefore false <$> <[i:=e1]> (entries m)).
    rewrite list_lookup_fmap, list_lookup_insert_eq; [done |].
    by eapply lookup_lt_Some. }
  rewrite (this_run _ _ _ _ H2). cbn [assign modify].
  eexists. split; [reflexivity |]. split; [reflexivity |].
  rewrite entries_setEntry.
  change (entries m2)
    with (set_hasBeenInViewBefore false <$> <[i:=e1]> (entries m)).
  by rewrite list_fmap_insert, list_insert_insert_eq.
Qed.

Lemma finishDocking_run i m e el :
  entries m !! i = Some e →
  internalElement_ e = Some el →
  ∃ m', finishDocking_ i m = Done m' tt
        ∧ dockedVideo_ m' = None
        ∧ entries m' !! i = Some (undocked e el).
Proof.
  intros He Hel.
  destruct (finishDocking_entries i m e el He Hel) as (m' & Hrun & Hs & Hm').
  exists m'. split; [done |]. split; [done |]. rewrite Hm'.
  apply list_lookup_insert_eq. rewrite length_fmap. by eapply lookup_lt_Some.
Qed.

Lemma initializeDocking_keeps_element i :
  stable (at_entry i (λ e, is_Some (internalElement_ e)))
         (initializeDocking_ i).
Proof. stable_at; by cbn. Qed.

Lemma animateDocking_keeps_element env i :
  stable (at_entry i (λ e, is_Some (internalElement_ e)))
         (animateDocking_ env i).
Proof. stable_at; by cbn. Qed.

(** C8, amended.  After a round trip of an inline video through
    [initializeDocking_] and [animateDocking_] to DOCKED, [finishDocking_]
    returns and leaves the player node without the docking class and with an
    empty style attribute, which is the style the node had before docking
    exactly when that style was empty; [showControls] is the last call made
    on the video, the entry is INLINE again and the docked slot of the
    manager is empty. *)
Theorem C8_round_trip_undock (env : Env) (i : nat) (m : VideoManager)
    (e : VideoEntry) (el : Element) :
  entries m !! i = Some e →
  internalElement_ e = Some el →
  dockingState_ e = INLINE →
  let docking := final_state (initializeDocking_ i m) in
  let docked := final_state (animateDocking_ env i docking) in
  dockingStateOf docked i = Some DOCKED →
  ∃ inline e3 el3,
    finishDocking_ i docked = Done inline tt
    ∧ entries inline !! i = Some e3
    ∧ internalElement_ e3 = Some el3
    ∧ classList_contains DOCK_CLASS el3 = false
    ∧ style el3 = []
    ∧ (style el3 = style el ↔ style el = [])
    ∧ last (calls (video e3)) = Some CallShowControls
    ∧ controlsHidden (video e3) = false
    ∧ dockingState_ e3 = INLINE
    ∧ dockedVideo_ inline = None.
Proof.
  intros He Hel Hinline docking docked _.
  assert (Hdocked : at_entry i (λ e, is_Some (internalElement_ e)) docked).
  { apply animateDocking_keeps_element, initializeDocking_keeps_element.
    exists e. by rewrite Hel. }
  destruct Hdocked as (e2 & He2 & el2 & Hel2).
  destruct (finishDocking_run i docked e2 el2 He2 Hel2)
    as (inline & Hrun & Hslot & He3).
  exists inline, (undocked e2 el2),
    (clearStyleAttribute (classList_remove DOCK_CLASS el2)).
  split; [exact Hrun |]. split; [exact He3 |]. split; [reflexivity |].
  split; [apply classList_remove_contains |]. split; [reflexivity |].
  split; [cbn; split; intros H; by rewrite H |].
  split; [cbn; apply last_snoc |].
  split; [apply controlsHidden_showControls |]. by split.
Qed.

(** The theorem on the video of the scenario, scrolled out of view while it
    plays inline. *)
Lemma C8_round_trip_undock_witness :
  let docking := final_state (initializeDocking_ 0 (Scenario.scrolledOut
                                                      Scenario.player)) in
  let docked := final_state (animateDocking_ Scenario.env 0 docking) in
  ∃ inline,
    finishDocking_ 0 docked = Done inline tt
    ∧ dockingStateOf docked 0 = Some DOCKED
    ∧ dockingStateOf inline 0 = Some INLINE
    ∧ playerStyleOf inline 0 = Some []
    ∧ dockedVideo_ inline = None.
Proof.
  intros docking docked.
  assert (H : ∃ e el,
             entries (Scenario.scrolledOut Scenario.player) !! 0%nat = Some e
             ∧ internalElement_ e = Some el
             ∧ dockingState_ e = INLINE).
  { vm_compute. eexists _, _. repeat split. }
  destruct H as (e & el & He & Hel & Hinline).
  destruct (C8_round_trip_undock Scenario.env 0
              (Scenario.scrolledOut Scenario.player) e el He Hel Hinline)
    as (inline & e3 & el3 & Hrun & He3 & Hel3 & _ & Hstyle & _ & _ & _
        & Hstate & Hslot).
  - vm_compute. reflexivity.
  - exists inline. split; [exact Hrun |].
    split; [vm_compute; reflexivity |].
    unfold dockingStateOf, playerStyleOf. rewrite He3.
    change (dockingState_ <$> Some e3) with (Some (dockingState_ e3)).
    change (Some e3 ≫= internalElement_) with (internalElement_ e3).
    rewrite Hstate, Hel3.
    change (style <$> Some el3) with (Some (style el3)).
    rewrite Hstyle. split; [reflexivity |]. split; [reflexivity |].
    exact Hslot.
Defined.

(** C8 as stated fails where the player node had an inline style of its own
    before docking: after the round trip through DOCKED back to INLINE the
    style attribute is empty, not the style the node had. *)
Lemma C8_counterexample :
  let before := run (Scenario.playing Scenario.styledPlayer)
                    (newVideoManager Scenario.doc) in
  let docked := step before (PositionChanged 0 Scenario.env Scenario.above) in
  let after := step docked (PositionChanged 0 Scenario.env Scenario.inView) in
  dockingStateOf before 0 = Some INLINE
  ∧ dockingStateOf docked 0 = Some DOCKED
  ∧ dockingStateOf after 0 = Some INLINE
  ∧ playerStyleOf before 0 = Some [("opacity", Keyword "0.5")]
  ∧ playerStyleOf after 0 = Some []
  ∧ playerStyleOf after 0 ≠ playerStyleOf before 0.
Proof. vm_compute. by repeat split. Qed.

(** ** Entering DOCKED *)

(** C7 at a video that is scrolled out of view, halfway back, and out of
    view again.  The first time the scale reaches [DOCK_SCALE] the entry
    becomes DOCKED with the controls hidden, the docking class on the player
    node, the mask and the listeners installed and a run of [drag_] queued.
    Scrolling halfway back removes the mask and ends the loop, but leaves
    [dragListenerInstalled_] set; so the second time [initializeDragging_]
    returns at once, the entry becomes DOCKED without a mask, and [drag_]
    throws on the missing mask before it queues its next run. *)
Theorem C7_redock_without_drag_controller :
  let init := newVideoManager Scenario.doc in
  let first := run (Scenario.playing Scenario.player
                    ++ [PositionChanged 0 Scenario.env Scenario.above]) init in
  let back := run Scenario.scrolledBack init in
  let again := handler (PositionChanged 0 Scenario.env Scenario.above) back in
  reportOf first 0 = Some (mkDockingReport DOCKED true true true true 1)
  ∧ reportOf back 0 = Some (mkDockingReport DOCKING true true true false 0)
  ∧ thrown again = Some (AssertionError "Element expected")
  ∧ reportOf (final_state again) 0
    = Some (mkDockingReport DOCKED true true true false 0)
  ∧ step back (PositionChanged 0 Scenario.env Scenario.above)
    = final_state again.
Proof. vm_compute. by repeat split. Qed.

(** ** The single docked video *)

#[global] Arguments classList_contains : simpl never.
#[global] Arguments classList_remove : simpl never.
#[global] Arguments classList_add : simpl never.
#[global] Arguments el_setStyles : simpl never.
#[global] Arguments clearStyleAttribute : simpl never.

Lemma classList_el_setStyles kvs el :
  classList (el_setStyles kvs el) = classList el.
Proof. reflexivity. Qed.

Lemma contains_el_setStyles c kvs el :
  classList_contains c (el_setStyles kvs el) = classList_contains c el.
Proof. reflexivity. Qed.

Lemma contains_clearStyleAttribute c el :
  classList_contains c (clearStyleAttribute el) = classList_contains c el.
Proof. reflexivity. Qed.

(** Closing the goal of an assignment when the property is [clean]. *)
Ltac clean_leaf :=
  unfold clean, hasDockClass, queryPlayerNode, withElementOf in *;
  repeat first
    [ done
    | progress cbn in *
    | progress simplify_eq
    | match goal with
      | H : _ && _ = true |- _ => apply andb_true_iff in H as [? ?]
      | |- _ && _ = true => apply andb_true_iff; split
      end
    | progress rewrite ?contains_el_setStyles, ?contains_clearStyleAttribute,
        ?classList_remove_contains in *
    | case_match
    | match goal with t : SnapTarget |- _ => destruct t end
    | match goal with H : _ <$> ?o = Some _ |- _ => destruct o eqn:? end ].

Ltac keeps_clean := stable_entry; clean_leaf.

Lemma updateDockableVideoPosition_clean env p :
  stable (λ e, clean e = true) (updateDockableVideoPosition_ env p).
Proof. keeps_clean. Qed.

Lemma videoLoaded_clean vv sa :
  stable (λ e, clean e = true) (videoLoaded vv sa).
Proof. keeps_clean. Qed.

Lemma updateVisibility_clean r vv sa :
  stable (λ e, clean e = true) (updateVisibility r vv sa).
Proof. keeps_clean. Qed.

Lemma snapDone_clean : stable (λ e, clean e = true) snapDone.
Proof. keeps_clean. Qed.

Lemma onTouchStart_clean ev : stable (λ e, clean e = true) (onTouchStart ev).
Proof. keeps_clean. Qed.
Lemma onTouchMove_clean ev : stable (λ e, clean e = true) (onTouchMove ev).
Proof. keeps_clean. Qed.



Lemma dockedVideo_this {A} i (c : M VideoEntry A) m :
  dockedVideo_ (final_state (this i c m)) = dockedVideo_ m.
Proof.
  destruct (entries m !! i) as [e|] eqn:He.
  - by rewrite (final_state_this _ _ _ _ He).
  - by rewrite this_missing.
Qed.








Lemma hoare_bind {S A B} (P R Q : S → Prop) (c : M S A) (k : A → M S B) :
  hoare P c R → (∀ s, R s → Q s) → (∀ a, hoare R (k a) Q) →
  hoare P (bind c k) Q.
Proof.
  intros Hc HRQ Hk s Hs. rewrite final_state_bind. specialize (Hc s Hs).
  destruct (c s); [by apply Hk | by apply HRQ].
Qed.

Lemma hoare_stable {S A} (P : S → Prop) (c : M S A) :
  stable P c → hoare P c P.
Proof. done. Qed.

Lemma hoare_weaken {S A} (P P' Q Q' : S → Prop) (c : M S A) :
  hoare P' c Q' → (∀ s, P s → P' s) → (∀ s, Q' s → Q s) → hoare P c Q.
Proof. intros Hc HP HQ s Hs. apply HQ, Hc, HP, Hs. Qed.

Lemma finishDocking_block_clean :
  stable (λ e, clean e = true)
    (updateInternalElement (classList_remove DOCK_CLASS);;
     updateInternalElement clearStyleAttribute;;
     assign set_dockingState_ INLINE;;
     callVideo CallShowControls).
Proof. keeps_clean. Qed.








Lemma hoare_bind_this_get {B} (P Q : VideoManager → Prop) i
    (k : VideoEntry → M VideoManager B) :
  (∀ e, hoare (λ m, P m ∧ entries m !! i = Some e) (k e) Q) →
  (∀ m, P m → Q m) →
  hoare P (bind (this i get) k) Q.
Proof.
  intros Hk HPQ m Hm. rewrite final_state_bind, this_get.
  destruct (entries m !! i) as [e|] eqn:He; [by apply Hk | by apply HPQ].
Qed.


Lemma hoare_ret {S A} (P Q : S → Prop) (a : A) :
  (∀ s, P s → Q s) → hoare P (ret a) Q.
Proof. intros H s Hs. by apply H. Qed.













Lemma newVideoEntry_clean doc v : clean (newVideoEntry doc v) = true.
Proof.
  unfold newVideoEntry.
  apply (stable_impl (λ e, clean e = true)); [keeps_clean | done].
Qed.

Lemma register_entries v m :
  dockedVideo_ (final_state (register v m)) = dockedVideo_ m
  ∧ ∃ added,
      entries (final_state (register v m)) = entries m ++ added
      ∧ Forall (λ e, clean e = true) added.
Proof.
  unfold register. destruct (supportsPlatform _).
  - unfold maybeInstallVisibilityObserver_, maybeInstallPositionObserver_,
      when, bind, modify, gets, ret. cbn.
    repeat case_match; simplify_eq; cbn; (split; [done |]);
      eexists [_]; (split; [reflexivity |]);
      repeat constructor; apply newVideoEntry_clean.
  - cbn. split; [done |]. exists []. by rewrite app_nil_r.
Qed.


Lemma register_frame v i (P : VideoEntry → Prop) :
  stable (at_entry i P) (register v).
Proof.
  intros m (e & He & HP).
  destruct (register_entries v m) as (_ & added & Hadd & _).
  exists e. rewrite Hadd. split; [by apply lookup_app_l_Some | done].
Qed.








(** Two dockable videos on one page: while the first is docked the second,
    scrolled out of view in its turn, stays inline; once the first is back
    inline the second docks. *)
Example two_videos_one_slot :
  let second := mkVideo 1 true true true false false (Some []) [] [] [] in
  let ready :=
    Scenario.playing Scenario.player
    ++ [Register second;
        DockableBuilt 1 (layoutRectLtwh 0 400 300 200);
        Loaded 1 true false; Playing 1;
        PositionChanged 1 Scenario.env Scenario.inView] in
  let firstOut := ready ++ [PositionChanged 0 Scenario.env Scenario.above] in
  let bothOut := firstOut ++ [PositionChanged 1 Scenario.env Scenario.above] in
  let firstBack :=
    bothOut
    ++ [PositionChanged 0 Scenario.env Scenario.inView;
        PositionChanged 1 Scenario.env Scenario.inView;
        PositionChanged 1 Scenario.env Scenario.above] in
  let states evs :=
    dockingState_ <$> entries (run evs (newVideoManager Scenario.doc)) in
  states ready = [INLINE; INLINE]
  ∧ states firstOut = [DOCKED; INLINE]
  ∧ states bothOut = [DOCKED; INLINE]
  ∧ states firstBack = [INLINE; DOCKED].
Proof. vm_compute. by repeat split. Qed.

(** * Further properties *)

(** ** Invariants of every entry *)

Lemma all_entries_this {A} (P : VideoEntry → Prop) i (c : M VideoEntry A) :
  stable P c → stable (all_entries P) (this i c).
Proof.
  intros Hc m Hm. destruct (entries m !! i) as [e|] eqn:He.
  - rewrite (final_state_this _ _ _ _ He). intros j ej.
    rewrite entries_setEntry. destruct (decide (i = j)) as [->|Hij].
    + rewrite list_lookup_insert_eq by (by eapply lookup_lt_Some).
      intros [= <-]. by apply Hc, (Hm j).
    + rewrite list_lookup_insert_ne by done. apply Hm.
  - by rewrite this_missing.
Qed.

Lemma all_entries_registerDocked (P : VideoEntry → Prop) k :
  stable (all_entries P) (registerDocked k).
Proof. intros m H. exact H. Qed.

Lemma all_entries_unregisterDocked (P : VideoEntry → Prop) :
  (∀ e, P e → P (set_hasBeenInViewBefore false e)) →
  stable (all_entries P) unregisterDocked.
Proof.
  intros HP m Hm. unfold unregisterDocked, bind, modify, gets, deref. cbn.
  destruct (entries_ m) as [l|] eqn:Hl; cbn; [| exact Hm].
  intros j e. unfold entries. cbn. rewrite list_lookup_fmap.
  destruct (l !! j) as [e0|] eqn:Hj; [| done]. intros [= <-].
  apply HP, (Hm j). by rewrite (entries_Some _ _ Hl).
Qed.

Lemma register_added v m :
  entries (final_state (register v m))
  = entries m
    ++ (if supportsPlatform v
        then [newVideoEntry (ampdoc_ m) (registerCommonActions_ v)] else []).
Proof.
  unfold register.
  change (supportsPlatform (registerCommonActions_ v))
    with (supportsPlatform v).
  destruct (supportsPlatform v); [| by rewrite app_nil_r].
  unfold maybeInstallVisibilityObserver_, maybeInstallPositionObserver_,
    when, bind, modify, gets, ret. cbn.
  repeat case_match; simplify_eq; reflexivity.
Qed.

Lemma all_entries_register (P : VideoEntry → Prop) v :
  (∀ doc v, P (newVideoEntry doc v)) → stable (all_entries P) (register v).
Proof.
  intros HP m Hm j e. rewrite register_added.
  intros [Hj|[_ Hj]]%lookup_app_Some; [by eapply Hm |].
  destruct (supportsPlatform v); [| done].
  apply list_elem_of_lookup_2, list_elem_of_singleton in Hj. subst. apply HP.
Qed.

Lemma all_entries_step (P : VideoEntry → Prop) m ev :
  stable (all_entries P) (handler ev) →
  all_entries P m → all_entries P (step m ev).
Proof. intros H Hm. unfold step. destruct (occurs ev m); [by apply H | done]. Qed.

Lemma all_entries_run (P : VideoEntry → Prop) evs m :
  (∀ ev, stable (all_entries P) (handler ev)) →
  all_entries P m → all_entries P (run evs m).
Proof.
  intros H. revert m. induction evs as [|ev evs IH]; intros m Hm; [done |].
  cbn. by apply IH, all_entries_step.
Qed.

Lemma all_entries_new (P : VideoEntry → Prop) doc :
  all_entries P (newVideoManager doc).
Proof. by intros j e Hj. Qed.

Ltac all_entries_step :=
  first
    [ stable_step
    | apply all_entries_this; stable_entry
    | apply all_entries_registerDocked
    | apply all_entries_unregisterDocked; intros ? ?
    | apply all_entries_register; intros ? ? ].

Ltac all_entries_handler :=
  unfold handler; cbv zeta; autounfold with manager_methods;
  repeat all_entries_step.

Lemma mouse_dragging_touched ev b : stable dragging_touched (mouse_ ev b).
Proof. stable_entry; unfold dragging_touched in *; stable_leaf. Qed.

Lemma onTouchStart_dragging_touched ev :
  stable dragging_touched (onTouchStart ev).
Proof.
  intros e _. unfold onTouchStart, assign. rewrite !bind_modify.
  apply mouse_dragging_touched. by unfold dragging_touched.
Qed.

Lemma onTouchEnd_dragging_touched : stable dragging_touched onTouchEnd.
Proof. by intros e _. Qed.

Lemma onTouchMove_dragging_touched ev :
  stable dragging_touched (onTouchMove ev).
Proof.
  intros e _. unfold onTouchMove, assign. rewrite bind_gets, bind_modify.
  apply mouse_dragging_touched. by unfold dragging_touched.
Qed.

Lemma newVideoEntry_dragging_touched doc v :
  dragging_touched (newVideoEntry doc v).
Proof.
  unfold newVideoEntry. apply (stable_impl dragging_touched); [| done].
  stable_entry; unfold dragging_touched in *; stable_leaf.
Qed.

Lemma handler_dragging_touched ev :
  stable (all_entries dragging_touched) (handler ev).
Proof.
  destruct ev;
    try (apply all_entries_this;
         first [ apply onTouchStart_dragging_touched
               | apply onTouchEnd_dragging_touched
               | apply onTouchMove_dragging_touched ]);
    all_entries_handler;
    try apply newVideoEntry_dragging_touched;
    unfold dragging_touched in *; stable_leaf.
Qed.

(** X1.  In every state the manager reaches from a fresh one, an entry whose
    drag flag [isDragging_] is set has the pointer down on it ([isTouched_]):
    no listener sets the first without the second. *)
Theorem dragging_only_while_touched
    (doc : AmpDoc) (evs : list Event) (i : nat) (e : VideoEntry) :
  entries (run evs (newVideoManager doc)) !! i = Some e →
  isDragging_ e = true →
  isTouched_ e = true.
Proof.
  intros He.
  exact (all_entries_run dragging_touched evs (newVideoManager doc)
           handler_dragging_touched (all_entries_new _ doc) i e He).
Qed.

(** The theorem after the docked video of the scenario was grabbed and moved.
    *)
Lemma dragging_only_while_touched_witness :
  ∃ e, entries (run Sample.grabbed (newVideoManager Scenario.doc)) !! 0%nat
       = Some e
       ∧ isDragging_ e = true ∧ isTouched_ e = true.
Proof.
  assert (H : ∃ e, entries (run Sample.grabbed (newVideoManager Scenario.doc))
                   !! 0%nat = Some e
                   ∧ isDragging_ e = true).
  { vm_compute. eexists. split; reflexivity. }
  destruct H as (e & He & Hd). exists e.
  split; [exact He |]. split; [exact Hd |].
  exact (dragging_only_while_touched Scenario.doc Sample.grabbed 0 e He Hd).
Defined.

(** ** Autoplay only for autoplay videos *)

Lemma autoplay_ready_ok e : autoplay_ready e → autoplay_started_ok e.
Proof. by intros (? & ? & ?). Qed.

Lemma autoplay_idle_ok e : autoplay_idle e → autoplay_started_ok e.
Proof. intros (? & H). split; [done |]. by rewrite H. Qed.

Lemma loadedVideoVisibilityChanged_ready vv sa :
  stable autoplay_ready (loadedVideoVisibilityChanged_ vv sa).
Proof. stable_entry; unfold autoplay_ready in *; stable_leaf. Qed.

Lemma loadedVideoVisibilityChanged_idle vv sa e :
  hasAutoplay e = false →
  final_state (loadedVideoVisibilityChanged_ vv sa e) = e.
Proof.
  intros Ha. unfold loadedVideoVisibilityChanged_.
  destruct vv; cbn [negb]; [| reflexivity]. rewrite bind_get. by rewrite Ha.
Qed.

Lemma videoVisibilityChanged_ok vv sa :
  stable autoplay_started_ok (videoVisibilityChanged_ vv sa).
Proof.
  intros e [He Hp]. unfold videoVisibilityChanged_. rewrite bind_gets.
  destruct (loaded_ e) eqn:Hl; [| split; [exact He | intros H; by destruct (Hp H)]]. cbn [when].
  destruct (hasAutoplay e) eqn:Ha.
  - apply autoplay_ready_ok, loadedVideoVisibilityChanged_ready.
    unfold autoplay_ready. by rewrite Ha, Hl.
  - rewrite loadedVideoVisibilityChanged_idle by done.
    split; [by rewrite Ha | intros H; by destruct (Hp H)].
Qed.

Lemma updateVisibility_ok r vv sa :
  stable autoplay_started_ok (updateVisibility r vv sa).
Proof.
  unfold updateVisibility, updateVisibility_measure, assign.
  repeat first [apply videoVisibilityChanged_ok | stable_step];
    unfold autoplay_started_ok in *; stable_leaf.
Qed.

Lemma videoLoaded_tail_ready vv sa :
  stable autoplay_ready
    (modify (λ e, set_internalElement_ (queryPlayerNode e) e);;
     visible ← gets isVisible_;
     when visible (loadedVideoVisibilityChanged_ vv sa)).
Proof. stable_entry; unfold autoplay_ready in *; stable_leaf. Qed.

Lemma videoLoaded_ok vv sa : stable autoplay_started_ok (videoLoaded vv sa).
Proof.
  intros e [He Hp]. unfold videoLoaded, assign. rewrite bind_modify.
  destruct (hasAutoplay e) eqn:Ha.
  - apply autoplay_ready_ok, videoLoaded_tail_ready.
    unfold autoplay_ready. cbn. by rewrite Ha.
  - rewrite bind_modify, bind_gets.
    assert (Hi : autoplay_idle
                   (set_internalElement_
                      (queryPlayerNode (set_loaded_ true e))
                      (set_loaded_ true e))).
    { split; [by cbn; rewrite Ha |]. cbn.
      destruct (playCalledByAutoplay_ e); [| done]. by destruct Hp. }
    destruct (isVisible_ _); cbn [when].
    + rewrite loadedVideoVisibilityChanged_idle by done.
      by apply autoplay_idle_ok.
    + by apply autoplay_idle_ok.
Qed.

Lemma newVideoEntry_autoplay doc v : autoplay_started_ok (newVideoEntry doc v).
Proof.
  unfold newVideoEntry. apply (stable_impl autoplay_started_ok); [| done].
  stable_entry; unfold autoplay_started_ok in *; stable_leaf.
Qed.

Lemma handler_autoplay_started_ok ev :
  stable (all_entries autoplay_started_ok) (handler ev).
Proof.
  destruct ev;
    try (apply all_entries_this;
         first [ apply videoLoaded_ok | apply updateVisibility_ok ]);
    all_entries_handler;
    try apply newVideoEntry_autoplay;
    unfold autoplay_started_ok in *; stable_leaf.
Qed.

(** X2.  Whatever events occurred, an entry whose playing state is
    PLAYING_AUTO belongs to a video with the autoplay attribute, is loaded,
    and the user has not interacted with it. *)
Theorem autoplay_state_only_for_autoplay_videos
    (doc : AmpDoc) (evs : list Event) (i : nat) (e : VideoEntry) :
  entries (run evs (newVideoManager doc)) !! i = Some e →
  entry_getPlayingState e = PLAYING_AUTO →
  autoplayAttribute (video e) = true ∧ loaded_ e = true
  ∧ userInteractedWithAutoPlay_ e = false.
Proof.
  intros He Hs.
  destruct (all_entries_run autoplay_started_ok evs (newVideoManager doc)
              handler_autoplay_started_ok (all_entries_new _ doc) i e He)
    as [Ha Hp].
  unfold entry_getPlayingState in Hs.
  destruct (isPlaying_ e); [| done]. cbn in Hs.
  destruct (playCalledByAutoplay_ e); [| done]. cbn in Hs.
  destruct (userInteractedWithAutoPlay_ e); [done |].
  destruct Hp as [Hp1 Hp2]; [done |]. by rewrite <- Ha.
Qed.

(** The theorem on an autoplay video that was loaded, seen in full and
    started. *)
Lemma autoplay_state_only_for_autoplay_videos_witness :
  ∃ e, entries (run Sample.autoplaying (newVideoManager Scenario.doc)) !! 0%nat
       = Some e
       ∧ entry_getPlayingState e = PLAYING_AUTO
       ∧ autoplayAttribute (video e) = true ∧ loaded_ e = true
       ∧ userInteractedWithAutoPlay_ e = false.
Proof.
  assert (H : ∃ e, entries (run Sample.autoplaying
                              (newVideoManager Scenario.doc)) !! 0%nat
                   = Some e
                   ∧ entry_getPlayingState e = PLAYING_AUTO).
  { vm_compute. eexists. split; reflexivity. }
  destruct H as (e & He & Hs). exists e.
  split; [exact He |]. split; [exact Hs |].
  exact (autoplay_state_only_for_autoplay_videos Scenario.doc
           Sample.autoplaying 0 e He Hs).
Defined.

(** ** Entries that are not inline *)


Ltac docked_leaf :=
  unfold docked_ok, docking_ready, hasDockClass, queryPlayerNode,
    withElementOf in *;
  repeat first
    [ done
    | progress cbn in *
    | progress simplify_eq
    | progress rewrite ?contains_el_setStyles, ?contains_clearStyleAttribute
        in *
    | case_match
    | match goal with t : SnapTarget |- _ => destruct t end
    | match goal with H : _ <$> ?o = Some _ |- _ => destruct o eqn:? end
    | match goal with
      | H : _ ∧ _ |- _ => destruct H
      | H : _ ∨ _ |- _ => destruct H
      | |- _ ∧ _ => split
      | |- _ ∨ _ => first [by left | right]
      end ].

Ltac keeps_docked := stable_entry; docked_leaf.

Lemma updateDockableVideoPosition_docked_ok env p :
  stable docked_ok (updateDockableVideoPosition_ env p).
Proof. keeps_docked. Qed.










Lemma classList_add_contains c el :
  classList_contains c (classList_add c el) = true.
Proof.
  unfold classList_add. destruct (classList_contains c el) eqn:H; [done |].
  unfold classList_contains. cbn [classList].
  rewrite existsb_app. cbn [existsb]. by rewrite String.eqb_refl, orb_true_r.
Qed.









(** ** After an interaction *)

Lemma stable_this_any {A} i k P (c : M VideoEntry A) :
  stable P c → stable (at_entry i P) (this k c).
Proof.
  intros Hc. destruct (decide (i = k)) as [->|Hik];
    [by apply stable_this_at | by apply stable_this_other].
Qed.

Lemma autoplayCalls_call c v :
  c ≠ CallPlay true → autoplayCalls (call c v) = autoplayCalls v.
Proof.
  intros Hc. unfold autoplayCalls, call. cbn. rewrite List.filter_app. cbn.
  destruct c as [[]| | | | |]; by rewrite ?app_nil_r.
Qed.

Ltac interacted_leaf :=
  unfold interacted in *;
  repeat first
    [ done
    | progress cbn [userInteractedWithAutoPlay_ video set_video set_loaded_
        set_isPlaying_ set_isVisible_ set_userInteractedWithAutoPlay_
        set_playCalledByAutoplay_ set_pauseCalledByAutoplay_
        set_initialRect_ set_minimizePosition_ set_dockingState_
        set_visibleHeight_ set_internalElement_ set_muted_ set_draggingMask_
        set_pageDir_ set_lastPosition_ set_dragListenerInstalled_
        set_isTouched_ set_isDragging_ set_isSnapping_ set_isDismissed_
        set_dragCoordinates_ set_hasBeenInViewBefore set_hasDocking
        set_hasAutoplay set_scheduledDrag set_snapAnimations withElementOf
        addElementClass calls] in *
    | rewrite autoplayCalls_call by done
    | case_match
    | match goal with t : SnapTarget |- _ => destruct t end
    | match goal with H : _ ∧ _ |- _ => destruct H end
    | split ].

Lemma loadedVideoVisibilityChanged_interacted n vv sa e :
  interacted n e → final_state (loadedVideoVisibilityChanged_ vv sa e) = e.
Proof.
  intros [Hu _]. unfold loadedVideoVisibilityChanged_.
  destruct vv; cbn [negb]; [| reflexivity].
  rewrite bind_get, Hu. cbn [negb]. by rewrite andb_false_r.
Qed.

Lemma stable_loadedVideoVisibilityChanged_interacted n vv sa :
  stable (interacted n) (loadedVideoVisibilityChanged_ vv sa).
Proof.
  intros e He. by rewrite (loadedVideoVisibilityChanged_interacted n).
Qed.

Lemma videoLoaded_interacted n vv sa : stable (interacted n) (videoLoaded vv sa).
Proof.
  unfold videoLoaded, assign.
  repeat first
    [ apply stable_loadedVideoVisibilityChanged_interacted | stable_step ];
    interacted_leaf.
Qed.

Lemma updateVisibility_interacted n r vv sa :
  stable (interacted n) (updateVisibility r vv sa).
Proof.
  unfold updateVisibility, updateVisibility_measure, videoVisibilityChanged_,
    assign.
  repeat first
    [ apply stable_loadedVideoVisibilityChanged_interacted | stable_step ];
    interacted_leaf.
Qed.

Lemma handler_interacted n ev i :
  stable (at_entry i (interacted n)) (handler ev).
Proof.
  destruct ev; unfold handler; cbv zeta; autounfold with manager_methods;
    repeat first
      [ apply stable_this_any;
        first [ apply videoLoaded_interacted
              | apply updateVisibility_interacted
              | stable_entry ]
      | stable_step
      | apply stable_registerDocked_at
      | apply stable_unregisterDocked_at; intros ? ?
      | apply register_frame ];
    interacted_leaf.
Qed.

Lemma run_at_entry (P : VideoEntry → Prop) i evs m :
  (∀ ev, stable (at_entry i P) (handler ev)) →
  at_entry i P m → at_entry i P (run evs m).
Proof.
  intros H. revert m. induction evs as [|ev evs IH]; intros m Hm; [done |].
  cbn. apply IH. unfold step. destruct (occurs ev m); [by apply H | done].
Qed.

(** X4.  Once the user has interacted with an autoplay video this stays so,
    whatever events follow: the entry does not report PLAYING_AUTO again, and
    autoplay does not call [play(true)] on the video again. *)
Theorem interaction_ends_autoplay
    (m : VideoManager) (evs : list Event) (i : nat) (e : VideoEntry) :
  entries m !! i = Some e →
  userInteractedWithAutoPlay_ e = true →
  ∃ e', entries (run evs m) !! i = Some e'
        ∧ userInteractedWithAutoPlay_ e' = true
        ∧ entry_getPlayingState e' ≠ PLAYING_AUTO
        ∧ length (autoplayCalls (video e'))
          = length (autoplayCalls (video e)).
Proof.
  intros He Hu.
  destruct (run_at_entry (interacted (length (autoplayCalls (video e))))
              i evs m (λ ev, handler_interacted _ ev i))
    as (e' & He' & Hu' & Hn); [by exists e |].
  exists e'. repeat split; try done.
  unfold entry_getPlayingState. rewrite Hu'.
  destruct (isPlaying_ e'); cbn; [| done]. by rewrite andb_false_r.
Qed.

(** The theorem on an autoplay video the user clicked on, which then scrolls
    out of view and back in. *)
Lemma interaction_ends_autoplay_witness :
  ∃ e', entries (run Sample.scrolling Sample.interactedWith) !! 0%nat = Some e'
        ∧ userInteractedWithAutoPlay_ e' = true
        ∧ entry_getPlayingState e' ≠ PLAYING_AUTO
        ∧ length (autoplayCalls (video e')) = 1%nat.
Proof.
  assert (H : ∃ e, entries Sample.interactedWith !! 0%nat = Some e
                   ∧ userInteractedWithAutoPlay_ e = true
                   ∧ length (autoplayCalls (video e)) = 1%nat).
  { vm_compute. eexists. repeat split. }
  destruct H as (e & He & Hu & Hn).
  destruct (interaction_ends_autoplay Sample.interactedWith Sample.scrolling
              0 e He Hu) as (e' & He' & Hu' & Hs' & Hn').
  exists e'. split; [exact He' |]. split; [exact Hu' |].
  split; [exact Hs' |]. rewrite Hn'. exact Hn.
Defined.

(** ** Registration and lookup *)

Lemma register_entries_ v m :
  supportsPlatform v = true →
  entries_ (final_state (register v m))
  = Some (entries m ++ [newVideoEntry (ampdoc_ m) (registerCommonActions_ v)]).
Proof.
  intros Hv. unfold register.
  change (supportsPlatform (registerCommonActions_ v))
    with (supportsPlatform v).
  rewrite Hv.
  unfold maybeInstallVisibilityObserver_, maybeInstallPositionObserver_,
    when, bind, modify, gets, ret, entries. cbn.
  repeat case_match; simplify_eq; reflexivity.
Qed.

(** What the constructor leaves of the video it is given, and the playing
    flags it starts with. *)
Lemma newVideoEntry_fresh doc v :
  vid (video (newVideoEntry doc v)) = vid v
  ∧ isPlaying_ (newVideoEntry doc v) = false
  ∧ userInteractedWithAutoPlay_ (newVideoEntry doc v) = false.
Proof.
  unfold newVideoEntry.
  apply (stable_impl
           (λ e, vid (video e) = vid v ∧ isPlaying_ e = false
                 ∧ userInteractedWithAutoPlay_ e = false)); [| done].
  stable_entry; by cbn.
Qed.

Lemma find_snoc_new {A} (f : A → bool) l a :
  Forall (λ b, f b = false) l → f a = true →
  List.find f (l ++ [a]) = Some a.
Proof.
  intros Hl Ha. induction Hl as [|b l Hb _ IH]; cbn; [by rewrite Ha |].
  by rewrite Hb.
Qed.

(** X5.  After [register] of a video the platform supports, the lookup finds
    an entry of that video; if the video was not registered before, its
    playing state is PAUSED and no interaction with autoplay is recorded. *)
Theorem register_then_lookup (m : VideoManager) (v : Video) :
  supportsPlatform v = true →
  let m' := final_state (register v m) in
  (∃ e, getEntryForVideo_ v m' = Done m' (Some e) ∧ vid (video e) = vid v)
  ∧ (Forall (λ e, vid (video e) ≠ vid v) (entries m) →
     getPlayingState v m' = Done m' PAUSED
     ∧ userInteractedWithAutoPlay v m' = Done m' false).
Proof.
  intros Hv m'. pose proof (register_entries_ v m Hv) as Hl. fold m' in Hl.
  set (new := newVideoEntry (ampdoc_ m) (registerCommonActions_ v)) in Hl.
  destruct (newVideoEntry_fresh (ampdoc_ m) (registerCommonActions_ v))
    as (Hvid & Hplay & Huser).
  fold new in Hvid, Hplay, Huser. change (vid (registerCommonActions_ v))
    with (vid v) in Hvid.
  split.
  - unfold getEntryForVideo_. rewrite bind_gets, Hl. cbn [deref].
    rewrite bind_ret.
    destruct (List.find _ _) as [e|] eqn:Hfind.
    + exists e. split; [done |].
      apply List.find_some in Hfind as [_ He].
      by apply bool_decide_eq_true in He.
    + pose proof (List.find_none _ _ Hfind new) as Hnew. cbn in Hnew.
      rewrite bool_decide_eq_true_2 in Hnew by done.
      exfalso. apply diff_true_false, Hnew, in_or_app. right. by left.
  - intros Hnot.
    assert (Hfind : getEntryForVideo_ v m' = Done m' (Some new)).
    { unfold getEntryForVideo_. rewrite bind_gets, Hl. cbn [deref].
      rewrite bind_ret. rewrite find_snoc_new; [done | |].
      - eapply Forall_impl; [exact Hnot |]. intros e He. cbn.
        by apply bool_decide_eq_false_2.
      - by apply bool_decide_eq_true_2. }
    unfold getPlayingState, userInteractedWithAutoPlay.
    rewrite !(bind_done _ _ _ _ _ Hfind). cbn.
    unfold entry_getPlayingState, entry_userInteractedWithAutoPlay.
    by rewrite Hplay, Huser.
Qed.

(** The theorem on the video of the scenario and a fresh manager. *)
Lemma register_then_lookup_witness :
  let m' := final_state
              (register Scenario.player (newVideoManager Scenario.doc)) in
  (∃ e, getEntryForVideo_ Scenario.player m' = Done m' (Some e)
        ∧ vid (video e) = 0%nat)
  ∧ getPlayingState Scenario.player m' = Done m' PAUSED
  ∧ userInteractedWithAutoPlay Scenario.player m' = Done m' false.
Proof.
  intros m'.
  destruct (register_then_lookup (newVideoManager Scenario.doc)
              Scenario.player eq_refl) as [Hfound Hfresh].
  split; [exact Hfound |]. apply Hfresh. constructor.
Defined.

(** ** Visibility and autoplay *)



Lemma updateVisibility_changed e ratio vv sa :
  loaded_ e = true →
  isVisible_ e
  = negb (js_ge (visiblePercent ratio) (Finite VISIBILITY_PERCENT)) →
  updateVisibility ratio vv sa e
  = loadedVideoVisibilityChanged_ vv sa
      (set_isVisible_
         (js_ge (visiblePercent ratio) (Finite VISIBILITY_PERCENT)) e).
Proof.
  intros Hl Hv.
  unfold updateVisibility, updateVisibility_measure, assign.
  rewrite bind_gets, bind_modify, bind_gets. cbn [isVisible_ set_isVisible_].
  rewrite Hv. unfold videoVisibilityChanged_.
  destruct (js_ge _ _); cbn [negb eqb when]; rewrite bind_gets;
    cbn [loaded_ set_isVisible_]; by rewrite Hl.
Qed.

(** X7.  For a loaded autoplay video the user has not interacted with,
    [updateVisibility] across the visibility threshold, with the viewer
    visible and autoplay supported, calls [play(true)] when the video became
    visible and [pause()] when it became hidden, and records which of the two
    autoplay called; with an invisible viewer or without autoplay support it
    makes no call. *)
Theorem autoplay_follows_visibility (e : VideoEntry) (ratio : JsNumber) :
  loaded_ e = true →
  hasAutoplay e = true →
  userInteractedWithAutoPlay_ e = false →
  let visible := js_ge (visiblePercent ratio) (Finite VISIBILITY_PERCENT) in
  isVisible_ e = negb visible →
  let e' := final_state (updateVisibility ratio true true e) in
  calls (video e')
  = calls (video e) ++ [if visible then CallPlay true else CallPause]
  ∧ playCalledByAutoplay_ e' = visible || playCalledByAutoplay_ e
  ∧ pauseCalledByAutoplay_ e' = negb visible || pauseCalledByAutoplay_ e
  ∧ (∀ viewerVisible supportsAutoplay,
       viewerVisible && supportsAutoplay = false →
       calls (video (final_state
                       (updateVisibility ratio viewerVisible supportsAutoplay e)))
       = calls (video e)).
Proof.
  intros Hl Ha Hu visible Hv e'. subst e'.
  assert (Hrun : ∀ vv sa,
    final_state (updateVisibility ratio vv sa e)
    = final_state (loadedVideoVisibilityChanged_ vv sa
                     (set_isVisible_ visible e))).
  { intros vv sa. by rewrite updateVisibility_changed. }
  rewrite !Hrun.
  assert (Hauto : ∀ sa,
    final_state (loadedVideoVisibilityChanged_ true sa
                   (set_isVisible_ visible e))
    = if sa
      then final_state (autoplayLoadedVideoVisibilityChanged_
                          (set_isVisible_ visible e))
      else set_isVisible_ visible e).
  { intros sa. unfold loadedVideoVisibilityChanged_. cbn [negb].
    rewrite bind_get. cbn [hasAutoplay userInteractedWithAutoPlay_
                             set_isVisible_].
    rewrite Ha, Hu. by destruct sa. }
  rewrite !(Hauto true).
  unfold autoplayLoadedVideoVisibilityChanged_, assign, callVideo.
  rewrite bind_gets. cbn [isVisible_ set_isVisible_].
  split; [by destruct visible |]. split; [by destruct visible |].
  split; [by destruct visible |].
  intros vv sa Hvs. rewrite Hrun. destruct vv; [| reflexivity].
  rewrite Hauto. by destruct sa.
Qed.

(** The theorem on a loaded autoplay video that comes into view. *)
Lemma autoplay_follows_visibility_witness :
  let e' := final_state
              (updateVisibility (Finite 1) true true Sample.loadedAutoplayer) in
  calls (video e') = calls (video Sample.loadedAutoplayer) ++ [CallPlay true]
  ∧ playCalledByAutoplay_ e' = true.
Proof.
  intros e'.
  destruct (autoplay_follows_visibility Sample.loadedAutoplayer (Finite 1))
    as (Hcalls & Hplay & _); [reflexivity .. |].
  split; [exact Hcalls | exact Hplay].
Defined.

(** X8.  After [register] of an autoplay video on a fresh manager and the
    answer of the autoplay probe, the calls made on the video are:
    [hideControls] if it is interactive; then [showControls] alone if autoplay
    is not supported and the video is interactive; otherwise [mute], followed
    by [hideControls] if it is interactive. So a video that is not interactive
    is muted even without autoplay support. *)
Theorem autoplay_probe_outcome (doc : AmpDoc) (v : Video) (supported : bool) :
  supportsPlatform v = true →
  autoplayAttribute v = true →
  let m := run [Register v; AutoplayProbed 0 supported] (newVideoManager doc) in
  ∃ e, entries m !! 0%nat = Some e
       ∧ calls (video e)
         = calls v
           ++ (if isInteractive v then [CallHideControls] else [])
           ++ (if negb supported && isInteractive v then [CallShowControls]
               else CallMute
                    :: (if isInteractive v then [CallHideControls] else [])).
Proof.
  intros Hp Ha. destruct v as [id sp inter dock auto an ps cls acts cs].
  cbn in Hp, Ha. subst sp auto.
  destruct inter, supported, dock; eexists;
    (split; [cbv -[app]; reflexivity |]);
    cbv -[app]; by rewrite <- ?app_assoc.
Qed.

(** The theorem on an interactive autoplay video where autoplay is not
    supported. *)
Lemma autoplay_probe_outcome_witness :
  ∃ e, entries (run [Register Sample.autoplayer; AutoplayProbed 0 false]
                  (newVideoManager Scenario.doc)) !! 0%nat = Some e
       ∧ calls (video e) = [CallHideControls; CallShowControls].
Proof.
  exact (autoplay_probe_outcome Scenario.doc Sample.autoplayer false
           eq_refl eq_refl).
Defined.

(** ** Dismissal *)

Lemma drag_stopped_element e :
  drag_stopped e = false → ∃ el, internalElement_ e = Some el.
Proof.
  unfold drag_stopped. destruct (internalElement_ e) as [el|]; [by exists el |].
  cbn. by rewrite orb_true_r.
Qed.

Lemma drag_freeMotion_run e :
  drag_freeMotion e
  = Done (set_dragCoordinates_
            (set_velocity
               (mkPoint (x (velocity (dragCoordinates_ e)) * FRICTION_COEFF)
                        (y (velocity (dragCoordinates_ e)) * FRICTION_COEFF))
               (set_position
                  (mkPoint (x (position (dragCoordinates_ e))
                            + x (velocity (dragCoordinates_ e)))
                           (y (position (dragCoordinates_ e))
                            + y (velocity (dragCoordinates_ e))))
                  (dragCoordinates_ e))) e) tt.
Proof. by destruct e. Qed.

(** X9.  When [drag_] runs on an entry that is marked as dismissed and is not
    being dragged, the video is paused and undocked: [drag_] returns, the slot
    of the manager is free, the entry is INLINE without the docking class, the
    controls are shown, the mark is cleared, and no further run of the loop is
    queued. *)
Theorem dismissed_video_is_undocked
    (env : Env) (i : nat) (m : VideoManager) (e : VideoEntry) :
  entries m !! i = Some e →
  drag_stopped e = false →
  isDragging_ e = false →
  isDismissed_ e = true →
  ∃ m' e',
    drag_ env i m = Done m' tt
    ∧ entries m' !! i = Some e'
    ∧ dockedVideo_ m' = None
    ∧ dockingState_ e' = INLINE
    ∧ hasDockClass e' = false
    ∧ isDismissed_ e' = false
    ∧ calls (video e') = calls (video e) ++ [CallPause; CallShowControls]
    ∧ scheduledDrag e' = scheduledDrag e
    ∧ draggingMask_ e' = draggingMask_ e
    ∧ length (entries m') = length (entries m).
Proof.
  intros He Hs Hd Hx. destruct (drag_stopped_element e Hs) as [el Hel].
  assert (H0 : this i get m = Done m e) by (by rewrite this_get, He).
  unfold drag_. rewrite (bind_done _ _ _ _ _ H0), Hs, Hd, Hx.
  set (e1 := final_state (drag_freeMotion e)).
  assert (H1 : this i drag_freeMotion m = Done (setEntry i e1 m) tt).
  { rewrite (this_run _ _ _ _ He). subst e1. by rewrite drag_freeMotion_run. }
  rewrite (bind_done _ _ _ _ _ H1).
  assert (He1 : entries (setEntry i e1 m) !! i = Some e1).
  { apply lookup_setEntry. by exists e. }
  set (e2 := set_video (call CallPause (video e1)) e1).
  assert (H2 : this i (callVideo CallPause) (setEntry i e1 m)
               = Done (setEntry i e2 (setEntry i e1 m)) tt).
  { by rewrite (this_run _ _ _ _ He1). }
  rewrite (bind_done _ _ _ _ _ H2).
  assert (He2 : entries (setEntry i e2 (setEntry i e1 m)) !! i = Some e2).
  { apply lookup_setEntry. by exists e1. }
  assert (Hel2 : internalElement_ e2 = Some el).
  { subst e2 e1. by rewrite drag_freeMotion_run. }
  destruct (finishDocking_entries i _ e2 el He2 Hel2) as (m3 & H3 & Hslot & Hm3).
  rewrite (bind_done _ _ _ _ _ H3).
  assert (He3 : entries m3 !! i = Some (undocked e2 el)).
  { rewrite Hm3. apply list_lookup_insert_eq.
    rewrite length_fmap. by eapply lookup_lt_Some. }
  rewrite (this_run _ _ _ _ He3). cbn [assign modify].
  eexists _, _. split; [reflexivity |].
  split; [apply lookup_setEntry; by eexists |].
  split; [done |]. split; [done |].
  split.
  { unfold hasDockClass. cbn.
    by rewrite contains_clearStyleAttribute, classList_remove_contains. }
  split; [done |].
  split.
  { subst e2 e1. rewrite drag_freeMotion_run. cbn.
    by rewrite <- app_assoc. }
  split; [subst e2 e1; by rewrite drag_freeMotion_run |].
  split; [subst e2 e1; by rewrite drag_freeMotion_run |].
  rewrite entries_setEntry, length_insert, Hm3, length_insert, length_fmap.
  by rewrite !entries_setEntry, !length_insert.
Qed.

(** The theorem on the docked video of the scenario, marked as dismissed. *)
Lemma dismissed_video_is_undocked_witness :
  ∃ m' e',
    drag_ Scenario.env 0 Sample.dismissed = Done m' tt
    ∧ entries m' !! 0%nat = Some e'
    ∧ dockedVideo_ m' = None
    ∧ dockingState_ e' = INLINE
    ∧ hasDockClass e' = false.
Proof.
  destruct (dismissed_video_is_undocked Scenario.env 0 Sample.dismissed
              Sample.dismissedEntry)
    as (m' & e' & Hrun & He' & Hslot & Hs & Hc & _);
    [reflexivity | vm_compute; reflexivity | reflexivity | reflexivity |].
  exists m', e'. repeat split; assumption.
Defined.

Lemma Qlt_bool_iff (a b : Q) : Qlt_bool a b = true ↔ a < b.
Proof.
  unfold Qlt_bool. rewrite negb_true_iff. split.
  - apply Qle_bool_false.
  - intros Hab. destruct (Qle_bool b a) eqn:Hba; [| done].
    apply Qle_bool_iff in Hba. lra.
Qed.

Lemma drag_dragging_dismissed env r e :
  let c := dragCoordinates_ e in
  let cx := x (mouse c) - x (displacement c) + width r / 2 in
  let cy := y (mouse c) - y (displacement c) + height r / 2 in
  isDismissed_ (final_state (drag_dragging env r e))
  = isDismissed_ e
    || (Qlt_bool (viewportWidth env) cx || Qlt_bool cx 0
        || Qlt_bool (viewportHeight env) cy || Qlt_bool cy 0).
Proof.
  unfold drag_dragging, assignCoord, assign, when.
  rewrite !final_state_bind. cbn. case_match; cbn; by rewrite ?orb_true_r, ?orb_false_r.
Qed.

(** X10.  While the element is dragged, a run of [drag_] marks the entry as
    dismissed when the centre of the element at its new position (pointer
    minus displacement, plus half the minimized size) is outside the viewport,
    leaves the mark as it was when the centre is inside, and does not change
    the docking state. *)
Theorem dragging_out_of_viewport_dismisses
    (env : Env) (i : nat) (m : VideoManager) (e : VideoEntry) :
  entries m !! i = Some e →
  drag_stopped e = false →
  isDragging_ e = true →
  let c := dragCoordinates_ e in
  let cx := x (mouse c) - x (displacement c) + width (minimizedRect env) / 2 in
  let cy := y (mouse c) - y (displacement c) + height (minimizedRect env) / 2 in
  ∃ e', entries (final_state (drag_ env i m)) !! i = Some e'
        ∧ (viewportWidth env < cx ∨ cx < 0 ∨ viewportHeight env < cy ∨ cy < 0 →
           isDismissed_ e' = true)
        ∧ (0 <= cx <= viewportWidth env → 0 <= cy <= viewportHeight env →
           isDismissed_ e' = isDismissed_ e)
        ∧ dockingState_ e' = dockingState_ e.
Proof.
  intros He Hs Hd c cx cy. unfold drag_.
  rewrite final_state_bind, this_get, He, Hs, Hd.
  rewrite (final_state_this _ _ _ _ He).
  eexists. split; [apply lookup_setEntry; by exists e |].
  rewrite final_state_bind.
  pose proof (drag_dragging_dismissed env (minimizedRect env) e) as Hx.
  cbv zeta in Hx. fold c cx cy in Hx.
  destruct (drag_dragging env (minimizedRect env) e) as [e1 []|e1 err] eqn:H1.
  2:{ exfalso. revert H1. unfold drag_dragging, assignCoord, assign, when.
      unfold bind, gets, modify. cbn. by case_match. }
  cbn [final_state] in *.
  assert (Hst : dockingState_ e1 = dockingState_ e).
  { change e1 with (final_state (Done e1 tt)). rewrite <- H1.
    apply (stable_impl (λ e', dockingState_ e' = dockingState_ e)); [| done].
    stable_entry; by cbn. }
  set (b := Qlt_bool (viewportWidth env) cx || Qlt_bool cx 0
            || Qlt_bool (viewportHeight env) cy || Qlt_bool cy 0) in Hx.
  assert (Hkeep : ∀ v s, isDismissed_ e1 = v → dockingState_ e1 = s →
            let e' := final_state
                        ((drag_snap env (minimizedRect env);; drag_move) e1) in
            isDismissed_ e' = v ∧ dockingState_ e' = s).
  { intros v s Hv Hs1.
    apply (stable_impl (λ e', isDismissed_ e' = v ∧ dockingState_ e' = s));
      [| done].
    stable_entry; by cbn. }
  destruct (Hkeep _ _ Hx Hst) as [Hk1 Hk2]. cbv zeta in Hk1, Hk2.
  split; [| split; [| exact Hk2]].
  - intros Hout. rewrite Hk1. apply orb_true_iff. right. subst b.
    rewrite !orb_true_iff, !Qlt_bool_iff. tauto.
  - intros [Hx1 Hx2] [Hy1 Hy2]. rewrite Hk1.
    assert (Hb : b = false); [| by rewrite Hb, orb_false_r].
    subst b. rewrite !orb_false_iff. unfold Qlt_bool.
    rewrite !negb_false_iff, !Qle_bool_iff. tauto.
Qed.

(** The theorem on the docked video of the scenario, dragged past the right
    edge of the viewport. *)
Lemma dragging_out_of_viewport_dismisses_witness :
  ∃ e', entries (final_state (drag_ Scenario.env 0 Sample.draggedOut)) !! 0%nat
        = Some e'
        ∧ isDismissed_ e' = true
        ∧ dockingState_ e' = DOCKED.
Proof.
  destruct (dragging_out_of_viewport_dismisses Scenario.env 0
              Sample.draggedOut Sample.draggedOutEntry)
    as (e' & He' & Hout & _ & Hs);
    [reflexivity | vm_compute; reflexivity | reflexivity |].
  exists e'. split; [exact He' |]. split.
  - apply Hout. left. vm_compute. reflexivity.
  - rewrite Hs. reflexivity.
Defined.

(** ** When docking starts and ends *)

Lemma updateDockableVideoPosition_same env p e :
  same_video_state e (final_state (updateDockableVideoPosition_ env p e)).
Proof.
  apply (stable_impl (same_video_state e)); [| by repeat split].
  stable_entry; unfold same_video_state in *; by cbn.
Qed.

(** The corner [updateDockableVideoPosition_] selects. *)
Lemma updateDockableVideoPosition_corner env p e ir :
  initialRect_ e = Some ir →
  ∃ e1, updateDockableVideoPosition_ env p e = Done e1 tt
    ∧ minimizePosition_ e1
      = let isBottom := bool_decide (relativePos p = RP_BOTTOM) in
        let isTop := bool_decide (relativePos p = RP_TOP) in
        let isInside := bool_decide (relativePos p = RP_INSIDE) in
        let isLtr := String.eqb (pageDir_ e) "ltr" in
        if (isBottom && Qlt_bool (offsetTop env) (viewportHeight env))
           || (isTop
               && Qlt_bool (viewportScrollHeight env - offsetTop env
                            - offsetHeight env) (viewportHeight env))
           || Qlt_bool (viewportHeight env) (offsetHeight env)
        then MP_INLINE
        else if isInside then MP_INLINE
        else if bool_decide (minimizePosition_ e = MP_INLINE) then
          if isTop then (if isLtr then TOP_RIGHT else TOP_LEFT)
          else (if isLtr then BOTTOM_RIGHT else BOTTOM_LEFT)
        else minimizePosition_ e.
Proof.
  intros Hir. destruct e; cbn in Hir; subst.
  destruct p as [[r|] vr rp]; destruct rp;
    unfold updateDockableVideoPosition_;
    unfold assign, bind, gets, get, modify, ret, deref; cbn;
    repeat (case_match; cbn in *; simplify_eq);
    try (eexists; split; [reflexivity |]; cbn; try done).
  all: try match goal with
           | H : _ && false = true |- _ => by rewrite andb_false_r in H
           end.
Qed.

Lemma canDock_setEntry i j e m : canDock i (setEntry j e m) = canDock i m.
Proof. reflexivity. Qed.



(** X12.  When the position observer reports a loaded, measured entry whose
    player node carries the docking class as inside the viewport,
    [onDockableVideoPositionChanged] undocks it: the entry is INLINE, the
    class and the inline style are gone, the controls are shown, and the slot
    of the manager is free. *)
Theorem docked_video_returns_inline
    (env : Env) (i : nat) (m : VideoManager)
    (p : PositionInViewportEntryDef) (e : VideoEntry) :
  entries m !! i = Some e →
  loaded_ e = true →
  is_Some (initialRect_ e) →
  hasDockClass e = true →
  relativePos p = RP_INSIDE →
  ∃ m' e',
    onDockableVideoPositionChanged env i p m = Done m' tt
    ∧ entries m' !! i = Some e'
    ∧ dockingState_ e' = INLINE
    ∧ hasDockClass e' = false
    ∧ dockedVideo_ m' = None
    ∧ controlsHidden (video e') = false
    ∧ style <$> internalElement_ e' = Some []
    ∧ minimizePosition_ e' = MP_INLINE.
Proof.
  intros He Hl [ir Hir] Hc Hin.
  destruct (updateDockableVideoPosition_corner env p e ir Hir)
    as (e1 & Hu & Hcorner).
  pose proof (updateDockableVideoPosition_same env p e)
    as (Hl1 & Hr1 & Hel1 & Hs1 & Hps1 & Hv1 & _).
  rewrite Hu in Hl1, Hr1, Hel1, Hs1, Hps1, Hv1. cbn [final_state] in *.
  assert (Hmp : minimizePosition_ e1 = MP_INLINE).
  { rewrite Hcorner, Hin. cbv zeta.
    change (bool_decide (RP_INSIDE = RP_INSIDE)) with true.
    by repeat case_match. }
  assert (Hc1 : hasDockClass e1 = true).
  { unfold hasDockClass. rewrite Hel1. exact Hc. }
  assert (Hel : ∃ el, internalElement_ e = Some el).
  { unfold hasDockClass in Hc. destruct (internalElement_ e) as [el|];
      [by exists el | done]. }
  destruct Hel as [el Hel]. rewrite Hel in Hel1.
  assert (He1 : entries (setEntry i e1 m) !! i = Some e1).
  { apply lookup_setEntry. by exists e. }
  unfold onDockableVideoPositionChanged.
  assert (H1 : this i (updateDockableVideoPosition_ env p) m
               = Done (setEntry i e1 m) tt).
  { by rewrite (this_run _ _ _ _ He), Hu. }
  rewrite (bind_done _ _ _ _ _ H1).
  assert (H2 : this i get (setEntry i e1 m) = Done (setEntry i e1 m) e1).
  { by rewrite this_get, He1. }
  rewrite (bind_done _ _ _ _ _ H2).
  rewrite Hc1, Hl1, Hr1, Hel1, Hl, Hir, Hmp. cbn [negb isNull orb andb].
  rewrite andb_false_r.
  change (bool_decide (MP_INLINE = MP_INLINE)) with true. cbn [negb andb].
  destruct (finishDocking_entries i _ e1 el He1 Hel1) as (m' & Hrun & Hslot & Hm').
  exists m', (undocked e1 el). split; [exact Hrun |].
  split.
  { rewrite Hm'. apply list_lookup_insert_eq.
    rewrite length_fmap. by eapply lookup_lt_Some. }
  split; [done |].
  split.
  { unfold hasDockClass. cbn.
    by rewrite contains_clearStyleAttribute, classList_remove_contains. }
  split; [done |].
  split; [apply controlsHidden_showControls |].
  split; [done | exact Hmp].
Qed.

(** The theorem on the docked video of the scenario, scrolled back into view.
    *)
Lemma docked_video_returns_inline_witness :
  ∃ m' e',
    onDockableVideoPositionChanged Scenario.env 0 Scenario.inView
      Scenario.docked
    = Done m' tt
    ∧ entries m' !! 0%nat = Some e'
    ∧ dockingState_ e' = INLINE
    ∧ hasDockClass e' = false
    ∧ dockedVideo_ m' = None.
Proof.
  destruct (docked_video_returns_inline Scenario.env 0 Scenario.docked
              Scenario.inView Scenario.dockedEntry)
    as (m' & e' & Hrun & He' & Hs & Hc & Hslot & _);
    [reflexivity | reflexivity | eexists; reflexivity | reflexivity
    | reflexivity |].
  exists m', e'. repeat split; assumption.
Defined.

(** ** The visible height *)

(** The visible height [updateDockableVideoPosition_] computes from the
    rectangle it works with; the rest of the method does not write to it. *)
Lemma updateDockableVideoPosition_visibleHeight env p e rect :
  (positionRect p = Some rect
   ∨ (positionRect p = None
      ∧ ∃ ir, initialRect_ e = Some ir
         ∧ rect = if bool_decide (relativePos p = RP_BOTTOM)
                  then layoutRectLtwh (left ir) (viewportHeight env)
                         (width ir) (height ir)
                  else layoutRectLtwh (left ir) (- height ir)
                         (width ir) (height ir))) →
  visibleHeight_ (final_state (updateDockableVideoPosition_ env p e))
  = if Qle_bool (top rect) (top (viewportRect p))
    then bottom rect - top (viewportRect p)
    else if Qle_bool (bottom (viewportRect p)) (bottom rect)
         then bottom (viewportRect p) - top rect
         else bottom rect - top rect.
Proof.
  intros Hrect. unfold updateDockableVideoPosition_.
  rewrite bind_gets. cbv zeta. unfold assign at 1. rewrite bind_modify.
  set (v := if Qle_bool (top rect) _ then _ else _).
  destruct Hrect as [Hp|(Hp & ir & Hir & ->)]; rewrite Hp.
  - rewrite bind_ret. unfold assign at 1. rewrite bind_modify.
    apply (stable_impl (λ e', visibleHeight_ e' = v)); [| done].
    stable_entry; by cbn.
  - rewrite bind_assoc, bind_gets. cbn [initialRect_ set_lastPosition_].
    rewrite Hir. cbn [deref]. rewrite bind_assoc, bind_ret.
    cbv zeta. rewrite bind_assoc. unfold assign at 1.
    rewrite bind_modify, bind_ret. unfold assign at 1. rewrite bind_modify.
    apply (stable_impl (λ e', visibleHeight_ e' = v)); [| done].
    stable_entry; by cbn.
Qed.

(** X13.  When the rectangle reported for the element overlaps the viewport
    rectangle vertically, the visible height [updateDockableVideoPosition_]
    stores lies between 0 and the height of the rectangle. *)
Theorem visible_height_within_element
    (env : Env) (p : PositionInViewportEntryDef) (e : VideoEntry) (rect : Rect) :
  positionRect p = Some rect →
  top rect <= bottom rect →
  top rect <= bottom (viewportRect p) →
  top (viewportRect p) <= bottom rect →
  let h := visibleHeight_ (final_state (updateDockableVideoPosition_ env p e)) in
  0 <= h ∧ h <= bottom rect - top rect.
Proof.
  intros Hp Hr Hb Ht h. subst h.
  rewrite (updateDockableVideoPosition_visibleHeight env p e rect)
    by (by left).
  destruct (Qle_bool (top rect) _) eqn:H1.
  - apply Qle_bool_iff in H1. lra.
  - destruct (Qle_bool (bottom (viewportRect p)) _) eqn:H2.
    + apply Qle_bool_iff in H2. lra.
    + lra.
Qed.

(** The theorem on the video of the scenario, half in view at the top. *)
Lemma visible_height_within_element_witness :
  let h := visibleHeight_
             (final_state
                (updateDockableVideoPosition_ Scenario.env Scenario.halfAbove
                   Scenario.dockedEntry)) in
  0 <= h ∧ h <= 200.
Proof.
  apply (visible_height_within_element Scenario.env Scenario.halfAbove
           Scenario.dockedEntry (layoutRectLtwh 0 (-100) 300 200));
    [reflexivity | vm_compute; discriminate ..].
Defined.

(** X14.  When the position observer reports no rectangle for a measured entry
    (the element is out of view) and the viewport rectangle starts at 0,
    [updateDockableVideoPosition_] stores a visible height of 0 and patches
    the stored position with a rectangle of the initial size just above the
    viewport, or just below it when the element is reported at the bottom. *)
Theorem visible_height_out_of_view
    (env : Env) (p : PositionInViewportEntryDef) (e : VideoEntry) (ir : Rect) :
  positionRect p = None →
  initialRect_ e = Some ir →
  0 <= height ir →
  0 < viewportHeight env →
  top (viewportRect p) == 0 →
  bottom (viewportRect p) == viewportHeight env →
  let e' := final_state (updateDockableVideoPosition_ env p e) in
  visibleHeight_ e' == 0
  ∧ (positionRect <$> lastPosition_ e'
     = Some (Some (if bool_decide (relativePos p = RP_BOTTOM)
                   then layoutRectLtwh (left ir) (viewportHeight env)
                          (width ir) (height ir)
                   else layoutRectLtwh (left ir) (- height ir)
                          (width ir) (height ir)))).
Proof.
  intros Hp Hir Hh Hvh Ht Hb e'. subst e'. split.
  - erewrite updateDockableVideoPosition_visibleHeight
      by (right; split; [done |]; by exists ir).
    destruct (bool_decide (relativePos p = RP_BOTTOM)); cbn [top bottom layoutRectLtwh].
    + destruct (Qle_bool (viewportHeight env) _) eqn:H1.
      * apply Qle_bool_iff in H1. lra.
      * destruct (Qle_bool (bottom (viewportRect p)) _) eqn:H2; [lra |].
        apply Qle_bool_false in H2. lra.
    + destruct (Qle_bool (- height ir) _) eqn:H1; [lra |].
      apply Qle_bool_false in H1. lra.
  - unfold updateDockableVideoPosition_.
    rewrite bind_gets. cbv zeta. unfold assign at 1.
    rewrite bind_modify, Hp, bind_assoc, bind_gets.
    cbn [initialRect_ set_lastPosition_]. rewrite Hir. cbn [deref].
    rewrite bind_assoc, bind_ret. cbv zeta. rewrite bind_assoc.
    unfold assign at 1. rewrite bind_modify, bind_ret.
    set (fake := if bool_decide (relativePos p = RP_BOTTOM) then _ else _).
    apply (stable_impl
             (λ e', positionRect <$> lastPosition_ e' = Some (Some fake)));
      [| done].
    stable_entry; by cbn.
Qed.

(** The theorem on the video of the scenario, out of view above the viewport.
    *)
Lemma visible_height_out_of_view_witness :
  let e' := final_state
              (updateDockableVideoPosition_ Scenario.env Scenario.above
                 Scenario.dockedEntry) in
  visibleHeight_ e' == 0
  ∧ positionRect <$> lastPosition_ e'
    = Some (Some (layoutRectLtwh 0 (-200) 300 200)).
Proof.
  apply (visible_height_out_of_view Scenario.env Scenario.above
           Scenario.dockedEntry (layoutRectLtwh 0 100 300 200));
    [reflexivity | reflexivity | vm_compute; discriminate
    | vm_compute; reflexivity | reflexivity | reflexivity].
Defined.

(** ** Coasting and the drag gesture *)









(** ** The docked slot is in use *)













(** ** Docking starts *)

Ltac docking_leaf :=
  unfold docking_now, hasDockClass, queryPlayerNode, withElementOf in *;
  repeat first
    [ done
    | progress cbn in *
    | progress simplify_eq
    | progress rewrite ?contains_el_setStyles, ?contains_clearStyleAttribute
        in *
    | case_match
    | match goal with t : SnapTarget |- _ => destruct t end
    | match goal with
      | H : _ ∧ _ |- _ => destruct H
      | |- _ ∧ _ => split
      end ].

Lemma docking_in_slot_this {A} d i (c : M VideoEntry A) :
  stable (λ e, docking_now e ∧ (isDismissed_ e = true → d = true)) c →
  stable (docking_in_slot d i) (this i c).
Proof.
  intros Hc m [Hm Hs]. split; [by apply stable_this_at |].
  by rewrite dockedVideo_this.
Qed.

Lemma docking_in_slot_weaken d i m : docking_in_slot d i m → docking_in_slot true i m.
Proof.
  intros [(e & He & Hn & _) Hs]. split; [| done]. by exists e.
Qed.

Lemma drag_docking_in_slot env i :
  hoare (docking_in_slot false i) (drag_ env i) (docking_in_slot true i).
Proof.
  unfold drag_.
  apply hoare_bind_this_get; [intros e | apply (docking_in_slot_weaken false)].
  destruct (drag_stopped e);
    [apply hoare_ret; intros m [Hm _]; by apply (docking_in_slot_weaken false) |].
  cbv zeta. destruct (isDragging_ e).
  - intros m [Hm _]. apply docking_in_slot_weaken in Hm. revert m Hm.
    apply docking_in_slot_this. stable_entry; docking_leaf.
  - apply (hoare_bind _ (λ m, docking_in_slot false i m
                              ∧ isDismissed_ e = false)).
    + intros m [Hm He]. split.
      * clear He. revert m Hm. apply docking_in_slot_this.
        stable_entry; docking_leaf.
      * destruct Hm as [(e0 & He0 & _ & Hd) _]. simplify_eq.
        destruct (isDismissed_ e0); [by specialize (Hd eq_refl) | done].
    + intros m [Hm _]. by apply (docking_in_slot_weaken false).
    + intros _ m [Hm ->]. apply docking_in_slot_weaken in Hm. revert m Hm.
      apply docking_in_slot_this. stable_entry; docking_leaf.
Qed.

Lemma animateDocking_docking_in_slot env i :
  hoare (docking_in_slot false i) (animateDocking_ env i)
    (docking_in_slot true i).
Proof.
  unfold animateDocking_.
  apply (hoare_bind _ (docking_in_slot false i));
    [apply docking_in_slot_this; stable_entry; docking_leaf
    | apply (docking_in_slot_weaken false) | intros _].
  apply (hoare_bind _ (docking_in_slot false i));
    [apply docking_in_slot_this; stable_entry; docking_leaf
    | apply (docking_in_slot_weaken false) | intros scale].
  destruct (Qeq_bool scale DOCK_SCALE).
  - apply (hoare_bind _ (docking_in_slot false i));
      [apply docking_in_slot_this; stable_entry; docking_leaf
      | apply (docking_in_slot_weaken false) | intros _].
    apply drag_docking_in_slot.
  - intros m Hm. apply (docking_in_slot_weaken false). revert m Hm.
    apply docking_in_slot_this. stable_entry; docking_leaf.
Qed.

Lemma controlsHidden_hideControls v :
  controlsHidden (call CallHideControls v) = true.
Proof.
  unfold controlsHidden, call. cbn.
  rewrite List.filter_app. cbn. by rewrite last_snoc.
Qed.

Lemma initializeDocking_docking_in_slot i m e el r :
  entries m !! i = Some e →
  internalElement_ e = Some el → initialRect_ e = Some r →
  isDismissed_ e = false →
  docking_in_slot false i (final_state (initializeDocking_ i m)).
Proof.
  intros He Hel Hr Hd.
  assert (Hrun : ∃ e', initializeDocking_ i m
            = Done (set_dockedVideo_ (Some i) (setEntry i e' m)) tt
            ∧ docking_now e' ∧ isDismissed_ e' = false).
  { unfold initializeDocking_. eexists. erewrite bind_done; cycle 1.
    { rewrite (this_run _ _ _ _ He).
      unfold updateInternalElement, callVideo, setStylesOf, setElementOf,
        assign, bind, gets, modify, ret.
      cbn. rewrite Hel. cbn. rewrite Hr. cbn. reflexivity. }
    split; [reflexivity |]. unfold docking_now, hasDockClass. cbn.
    rewrite contains_el_setStyles, classList_add_contains.
    repeat split; try done. apply controlsHidden_hideControls. }
  destruct Hrun as (e' & -> & Hn & Hd'). cbn [final_state].
  split; [| done]. exists e'. split; [| split; [done | by rewrite Hd']].
  change (entries (set_dockedVideo_ _ ?m')) with (entries m').
  apply lookup_setEntry. by exists e.
Qed.

(** X18.  [onDockableVideoPositionChanged] starts docking when it may: for a
    loaded, measured, INLINE entry playing after a manual play, not dismissed,
    with the slot free or its own, that has been in view and is now at a
    docking position, the entry takes the slot, leaves INLINE, gets the
    docking class, and the controls are hidden. *)
Theorem docking_starts
    (env : Env) (i : nat) (m : VideoManager)
    (p : PositionInViewportEntryDef) (e : VideoEntry) :
  entries m !! i = Some e →
  loaded_ e = true →
  is_Some (initialRect_ e) →
  is_Some (internalElement_ e) →
  dockingState_ e = INLINE →
  entry_getPlayingState e = PLAYING_MANUAL →
  canDock i m = true →
  isDismissed_ e = false →
  let e1 := final_state (updateDockableVideoPosition_ env p e) in
  hasBeenInViewBefore e1 = true →
  minimizePosition_ e1 ≠ MP_INLINE →
  let m' := final_state (onDockableVideoPositionChanged env i p m) in
  dockedVideo_ m' = Some i
  ∧ ∃ e', entries m' !! i = Some e'
          ∧ dockingState_ e' ≠ INLINE
          ∧ hasDockClass e' = true
          ∧ controlsHidden (video e') = true.
Proof.
  intros He Hl [ir Hir] [el Hel] Hs Hman Hcd Hdis e1 Hseen Hmp m'.
  assert (Hgoal : docking_in_slot true i m').
  2:{ destruct Hgoal as [(e' & He' & (H1 & H2 & H3) & _) Hslot].
      split; [done |]. by exists e'. }
  subst m'.
  destruct (updateDockableVideoPosition_corner env p e ir Hir)
    as (e1' & Hu & _).
  pose proof (updateDockableVideoPosition_same env p e)
    as (Hl1 & Hr1 & Hel1 & Hs1 & Hps1 & _).
  assert (Hd1 : isDismissed_ e1 = false).
  { subst e1. rewrite <- Hdis.
    apply (stable_impl (λ e', isDismissed_ e' = isDismissed_ e)); [| done].
    stable_entry; by cbn. }
  fold e1 in Hl1, Hr1, Hel1, Hs1, Hps1.
  assert (He1' : e1' = e1) by (subst e1; by rewrite Hu). subst e1'.
  assert (He1 : entries (setEntry i e1 m) !! i = Some e1).
  { apply lookup_setEntry. by exists e. }
  unfold onDockableVideoPositionChanged.
  assert (H1 : this i (updateDockableVideoPosition_ env p) m
               = Done (setEntry i e1 m) tt).
  { by rewrite (this_run _ _ _ _ He), Hu. }
  rewrite (bind_done _ _ _ _ _ H1).
  assert (H2 : this i get (setEntry i e1 m) = Done (setEntry i e1 m) e1).
  { by rewrite this_get, He1. }
  rewrite (bind_done _ _ _ _ _ H2).
  rewrite Hl1, Hr1, Hel1, Hps1, Hl, Hir, Hel, Hman, Hseen, Hs1, Hs.
  cbn [negb isNull orb].
  rewrite (bool_decide_eq_true_2 (PLAYING_MANUAL = PLAYING_MANUAL)) by done.
  rewrite (bool_decide_eq_false_2 (minimizePosition_ e1 = MP_INLINE)) by done.
  rewrite (bool_decide_eq_true_2 (INLINE = INLINE)) by done.
  cbn [negb andb orb]. rewrite bind_get, canDock_setEntry, Hcd. cbn [when].
  rewrite final_state_bind.
  assert (Hel1' : internalElement_ e1 = Some el) by (by rewrite Hel1).
  assert (Hr1' : initialRect_ e1 = Some ir) by (by rewrite Hr1).
  pose proof (initializeDocking_docking_in_slot i _ e1 el ir He1 Hel1' Hr1' Hd1)
    as Hinit.
  destruct (initializeDocking_ i (setEntry i e1 m)) as [m2 []|m2 err];
    cbn [final_state] in *; [| by apply (docking_in_slot_weaken false)].
  rewrite final_state_bind, this_get.
  destruct Hinit as [(e2 & He2 & Hn2 & Hd2) Hslot]. rewrite He2.
  destruct Hn2 as (Hs2 & Hc2 & Hh2).
  rewrite bool_decide_eq_false_2 by done. cbn [negb when].
  apply animateDocking_docking_in_slot. split; [| done]. by exists e2.
Qed.

(** The theorem on the video of the scenario, scrolled out of view while it
    plays inline. *)
Lemma docking_starts_witness :
  let m' := final_state
              (onDockableVideoPositionChanged Scenario.env 0 Scenario.above
                 Sample.inline) in
  dockedVideo_ m' = Some 0%nat
  ∧ ∃ e', entries m' !! 0%nat = Some e'
          ∧ dockingState_ e' ≠ INLINE
          ∧ hasDockClass e' = true
          ∧ controlsHidden (video e') = true.
Proof.
  assert (H : ∃ e, entries Sample.inline !! 0%nat = Some e
                   ∧ loaded_ e = true
                   ∧ isNull (initialRect_ e) = false
                   ∧ isNull (internalElement_ e) = false
                   ∧ dockingState_ e = INLINE
                   ∧ entry_getPlayingState e = PLAYING_MANUAL
                   ∧ isDismissed_ e = false
                   ∧ hasBeenInViewBefore
                       (final_state
                          (updateDockableVideoPosition_ Scenario.env
                             Scenario.above e)) = true
                   ∧ minimizePosition_
                       (final_state
                          (updateDockableVideoPosition_ Scenario.env
                             Scenario.above e)) = TOP_RIGHT).
  { vm_compute. eexists. repeat split. }
  destruct H as (e & He & Hl & Hr & Hel & Hs & Hp & Hd & Hv & Hm).
  apply (docking_starts Scenario.env 0 Sample.inline Scenario.above e He Hl);
    try assumption.
  - destruct (initialRect_ e); [eexists; reflexivity | discriminate].
  - destruct (internalElement_ e); [eexists; reflexivity | discriminate].
  - vm_compute. reflexivity.
  - rewrite Hm. discriminate.
Defined.

(** ** The autoplay cache and the analytics details *)

Section Autoplay_analytics_properties.
Import Autoplay Analytics.

(** X19.  [supportsAutoplay] caches its first answer: a later call returns it
    whatever window and viewer it is given. The first answer is false in a
    lite viewer and otherwise tells whether the detection element is not
    paused after [play()]; after [clearSupportsAutoplayCacheForTesting] the
    next call detects again. *)
Theorem supportsAutoplay_is_cached
    (win win' : Window) (lite lite' : bool) (cache : Cache) :
  ∃ b, supportsAutoplay win lite cache = Done (Some b) b
       ∧ supportsAutoplay win' lite' (Some b) = Done (Some b) b
       ∧ (cache = None → b = negb lite && negb (pausedAfterPlay win))
       ∧ (∀ b0, cache = Some b0 → b = b0)
       ∧ supportsAutoplay win' lite'
           (final_state (clearSupportsAutoplayCacheForTesting (Some b)))
         = Done (Some (negb lite' && negb (pausedAfterPlay win')))
                (negb lite' && negb (pausedAfterPlay win')).
Proof.
  destruct cache as [b0|].
  - exists b0. repeat split; try done; [by intros ? [= <-] |].
    by destruct lite'.
  - exists (negb lite && negb (pausedAfterPlay win)).
    destruct lite, lite'; by repeat split.
Qed.





End Autoplay_analytics_properties.

(** ** Event listeners *)

Section EventHelper_properties.
Import EventHelper.

Lemma detect_fresh browser w :
  optsSupported w = None ∨ optsSupported w = Some NOT_RUN →
  detectEvtListenerOptsSupport browser w
  = match browser with
    | ReadsOptions => Done (set_optsSupported (Some SUPPORTED) w) true
    | _ => Done (set_optsSupported (Some NOT_SUPPORTED) w) false
    end.
Proof.
  intros Hw. unfold detectEvtListenerOptsSupport.
  rewrite bind_gets. destruct w as [s r d c]. cbn in Hw.
  destruct Hw as [-> | ->], browser; reflexivity.
Qed.

Lemma detect_known browser w (known : bool) :
  optsSupported w = Some (if known then SUPPORTED else NOT_SUPPORTED) →
  detectEvtListenerOptsSupport browser w = Done w known.
Proof.
  intros Hw. unfold detectEvtListenerOptsSupport.
  destruct w as [s r d c]. cbn in Hw. subst s. by destruct known.
Qed.

Lemma detect_run browser w :
  ∃ (supported : bool) (w1 : World),
    detectEvtListenerOptsSupport browser w = Done w1 supported
    ∧ optsSupported w1 = Some (if supported then SUPPORTED else NOT_SUPPORTED)
    ∧ (optsSupported w = None ∨ optsSupported w = Some NOT_RUN →
       supported = match browser with ReadsOptions => true | _ => false end)
    ∧ closures w1 = closures w ∧ domCalls w1 = domCalls w
    ∧ reported w1 = reported w.
Proof.
  destruct (optsSupported w) as [[| |]|] eqn:Hw.
  - rewrite detect_fresh by (by right).
    destruct browser; eexists _, _; by repeat split.
  - exists false, w. split; [by apply (detect_known _ _ false) |].
    repeat split; try done. by intros [|].
  - exists true, w. split; [by apply (detect_known _ _ true) |].
    repeat split; try done. by intros [|].
  - rewrite detect_fresh by (by left).
    destruct browser; eexists _, _; by repeat split.
Qed.

(** X21.  [detectEvtListenerOptsSupport] runs its test once: it always
    returns, leaves [self.optsSupported] at SUPPORTED or NOT_SUPPORTED
    according to its answer, and a later call returns the same answer whatever
    the browser would do then. A first answer is true only for a browser that
    reads the options object, and false when [addEventListener] throws; after
    [resetEvtListenerOptsSupport] the test runs again. *)
Theorem listener_options_detection_runs_once
    (browser browser' : Browser) (w : World) :
  ∃ (supported : bool) (w1 : World),
    detectEvtListenerOptsSupport browser w = Done w1 supported
    ∧ optsSupported w1 = Some (if supported then SUPPORTED else NOT_SUPPORTED)
    ∧ (optsSupported w = None ∨ optsSupported w = Some NOT_RUN →
       supported = match browser with ReadsOptions => true | _ => false end)
    ∧ detectEvtListenerOptsSupport browser' w1 = Done w1 supported
    ∧ ∃ w2, (resetEvtListenerOptsSupport;;
             detectEvtListenerOptsSupport browser') w1
            = Done w2 match browser' with ReadsOptions => true | _ => false end.
Proof.
  destruct (detect_run browser w) as (supported & w1 & Hd & Hs & Hf & _).
  exists supported, w1. split; [exact Hd |]. split; [exact Hs |].
  split; [exact Hf |]. split; [by apply detect_known |].
  unfold resetEvtListenerOptsSupport. rewrite bind_modify.
  rewrite detect_fresh by (by right). destruct browser'; by eexists.
Qed.

Lemma internalListenImplementation_run browser el ty ln opts w :
  ∃ (supported : bool) (w0 : World),
    detectEvtListenerOptsSupport browser w = Done w0 supported
    ∧ closures w0 = closures w ∧ domCalls w0 = domCalls w
    ∧ reported w0 = reported w
    ∧ internalListenImplementation browser el ty ln opts w
      = Done (set_closures
                (closures w
                 ++ [mkClosure (Some el) (Some ln) (Some (length (closures w)))
                       ty (listenerArg supported opts)])
                (domCall (AddEventListener el ty (Some (length (closures w)))
                            (listenerArg supported opts)) w0))
             (length (closures w)).
Proof.
  destruct (detect_run browser w)
    as (supported & w0 & Hd & _ & _ & Hc & Hdc & Hr).
  exists supported, w0. repeat split; try done.
  unfold internalListenImplementation. rewrite bind_gets.
  rewrite (bind_done _ _ _ _ _ Hd). cbv zeta.
  rewrite !bind_modify. unfold ret, listenerArg. cbn [closures domCall set_closures].
  rewrite Hc. by destruct supported, opts as [[[] ?]|].
Qed.

(** X22.  The unlistener [internalListenImplementation] returns removes what
    was added: [removeEventListener] gets the same target, event type, wrapped
    function and third argument (the options where they are supported, else
    the capture flag) as [addEventListener] got, and a second call of the
    unlistener does nothing. While listening, an exception of the listener is
    reported and thrown again; after unlistening, a call of the wrapped
    function throws a TypeError, which is reported as well. *)
Theorem unlisten_removes_what_listen_added
    (browser : Browser) (element : nat) (type : string) (listener : nat)
    (opts : option Options) (w : World) :
  ∃ (supported : bool) (w1 w2 : World) (id : nat),
    let arg := listenerArg supported opts in
    internalListenImplementation browser element type listener opts w
    = Done w1 id
    ∧ optsSupported w1 = Some (if supported then SUPPORTED else NOT_SUPPORTED)
    ∧ domCalls w1
      = domCalls w ++ [AddEventListener element type (Some id) arg]
    ∧ unlisten id w1 = Done w2 tt
    ∧ domCalls w2
      = domCalls w1 ++ [RemoveEventListener element type (Some id) arg]
    ∧ unlisten id w2 = Done w2 tt
    ∧ (∀ err, wrapped id (Some err) w1 = Thrown (report err w1) err)
    ∧ wrapped id None w1 = Done w1 tt
    ∧ wrapped id None w2 = Thrown (report TypeError w2) TypeError.
Proof.
  destruct (internalListenImplementation_run browser element type listener
              opts w) as (supported & w0 & Hd & Hc & Hdc & Hr & Hrun).
  destruct (detect_run browser w) as (s' & w0' & Hd' & Hs & _).
  rewrite Hd in Hd'. simplify_eq.
  set (id := length (closures w)) in *.
  set (arg := listenerArg s' opts) in *.
  set (c := mkClosure (Some element) (Some listener) (Some id) type arg) in *.
  set (w1 := set_closures (closures w ++ [c]) _) in Hrun.
  assert (Hid : closures w1 !! id = Some c).
  { subst w1 id. cbn. by rewrite lookup_app_r, Nat.sub_diag. }
  set (c' := mkClosure None None None type arg).
  set (w2 := set_closures (<[id:=c']> (closures w1))
               (domCall (RemoveEventListener element type (Some id) arg) w1)).
  assert (Hid2 : closures w2 !! id = Some c').
  { subst w2. cbn [closures set_closures]. apply list_lookup_insert_eq.
    by eapply lookup_lt_Some. }
  exists s', w1, w2, id. cbv zeta.
  split; [exact Hrun |]. split; [exact Hs |].
  split; [subst w1; cbn; by rewrite Hdc |].
  assert (Hun : unlisten id w1 = Done w2 tt).
  { unfold unlisten. rewrite bind_gets, Hid. reflexivity. }
  split; [exact Hun |]. split; [done |].
  split.
  { unfold unlisten. rewrite bind_gets, Hid2. cbn [deref].
    rewrite bind_ret. cbn [localElement c']. rewrite bind_ret.
    unfold modify. f_equal. subst w2. cbn [closures set_closures].
    rewrite list_insert_insert_eq. by destruct w1. }
  split; [intros err; unfold wrapped; by rewrite bind_gets, Hid |].
  split; [unfold wrapped; by rewrite bind_gets, Hid |].
  unfold wrapped. by rewrite bind_gets, Hid2.
Qed.
End EventHelper_properties.

(** ** The earlier variant of the manager *)

Section V1_properties.
Import V1.

Lemma V1_entries_Some m l : V1.entries_ m = Some l → V1.entries m = l.
Proof. unfold V1.entries. by intros ->. Qed.

Lemma V1_this_run {A} i (c : M V1.VideoEntry A) m l e :
  V1.entries_ m = Some l → l !! i = Some e →
  V1.this i c m
  = match c e with
    | Done e' a => Done (V1.set_entries_ (Some (<[i:=e']> l)) m) a
    | Thrown e' err => Thrown (V1.set_entries_ (Some (<[i:=e']> l)) m) err
    end.
Proof. intros Hl He. unfold V1.this. by rewrite Hl, He. Qed.

(** [unDockVideo_] on an entry with a player node, followed by the reset of
    [hasBeenInViewBefore]. *)
Lemma V1_unDockVideo_run e el :
  V1.internalElement_ e = Some el →
  V1.unDockVideo_ e = Done (V1_undocked e el) tt.
Proof.
  intros Hel. unfold V1.unDockVideo_, V1.updateInternalElement, V1.assign.
  rewrite bind_modify, bind_assoc, bind_gets.
  cbn [V1.internalElement_ V1.set_minimizePosition_]. rewrite Hel.
  reflexivity.
Qed.

Lemma V1_unDockVideo_unloaded e :
  V1.internalElement_ e = None →
  V1.unDockVideo_ e = Thrown (V1.set_minimizePosition_ V1.DEFAULT e) TypeError.
Proof.
  intros Hel. unfold V1.unDockVideo_, V1.updateInternalElement, V1.assign.
  rewrite bind_modify, bind_assoc, bind_gets.
  cbn [V1.internalElement_ V1.set_minimizePosition_]. by rewrite Hel.
Qed.

(** One round of the loop of [undockAllExceptCurrent], on an entry that can
    be undocked. *)
Lemma V1_undock_round cur a l m e :
  V1.entries_ m = Some l → V1.curDocked_ m = cur → l !! a = Some e →
  (Some a ≠ cur → V1.hasDocking e = true → is_Some (V1.internalElement_ e)) →
  (e ← V1.this a get;
   cur ← gets V1.curDocked_;
   when (negb (bool_decide (Some a = cur)) && V1.hasDocking e)
     (V1.this a V1.unDockVideo_;;
      V1.this a (V1.assign V1.set_hasBeenInViewBefore false))) m
  = Done (V1.set_entries_ (Some (<[a:=V1_undockOne cur a e]> l)) m) tt.
Proof.
  intros Hl Hc He Hel.
  assert (Hget : V1.this a get m = Done m e).
  { rewrite (V1_this_run _ _ _ _ _ Hl He). cbn.
    rewrite list_insert_id by done. destruct m; cbn in *; by subst. }
  rewrite (bind_done _ _ _ _ _ Hget), bind_gets, Hc.
  unfold V1_undockOne.
  destruct (negb (bool_decide (Some a = cur)) && V1.hasDocking e) eqn:Hcond;
    cbn [when].
  - apply andb_true_iff in Hcond as [Hne Hd].
    apply negb_true_iff, bool_decide_eq_false in Hne.
    destruct (Hel Hne Hd) as [el Hsome]. rewrite Hsome.
    assert (H1 : V1.this a V1.unDockVideo_ m
                 = Done (V1.set_entries_
                           (Some (<[a:=V1_undocked e el]> l)) m) tt).
    { by rewrite (V1_this_run _ _ _ _ _ Hl He), (V1_unDockVideo_run e el). }
    rewrite (bind_done _ _ _ _ _ H1).
    rewrite (V1_this_run _ _ (V1.set_entries_ _ m) _ (V1_undocked e el) eq_refl)
      by (apply list_lookup_insert_eq; by eapply lookup_lt_Some).
    cbn. by rewrite list_insert_insert_eq.
  - cbn. rewrite list_insert_id by done. destruct m; cbn in *; by subst.
Qed.

Lemma V1_set_entries_same m l :
  V1.entries_ m = Some l → V1.set_entries_ (Some l) m = m.
Proof. destruct m. cbn. by intros ->. Qed.

Lemma V1_set_entries_twice l l' m :
  V1.set_entries_ l' (V1.set_entries_ l m) = V1.set_entries_ l' m.
Proof. reflexivity. Qed.

Lemma V1_undockRange_nil cur a l : V1_undockRange cur a 0 l = l.
Proof.
  unfold V1_undockRange. apply list_eq. intros j.
  rewrite list_lookup_imap. destruct (l !! j); [| done]. cbn.
  by rewrite bool_decide_eq_false_2 by lia.
Qed.

Lemma V1_undockRange_step cur a n l e :
  l !! a = Some e →
  V1_undockRange cur (S a) n (<[a:=V1_undockOne cur a e]> l)
  = V1_undockRange cur a (S n) l.
Proof.
  intros He. unfold V1_undockRange. apply list_eq. intros j.
  rewrite !list_lookup_imap. destruct (decide (j = a)) as [->|Hja].
  - rewrite list_lookup_insert_eq by (by eapply lookup_lt_Some).
    rewrite He. cbn.
    by rewrite bool_decide_eq_false_2, bool_decide_eq_true_2 by lia.
  - rewrite list_lookup_insert_ne by done.
    destruct (l !! j); [| done]. cbn.
    destruct (decide (S a ≤ j < S a + n)%nat).
    + by rewrite !bool_decide_eq_true_2 by lia.
    + by rewrite !bool_decide_eq_false_2 by lia.
Qed.

Lemma V1_undock_loop cur n : ∀ a l m,
  V1.entries_ m = Some l → V1.curDocked_ m = cur → (a + n ≤ length l)%nat →
  (∀ j e, (a ≤ j < a + n)%nat → l !! j = Some e → Some j ≠ cur →
          V1.hasDocking e = true → is_Some (V1.internalElement_ e)) →
  for_each (seq a n)
    (λ i,
       e ← V1.this i get;
       cur ← gets V1.curDocked_;
       when (negb (bool_decide (Some i = cur)) && V1.hasDocking e)
         (V1.this i V1.unDockVideo_;;
          V1.this i (V1.assign V1.set_hasBeenInViewBefore false))) m
  = Done (V1.set_entries_ (Some (V1_undockRange cur a n l)) m) tt.
Proof.
  induction n as [|n IH]; intros a l m Hl Hc Hlen Hel.
  - by rewrite V1_undockRange_nil, V1_set_entries_same.
  - cbn [seq for_each].
    destruct (lookup_lt_is_Some_2 l a) as [e He]; [lia |].
    rewrite (bind_done _ _ _ _ _
               (V1_undock_round cur a l m e Hl Hc He
                  (λ H1 H2, Hel a e ltac:(lia) He H1 H2))).
    rewrite (IH (S a) (<[a:=V1_undockOne cur a e]> l)); try done.
    + by rewrite V1_set_entries_twice, V1_undockRange_step.
    + rewrite length_insert. lia.
    + intros j ej Hj Hlook. rewrite list_lookup_insert_ne in Hlook by lia.
      apply Hel; [lia | done].
Qed.

Lemma V1_undockRange_lookup cur a n l j :
  V1_undockRange cur a n l !! j
  = (λ e, if bool_decide (a ≤ j < a + n)%nat then V1_undockOne cur j e else e)
    <$> l !! j.
Proof. unfold V1_undockRange. by rewrite list_lookup_imap. Qed.

Lemma V1_undockRange_length cur a n l :
  length (V1_undockRange cur a n l) = length l.
Proof. unfold V1_undockRange. by rewrite length_imap. Qed.

Lemma V1_undocked_facts e el :
  V1.hasDockClass (V1.set_hasBeenInViewBefore false (V1_undocked e el)) = false
  ∧ V1.minimizePosition_
      (V1.set_hasBeenInViewBefore false (V1_undocked e el)) = V1.DEFAULT
  ∧ V1.hasBeenInViewBefore
      (V1.set_hasBeenInViewBefore false (V1_undocked e el)) = false
  ∧ controlsHidden
      (V1.video (V1.set_hasBeenInViewBefore false (V1_undocked e el))) = false
  ∧ style <$> V1.internalElement_
                (V1.set_hasBeenInViewBefore false (V1_undocked e el))
    = Some [].
Proof.
  unfold V1.hasDockClass. cbn.
  rewrite contains_clearStyleAttribute, classList_remove_contains.
  repeat split. apply controlsHidden_showControls.
Qed.

(** X23.  Earlier variant: when every other dockable entry has its player
    node, [registerDocked] returns with [curDocked_] set to the entry, leaves
    that entry as it was, and undocks every other entry with docking (class
    and inline style removed, controls shown, minimize position DEFAULT,
    [hasBeenInViewBefore] false); entries without docking stay as they were.
    *)
Theorem V1_registerDocked_undocks_others
    (i : nat) (m : V1.VideoManager) (l : list V1.VideoEntry) :
  V1.entries_ m = Some l →
  (∀ j e, l !! j = Some e → j ≠ i → V1.hasDocking e = true →
          is_Some (V1.internalElement_ e)) →
  ∃ m',
    V1.registerDocked i m = Done m' tt
    ∧ V1.curDocked_ m' = Some i
    ∧ V1.entries m' !! i = l !! i
    ∧ length (V1.entries m') = length l
    ∧ ∀ j e, j ≠ i → l !! j = Some e →
        ∃ e', V1.entries m' !! j = Some e'
              ∧ if V1.hasDocking e
                then V1.hasDockClass e' = false
                     ∧ V1.minimizePosition_ e' = V1.DEFAULT
                     ∧ V1.hasBeenInViewBefore e' = false
                     ∧ controlsHidden (V1.video e') = false
                     ∧ style <$> V1.internalElement_ e' = Some []
                else e' = e.
Proof.
  intros Hl Hel. unfold V1.registerDocked, V1.undockAllExceptCurrent.
  rewrite bind_modify, bind_gets. cbn [V1.entries_ V1.set_curDocked_].
  rewrite Hl. cbn [deref]. rewrite bind_ret.
  rewrite (V1_undock_loop (Some i) (length l) 0 l); try done.
  2:{ intros j e _ Hj Hne Hd. apply (Hel j e Hj); [congruence | done]. }
  eexists. split; [reflexivity |]. split; [done |].
  unfold V1.entries. cbn [V1.entries_ V1.set_entries_ default id].
  split.
  { rewrite V1_undockRange_lookup. destruct (l !! i) as [e|]; [| done].
    cbn. case_bool_decide; [| done]. unfold V1_undockOne.
    by rewrite bool_decide_eq_true_2. }
  split; [apply V1_undockRange_length |].
  intros j e Hji Hj. rewrite V1_undockRange_lookup, Hj. cbn.
  rewrite bool_decide_eq_true_2
    by (split; [lia | by eapply lookup_lt_Some]).
  eexists. split; [reflexivity |]. unfold V1_undockOne.
  rewrite bool_decide_eq_false_2 by congruence. cbn [negb andb].
  destruct (V1.hasDocking e) eqn:Hd; [| done].
  destruct (Hel j e Hj Hji Hd) as [el ->]. apply V1_undocked_facts.
Qed.

(** The theorem on a page with two docked videos, of which the second is
    registered as docked. *)
Lemma V1_registerDocked_undocks_others_witness :
  ∃ m',
    V1.registerDocked 1 (Sample.v1Page [Sample.v1Docked; Sample.v1Docked] None)
    = Done m' tt
    ∧ V1.curDocked_ m' = Some 1%nat
    ∧ V1.entries m' !! 1%nat = Some Sample.v1Docked
    ∧ ∃ e', V1.entries m' !! 0%nat = Some e'
            ∧ V1.hasDockClass e' = false
            ∧ V1.minimizePosition_ e' = V1.DEFAULT.
Proof.
  destruct (V1_registerDocked_undocks_others 1
              (Sample.v1Page [Sample.v1Docked; Sample.v1Docked] None)
              [Sample.v1Docked; Sample.v1Docked] eq_refl)
    as (m' & Hrun & Hcur & Hi & _ & Hothers).
  - intros [|[|j]] e He _ _; try discriminate He;
      injection He as <-; eexists; reflexivity.
  - exists m'. split; [exact Hrun |]. split; [exact Hcur |].
    split; [exact Hi |].
    destruct (Hothers 0%nat Sample.v1Docked) as (e' & He' & Hc & Hp & _);
      [discriminate | reflexivity |].
    exists e'. repeat split; assumption.
Defined.

Lemma for_each_app {S} (l1 l2 : list nat) (body : nat → M S unit) s :
  for_each (l1 ++ l2) body s = (for_each l1 body;; for_each l2 body) s.
Proof.
  revert s. induction l1 as [|i l1 IH]; intros s; cbn [app for_each].
  - by rewrite bind_ret.
  - rewrite bind_assoc. unfold bind in *.
    destruct (body i s); [apply IH | done].
Qed.

(** X24.  Earlier variant: [registerDocked] throws a TypeError at the first
    other dockable entry that has no player node yet. By then [curDocked_] is
    set, the entries before that one are undocked and its own minimize
    position is reset; the entries after it are not visited. *)
Theorem V1_registerDocked_stops_at_unloaded_entry
    (i k : nat) (m : V1.VideoManager) (l : list V1.VideoEntry)
    (e : V1.VideoEntry) :
  V1.entries_ m = Some l →
  l !! k = Some e → k ≠ i →
  V1.hasDocking e = true → V1.internalElement_ e = None →
  (∀ j ej, (j < k)%nat → l !! j = Some ej → j ≠ i → V1.hasDocking ej = true →
           is_Some (V1.internalElement_ ej)) →
  ∃ m',
    V1.registerDocked i m = Thrown m' TypeError
    ∧ V1.curDocked_ m' = Some i
    ∧ V1.entries m' !! k = Some (V1.set_minimizePosition_ V1.DEFAULT e)
    ∧ (∀ j, (k < j)%nat → V1.entries m' !! j = l !! j)
    ∧ (∀ j, (j < k)%nat →
            V1.entries m' !! j = V1_undockOne (Some i) j <$> l !! j).
Proof.
  intros Hl He Hki Hd Hel Hbefore.
  unfold V1.registerDocked, V1.undockAllExceptCurrent.
  rewrite bind_modify, bind_gets. cbn [V1.entries_ V1.set_curDocked_].
  rewrite Hl. cbn [deref]. rewrite bind_ret.
  pose proof (lookup_lt_Some _ _ _ He) as Hk.
  replace (length l) with (k + S (length l - S k))%nat by lia.
  rewrite seq_app, for_each_app. cbn [Nat.add seq for_each].
  set (m0 := V1.set_curDocked_ (Some i) m).
  set (l1 := V1_undockRange (Some i) 0 k l).
  assert (H1 : for_each (seq 0 k)
    (λ i0,
       e0 ← V1.this i0 get;
       cur ← gets V1.curDocked_;
       when (negb (bool_decide (Some i0 = cur)) && V1.hasDocking e0)
         (V1.this i0 V1.unDockVideo_;;
          V1.this i0 (V1.assign V1.set_hasBeenInViewBefore false))) m0
    = Done (V1.set_entries_ (Some l1) m0) tt).
  { apply V1_undock_loop; try done; [lia |].
    intros j ej Hj Hlook Hne Hdj.
    apply (Hbefore j ej); [lia | done | congruence | done]. }
  rewrite (bind_done _ _ _ _ _ H1).
  assert (Hk1 : l1 !! k = Some e).
  { subst l1. rewrite V1_undockRange_lookup, He. cbn.
    by rewrite bool_decide_eq_false_2 by lia. }
  set (m1 := V1.set_entries_ (Some l1) m0).
  assert (Hget : V1.this k get m1 = Done m1 e).
  { rewrite (V1_this_run _ _ m1 l1 e eq_refl Hk1). cbn.
    by rewrite list_insert_id. }
  rewrite bind_assoc, (bind_done _ _ _ _ _ Hget), bind_assoc, bind_gets.
  cbn [V1.curDocked_ m1 m0 V1.set_entries_ V1.set_curDocked_].
  rewrite bool_decide_eq_false_2, Hd by congruence. cbn [negb andb when].
  assert (H2 : V1.this k V1.unDockVideo_ m1
    = Thrown (V1.set_entries_
                (Some (<[k:=V1.set_minimizePosition_ V1.DEFAULT e]> l1)) m1)
             TypeError).
  { by rewrite (V1_this_run _ _ m1 l1 e eq_refl Hk1),
      (V1_unDockVideo_unloaded e Hel). }
  rewrite bind_assoc, (bind_thrown _ _ _ _ _ H2).
  eexists. split; [reflexivity |]. split; [done |].
  unfold V1.entries. cbn [V1.entries_ V1.set_entries_ default id].
  split; [apply list_lookup_insert_eq; by eapply lookup_lt_Some |].
  split.
  - intros j Hj. rewrite list_lookup_insert_ne by lia.
    subst l1. rewrite V1_undockRange_lookup. destruct (l !! j); [| done].
    cbn. by rewrite bool_decide_eq_false_2 by lia.
  - intros j Hj. rewrite list_lookup_insert_ne by lia.
    subst l1. rewrite V1_undockRange_lookup. destruct (l !! j); [| done].
    cbn. by rewrite bool_decide_eq_true_2 by lia.
Qed.

(** The theorem on a page whose first video is not loaded yet, when the second
    is registered as docked. *)
Lemma V1_registerDocked_stops_at_unloaded_entry_witness :
  ∃ m',
    V1.registerDocked 1
      (Sample.v1Page [Sample.v1Unloaded; Sample.v1Docked] None)
    = Thrown m' TypeError
    ∧ V1.curDocked_ m' = Some 1%nat
    ∧ V1.entries m' !! 1%nat = Some Sample.v1Docked.
Proof.
  destruct (V1_registerDocked_stops_at_unloaded_entry 1 0
              (Sample.v1Page [Sample.v1Unloaded; Sample.v1Docked] None)
              [Sample.v1Unloaded; Sample.v1Docked] Sample.v1Unloaded)
    as (m' & Hrun & Hcur & _ & Hafter & _);
    [reflexivity | reflexivity | discriminate | reflexivity | reflexivity
    | intros j ej Hj; inversion Hj |].
  exists m'. split; [exact Hrun |]. split; [exact Hcur |].
  apply (Hafter 1%nat). constructor.
Defined.

Lemma V1_updateDockableVideoPosition_total p e :
  ∃ e', V1.updateDockableVideoPosition_ p e = Done e' tt
        ∧ V1.loaded_ e' = V1.loaded_ e.
Proof.
  unfold V1.updateDockableVideoPosition_, V1.assign.
  destruct (positionRect p) as [r|].
  - cbv zeta. repeat case_match; eexists; split; reflexivity.
  - rewrite bind_gets. case_match; eexists; split; reflexivity.
Qed.

(** X25.  Earlier variant: while another entry is the docked one,
    [onDockableVideoPositionChanged] of an entry queues no task and changes
    neither [curDocked_] nor any other entry. *)
Theorem V1_nothing_queued_while_another_is_docked
    (i j : nat) (m : V1.VideoManager) (p : PositionInViewportEntryDef) :
  V1.curDocked_ m = Some j → j ≠ i →
  is_Some (V1.entries m !! i) →
  ∃ m',
    V1.onDockableVideoPositionChanged i p m = Done m' []
    ∧ V1.curDocked_ m' = Some j
    ∧ ∀ k, k ≠ i → V1.entries m' !! k = V1.entries m !! k.
Proof.
  intros Hc Hji [e He]. unfold V1.entries in He.
  destruct (V1.entries_ m) as [l|] eqn:Hl; [| done]. cbn in He.
  destruct (V1_updateDockableVideoPosition_total p e) as (e' & Hu & _).
  unfold V1.onDockableVideoPositionChanged.
  assert (H1 : V1.this i (V1.updateDockableVideoPosition_ p) m
               = Done (V1.set_entries_ (Some (<[i:=e']> l)) m) tt).
  { by rewrite (V1_this_run _ _ _ _ _ Hl He), Hu. }
  rewrite (bind_done _ _ _ _ _ H1).
  set (m1 := V1.set_entries_ (Some (<[i:=e']> l)) m).
  assert (He1 : <[i:=e']> l !! i = Some e').
  { apply list_lookup_insert_eq. by eapply lookup_lt_Some. }
  assert (H2 : V1.this i get m1 = Done m1 e').
  { rewrite (V1_this_run _ _ m1 _ e' eq_refl He1). cbn.
    by rewrite list_insert_id. }
  rewrite (bind_done _ _ _ _ _ H2), bind_get.
  unfold V1.noDockedVid, V1.curDockedVid.
  cbn [V1.curDocked_ m1 V1.set_entries_]. rewrite Hc. cbn [isNull negb].
  rewrite (bool_decide_eq_false_2 (Some j = Some i)) by congruence.
  cbn [negb andb]. rewrite !orb_true_r.
  exists m1. split; [done |]. split; [done |].
  intros k Hk. unfold V1.entries. cbn. rewrite Hl. cbn.
  by rewrite list_lookup_insert_ne.
Qed.

(** The theorem on a page with two videos of which the second is the docked
    one. *)
Lemma V1_nothing_queued_while_another_is_docked_witness :
  ∃ m',
    V1.onDockableVideoPositionChanged 0 Scenario.above
      (Sample.v1Page [Sample.v1Docked; Sample.v1Docked] (Some 1%nat))
    = Done m' []
    ∧ V1.curDocked_ m' = Some 1%nat
    ∧ V1.entries m' !! 1%nat = Some Sample.v1Docked.
Proof.
  destruct (V1_nothing_queued_while_another_is_docked 0 1
              (Sample.v1Page [Sample.v1Docked; Sample.v1Docked] (Some 1%nat))
              Scenario.above)
    as (m' & Hrun & Hcur & Hothers);
    [reflexivity | discriminate | eexists; reflexivity |].
  exists m'. split; [exact Hrun |]. split; [exact Hcur |].
  apply (Hothers 1%nat). discriminate.
Defined.

Lemma V1_setTransition_run v e el :
  V1.internalElement_ e = Some el →
  V1.setTransition v e
  = Done (V1.set_internalElement_
            (Some (el_setStyles [("transition", Keyword v)] el)) e) tt.
Proof.
  intros Hel. unfold V1.setTransition, V1.updateInternalElement.
  by rewrite bind_gets, Hel.
Qed.

Lemma V1_half_left (a w half : Q) :
  0 < w → Qlt_bool half (a + w / 2) = false → Qlt_bool a half = true.
Proof.
  intros Hw H. apply Qlt_bool_iff. unfold Qlt_bool in H.
  apply negb_false_iff, Qle_bool_iff in H.
  change (w / 2) with (w * (1 # 2)) in H. lra.
Qed.

Lemma V1_snap_x_run env r e el :
  V1.internalElement_ e = Some el → 0 < width r →
  let c := V1.dragCoordinates_ e in
  V1.snap_x env r e
  = Done (V1.set_dragCoordinates_
            (set_position
               (mkPoint
                  (if Qlt_bool (viewportWidth env / 2)
                               (x (position c) + width r / 2)
                   then viewportWidth env - width r - DOCK_MARGIN
                   else DOCK_MARGIN)
                  (y (position c))) c)
            (V1.set_internalElement_
               (Some (el_setStyles [("transition", Keyword "all .2s")] el))
               e)) tt.
Proof.
  intros Hel Hw c. unfold V1.snap_x. rewrite bind_gets. fold c.
  destruct (Qlt_bool (viewportWidth env / 2) _) eqn:Hx;
    [| rewrite (V1_half_left _ _ _ Hw Hx)];
    by rewrite (bind_done _ _ _ _ _ (V1_setTransition_run _ e el Hel)).
Qed.

Lemma V1_snap_y_run env r e el :
  V1.internalElement_ e = Some el → 0 < height r →
  let c := V1.dragCoordinates_ e in
  V1.snap_y env r e
  = Done (V1.set_dragCoordinates_
            (set_position
               (mkPoint
                  (x (position c))
                  (if Qlt_bool (viewportHeight env / 2)
                               (y (position c) + height r / 2)
                   then viewportHeight env - height r - DOCK_MARGIN
                   else DOCK_MARGIN)) c)
            (V1.set_internalElement_
               (Some (el_setStyles [("transition", Keyword "all .2s")] el))
               e)) tt.
Proof.
  intros Hel Hh c. unfold V1.snap_y. rewrite bind_gets. fold c.
  destruct (Qlt_bool (viewportHeight env / 2) _) eqn:Hy;
    [| rewrite (V1_half_left _ _ _ Hh Hy)];
    by rewrite (bind_done _ _ _ _ _ (V1_setTransition_run _ e el Hel)).
Qed.

(** The block "Snap to corners" on an element of positive size whose
    velocity is within the threshold. *)
Lemma V1_drag_snap_run env r e el :
  V1.internalElement_ e = Some el →
  Qabs (x (velocity (V1.dragCoordinates_ e))) <= V1.STOP_THRESHOLD →
  Qabs (y (velocity (V1.dragCoordinates_ e))) <= V1.STOP_THRESHOLD →
  0 < width r → 0 < height r →
  let c := V1.dragCoordinates_ e in
  ∃ el',
    V1.drag_snap env r e
    = Done (V1.set_dragCoordinates_
              (set_position
                 (mkPoint
                    (if Qlt_bool (viewportWidth env / 2)
                                 (x (position c) + width r / 2)
                     then viewportWidth env - width r - DOCK_MARGIN
                     else DOCK_MARGIN)
                    (if Qlt_bool (viewportHeight env / 2)
                                 (y (position c) + height r / 2)
                     then viewportHeight env - height r - DOCK_MARGIN
                     else DOCK_MARGIN)) c)
              (V1.set_internalElement_ (Some el') e)) tt.
Proof.
  intros Hel Hvx Hvy Hw Hh c. subst c.
  apply Qle_bool_iff in Hvx, Hvy.
  unfold V1.drag_snap. rewrite bind_gets, Hvx, Hvy. cbn [andb].
  rewrite (bind_done _ _ _ _ _ (V1_snap_x_run env r e el Hel Hw)).
  erewrite V1_snap_y_run; [| reflexivity | exact Hh].
  eexists. reflexivity.
Qed.

Lemma V1_drag_stopped_element e :
  V1.drag_stopped e = false → ∃ el, V1.internalElement_ e = Some el.
Proof.
  unfold V1.drag_stopped.
  destruct (V1.internalElement_ e) as [el|]; [by exists el |].
  cbn. by rewrite orb_true_r.
Qed.

(** X26.  Earlier variant: a run of [handleDockingDrag_] on a released entry
    that is not dismissed and whose velocity after friction is within
    STOP_THRESHOLD snaps the element: DOCK_MARGIN from the right edge when its
    centre is right of the middle of the viewport and DOCK_MARGIN from the
    left edge otherwise, and likewise vertically; the next run is queued. *)
Theorem V1_slow_video_snaps_to_a_corner
    (env : Env) (i : nat) (m : V1.VideoManager) (e : V1.VideoEntry) :
  V1.entries m !! i = Some e →
  V1.drag_stopped e = false →
  V1.isDragging_ e = false →
  V1.dismissed e = false →
  let c := V1.dragCoordinates_ e in
  let r := minimizedRect env in
  Qabs (x (velocity c) * V1.FRICTION_COEFF) <= V1.STOP_THRESHOLD →
  Qabs (y (velocity c) * V1.FRICTION_COEFF) <= V1.STOP_THRESHOLD →
  0 < width r → 0 < height r →
  ∃ m' e',
    V1.handleDockingDrag_ env i m = Done m' tt
    ∧ V1.entries m' !! i = Some e'
    ∧ V1.scheduledDrag e' = S (V1.scheduledDrag e)
    ∧ let centerX := x (position c) + x (velocity c) + width r / 2 in
      let centerY := y (position c) + y (velocity c) + height r / 2 in
      let p' := position (V1.dragCoordinates_ e') in
      (viewportWidth env / 2 < centerX →
       x p' = viewportWidth env - width r - DOCK_MARGIN)
      ∧ (centerX <= viewportWidth env / 2 → x p' = DOCK_MARGIN)
      ∧ (viewportHeight env / 2 < centerY →
         y p' = viewportHeight env - height r - DOCK_MARGIN)
      ∧ (centerY <= viewportHeight env / 2 → y p' = DOCK_MARGIN).
Proof.
  intros He Hs Hd Hx c r Hvx Hvy Hw Hh.
  destruct (V1_drag_stopped_element e Hs) as [el Hel].
  unfold V1.entries in He.
  destruct (V1.entries_ m) as [l|] eqn:Hl; [| done]. cbn in He.
  assert (Hget : V1.this i get m = Done m e).
  { rewrite (V1_this_run _ _ _ _ _ Hl He). cbn.
    by rewrite list_insert_id, V1_set_entries_same. }
  unfold V1.handleDockingDrag_.
  rewrite (bind_done _ _ _ _ _ Hget), Hs, Hd, Hx. cbv zeta.
  set (e1 := V1.set_dragCoordinates_
               (set_velocity
                  (mkPoint (x (velocity c) * V1.FRICTION_COEFF)
                           (y (velocity c) * V1.FRICTION_COEFF))
                  (set_position
                     (mkPoint (x (position c) + x (velocity c))
                              (y (position c) + y (velocity c))) c)) e).
  assert (H1 : V1.this i
                 (c ← gets V1.dragCoordinates_;
                  V1.assignCoord set_position
                    (mkPoint (x (position c) + x (velocity c))
                             (y (position c) + y (velocity c)));;
                  c ← gets V1.dragCoordinates_;
                  V1.assignCoord set_velocity
                    (mkPoint (x (velocity c) * V1.FRICTION_COEFF)
                             (y (velocity c) * V1.FRICTION_COEFF))) m
               = Done (V1.set_entries_ (Some (<[i:=e1]> l)) m) tt).
  { by rewrite (V1_this_run _ _ _ _ _ Hl He). }
  rewrite (bind_done _ _ _ _ _ H1).
  destruct (V1_drag_snap_run env r e1 el Hel Hvx Hvy Hw Hh) as [el' Hsnap].
  cbv zeta in Hsnap.
  cbn [V1.dragCoordinates_ V1.set_dragCoordinates_ position set_position
       set_velocity x y e1] in Hsnap.
  assert (He1 : <[i:=e1]> l !! i = Some e1).
  { apply list_lookup_insert_eq. by eapply lookup_lt_Some. }
  rewrite (V1_this_run _ _ (V1.set_entries_ _ m) _ e1 eq_refl He1).
  rewrite (bind_done _ _ _ _ _ Hsnap).
  unfold V1.drag_move. rewrite bind_gets, bind_gets.
  cbn [V1.internalElement_ V1.set_dragCoordinates_ V1.set_internalElement_
       dev_assertElement].
  rewrite bind_ret. unfold V1.assign. rewrite bind_modify. unfold modify.
  eexists _, _. split; [reflexivity |].
  split.
  { unfold V1.entries. cbn [V1.entries_ V1.set_entries_ default].
    apply list_lookup_insert_eq. rewrite length_insert.
    by eapply lookup_lt_Some. }
  split; [reflexivity |].
  cbn [V1.dragCoordinates_ V1.set_dragCoordinates_ V1.set_internalElement_
       V1.set_scheduledDrag position set_position set_velocity x y e1].
  cbv zeta. repeat split; intros Hc.
  - by rewrite (proj2 (Qlt_bool_iff _ _) Hc).
  - destruct (Qlt_bool _ _) eqn:Hq; [| done].
    apply Qlt_bool_iff in Hq. lra.
  - by rewrite (proj2 (Qlt_bool_iff _ _) Hc).
  - destruct (Qlt_bool (viewportHeight env / 2) _) eqn:Hq; [| done].
    apply Qlt_bool_iff in Hq. lra.
Qed.

(** The theorem on a docked video released at (600, 20) with velocity (4, -8).
    *)
Lemma V1_slow_video_snaps_to_a_corner_witness :
  ∃ m' e',
    V1.handleDockingDrag_ Scenario.env 0
      (Sample.v1Page [Sample.v1Docked] (Some 0%nat))
    = Done m' tt
    ∧ V1.entries m' !! 0%nat = Some e'
    ∧ V1.scheduledDrag e' = 1%nat
    ∧ x (position (V1.dragCoordinates_ e')) == 600
    ∧ y (position (V1.dragCoordinates_ e')) == 20.
Proof.
  destruct (V1_slow_video_snaps_to_a_corner Scenario.env 0
              (Sample.v1Page [Sample.v1Docked] (Some 0%nat)) Sample.v1Docked)
    as (m' & e' & Hrun & He' & Hn & Hright & _ & _ & Htop);
    [reflexivity | vm_compute; reflexivity | reflexivity | reflexivity
    | vm_compute; discriminate | vm_compute; discriminate
    | vm_compute; reflexivity | vm_compute; reflexivity |].
  exists m', e'. split; [exact Hrun |]. split; [exact He' |].
  split; [exact Hn |]. split.
  - rewrite Hright; [reflexivity | vm_compute; reflexivity].
  - rewrite Htop; [reflexivity | vm_compute; discriminate].
Defined.
End V1_properties.
